(** * expr-gen.py: journal/commit, override dispatch and the goal/optimizer chain

    A shallow embedding of [src/expr-gen.py].  Python objects live in an
    explicit heap; the module-level attributes [commit.reads],
    [commit.writes], [goal.journaled], [goal.do], [goal.in_do] and
    [goal.in_goal] are fields of the machine state; every Python function
    becomes a computation in a state-and-exception monad. *)

From Stdlib Require Import ZArith String Ascii List Bool Lia.
From stdpp Require Import base list.
Import ListNotations.
Local Open Scope Z_scope.

(** ** Values and objects *)

(** Heap addresses. *)
Abbreviation loc := nat (only parsing).

(** Python values the engine handles.  [VDict l] is a reference to a [dict]
    object (unhashable), [VObj l] a reference to a class instance (hashable
    by identity, no item protocol).  [VId l] is the integer [id(x)] of the
    heap object at [l]: an address, kept apart from [VInt] because it never
    coincides with an integer the program computes. *)
Inductive value : Type :=
| VNone
| VBool (b : bool)
| VInt (n : Z)
| VStr (s : string)
| VId (l : loc)
| VDict (l : loc)
| VObj (l : loc).
Arguments VId l%_nat.
Arguments VDict l%_nat.
Arguments VObj l%_nat.

(** The checked operations an Override Table can be keyed by. *)
Inductive op : Type := OpRead | OpWrite | OpOther (n : nat).

(** Override functions are named; their bodies are a parameter of the
    semantics (see [Section Engine]). *)
Definition ovr := nat.

(** A [dict]: its items in insertion order, and the list stored under the
    key [_dictKeys] (the function object), when that key is present. *)
Record dictobj : Type := mkDict {
  dkeys : option (list value);
  items : list (value * value)
}.

(** [__concept__] of an instance: absent, or a table from operation to
    an override (which may itself be [None]). *)
Definition table := list (op * option ovr).

Inductive obj : Type :=
| ODict (d : dictobj)
| OInst (concept : option table) (attrs : list (string * value)).

Inductive exn : Type :=
| KeyError | TypeError | AttributeError | IndexError | ValueError
| Failure (tag : nat).

Inductive res (A : Type) : Type :=
| Ok (a : A)
| Raise (e : exn).
Arguments Ok {A} a.
Arguments Raise {A} e.

(** ** Decidable equalities *)

Definition op_eqb (a b : op) : bool :=
  match a, b with
  | OpRead, OpRead => true
  | OpWrite, OpWrite => true
  | OpOther n, OpOther m => Nat.eqb n m
  | _, _ => false
  end.

Definition bool_int (b : bool) : Z := if b then 1 else 0.

(** Python [==] on hashable values, as [dict] uses it: [True == 1],
    instances compare by identity. *)
Definition py_eqb (a b : value) : bool :=
  match a, b with
  | VNone, VNone => true
  | VBool x, VBool y => Bool.eqb x y
  | VBool x, VInt n => Z.eqb (bool_int x) n
  | VInt n, VBool y => Z.eqb n (bool_int y)
  | VInt n, VInt m => Z.eqb n m
  | VStr s, VStr t => String.eqb s t
  | VId l, VId m => Nat.eqb l m
  | VObj l, VObj m => Nat.eqb l m
  | _, _ => false
  end.

(** [x is None] *)
Definition is_none (v : value) : bool :=
  match v with VNone => true | _ => false end.

Definition hashable (v : value) : bool :=
  match v with VDict _ => false | _ => true end.

(** [id(x)] for a heap object; the address of an immediate value is never
    stored anywhere, so it has no representation. *)
Definition id_of (v : value) : option value :=
  match v with
  | VDict l => Some (VId l)
  | VObj l => Some (VId l)
  | _ => None
  end.

(** ** Items of a dict, in insertion order *)

Fixpoint d_lookup (k : value) (its : list (value * value)) : option value :=
  match its with
  | [] => None
  | (k', v) :: rest => if py_eqb k' k then Some v else d_lookup k rest
  end.

(** Assignment keeps the position and the key object of an existing entry,
    and appends a new one otherwise. *)
Fixpoint d_store (k v : value) (its : list (value * value))
  : list (value * value) :=
  match its with
  | [] => [(k, v)]
  | (k', v') :: rest =>
      if py_eqb k' k then (k', v) :: rest else (k', v') :: d_store k v rest
  end.

Definition d_mem (k : value) (its : list (value * value)) : bool :=
  match d_lookup k its with Some _ => true | None => false end.

(** [tgt.update(src)] on two dicts: every item of [src], in order, and the
    [_dictKeys] entry of [src] when it has one. *)
Definition d_update (tgt src : dictobj) : dictobj :=
  {| dkeys := match dkeys src with Some l => Some l | None => dkeys tgt end;
     items := fold_left (fun acc kv => d_store (fst kv) (snd kv) acc)
                        (items src) (items tgt) |}.

Definition empty_dict : dictobj := {| dkeys := None; items := [] |}.

(** ** Machine state *)

(** The tuple [(result, read_journal, write_journal)] returned by
    [journal]; both journals are dict objects. *)
Record effect : Type := mkEffect {
  e_result : value;
  e_reads : loc;
  e_writes : loc
}.
Arguments mkEffect e_result (e_reads e_writes)%_nat.

(** What [goal.do] can hold: a strategy passed to [on_goal], or the
    closure [combine] built by [on_goal] from the previous [goal.do] and
    the new [do].  A strategy is the closure [repeat] of [minimize]
    (capturing [tries]) or a strategy of the caller, given by its name. *)
Inductive strat : Type :=
| Repeat (tries : Z)
| UserStrat (n : nat).
Arguments UserStrat n%_nat.

Inductive optimizer : Type :=
| Single (s : strat)
| Combine (prev : optimizer) (do_ : strat).

Record State : Type := mkState {
  heap : list obj;
  commit_reads : option loc;
  commit_writes : option loc;
  goal_journaled : option effect;
  goal_do : option optimizer;
  goal_in_do : bool;
  goal_in_goal : bool;
  rng : nat                       (* state of the [random] module *)
}.
Arguments mkState heap (commit_reads commit_writes)%_nat
  goal_journaled goal_do goal_in_do goal_in_goal rng%_nat.

Definition set_rng (n : nat) (st : State) : State :=
  mkState (heap st) (commit_reads st) (commit_writes st) (goal_journaled st)
          (goal_do st) (goal_in_do st) (goal_in_goal st) n.

Definition set_heap (h : list obj) (st : State) : State :=
  mkState h (commit_reads st) (commit_writes st) (goal_journaled st)
          (goal_do st) (goal_in_do st) (goal_in_goal st) (rng st).

Definition set_journals (r w : option loc) (st : State) : State :=
  mkState (heap st) r w (goal_journaled st)
          (goal_do st) (goal_in_do st) (goal_in_goal st) (rng st).

Definition set_journaled (j : option effect) (st : State) : State :=
  mkState (heap st) (commit_reads st) (commit_writes st) j
          (goal_do st) (goal_in_do st) (goal_in_goal st) (rng st).

Definition set_do (d : option optimizer) (st : State) : State :=
  mkState (heap st) (commit_reads st) (commit_writes st) (goal_journaled st)
          d (goal_in_do st) (goal_in_goal st) (rng st).

Definition set_in_do (b : bool) (st : State) : State :=
  mkState (heap st) (commit_reads st) (commit_writes st) (goal_journaled st)
          (goal_do st) b (goal_in_goal st) (rng st).

Definition set_in_goal (b : bool) (st : State) : State :=
  mkState (heap st) (commit_reads st) (commit_writes st) (goal_journaled st)
          (goal_do st) (goal_in_do st) b (rng st).

(** The module right after import: lines 199-200 and 256-259. *)
Definition initial (h : list obj) : State :=
  mkState h None None None None false false 0.

(** ** The state-and-exception monad *)

Definition M (A : Type) : Type := State -> res A * State.

Definition ret {A} (a : A) : M A := fun st => (Ok a, st).
Definition raise {A} (e : exn) : M A := fun st => (Raise e, st).
Definition bind {A B} (m : M A) (k : A -> M B) : M B :=
  fun st => match m st with
            | (Ok a, st') => k a st'
            | (Raise e, st') => (Raise e, st')
            end.

(** [try: m except E: h] for the exceptions [catches] accepts. *)
Definition try_except {A} (m : M A) (catches : exn -> bool) (h : M A) : M A :=
  fun st => match m st with
            | (Ok a, st') => (Ok a, st')
            | (Raise e, st') => if catches e then h st' else (Raise e, st')
            end.

Definition get : M State := fun st => (Ok st, st).
Definition modify (f : State -> State) : M unit := fun st => (Ok tt, f st).

Declare Scope py_scope.
Delimit Scope py_scope with py.
Notation "x <- m ;; k" := (bind m (fun x => k))
  (at level 63, m at next level, right associativity) : py_scope.
Notation "m ;;; k" := (bind m (fun _ => k))
  (at level 63, right associativity) : py_scope.
Local Open Scope py_scope.

Definition is_KeyError (e : exn) : bool :=
  match e with KeyError => true | _ => false end.
Definition is_TypeError (e : exn) : bool :=
  match e with TypeError => true | _ => false end.
Definition is_AttributeError (e : exn) : bool :=
  match e with AttributeError => true | _ => false end.

(** ** Python primitives on heap objects *)

Definition alloc (o : obj) : M loc :=
  fun st => (Ok (length (heap st)), set_heap (heap st ++ [o]) st).

(** The dict a value refers to; anything else has no item assignment,
    no [in] for integers and no [update]. *)
Definition as_dict (h : list obj) (tgt : value) : option (loc * dictobj) :=
  match tgt with
  | VDict l => match h !! l with
               | Some (ODict d) => Some (l, d)
               | _ => None
               end
  | _ => None
  end.

Definition put_dict (l : loc) (d : dictobj) : M unit :=
  modify (fun st => set_heap (<[l := ODict d]> (heap st)) st).

(** [tgt[k] = v] *)
Definition setitem (tgt k v : value) : M unit :=
  st <- get ;;
  match as_dict (heap st) tgt with
  | Some (l, d) =>
      if hashable k
      then put_dict l (mkDict (dkeys d) (d_store k v (items d)))
      else raise TypeError
  | None => raise TypeError
  end.

(** [s[i]] on a string: one character, negative indices from the end. *)
Definition str_index (s : string) (i : Z) : res value :=
  let n := Z.of_nat (String.length s) in
  if (0 <=? i) && (i <? n) then
    match String.get (Z.to_nat i) s with
    | Some c => Ok (VStr (String c EmptyString))
    | None => Raise IndexError
    end
  else if (- n <=? i) && (i <? 0) then
    match String.get (Z.to_nat (i + n)) s with
    | Some c => Ok (VStr (String c EmptyString))
    | None => Raise IndexError
    end
  else Raise IndexError.

(** [tgt[k]] *)
Definition getitem (tgt k : value) : M value :=
  st <- get ;;
  match tgt with
  | VDict _ =>
      match as_dict (heap st) tgt with
      | Some (_, d) =>
          if hashable k
          then match d_lookup k (items d) with
               | Some v => ret v
               | None => raise KeyError
               end
          else raise TypeError
      | None => raise TypeError
      end
  | VStr s =>
      match k with
      | VInt i => fun st' => (str_index s i, st')
      | VBool b => fun st' => (str_index s (bool_int b), st')
      | VId _ => raise IndexError
      | _ => raise TypeError
      end
  | _ => raise TypeError
  end.

Fixpoint is_substring (t s : string) : bool :=
  String.prefix t s
  || match s with
     | EmptyString => false
     | String _ s' => is_substring t s'
     end.

(** [k in tgt] *)
Definition contains (tgt k : value) : M bool :=
  st <- get ;;
  match tgt with
  | VDict _ =>
      match as_dict (heap st) tgt with
      | Some (_, d) =>
          if hashable k then ret (d_mem k (items d)) else raise TypeError
      | None => raise TypeError
      end
  | VStr s =>
      match k with
      | VStr t => ret (is_substring t s)
      | _ => raise TypeError
      end
  | _ => raise TypeError
  end.

(** [id(k) in tgt]: an integer is looked for, so only a dict answers. *)
Definition contains_id (tgt k : value) : M bool :=
  st <- get ;;
  match as_dict (heap st) tgt with
  | Some (_, d) =>
      match id_of k with
      | Some i => ret (d_mem i (items d))
      | None => ret false
      end
  | None => raise TypeError
  end.

(** [tgt[id(k)]] and [tgt[id(k)] = v].  Both are reached only after
    [id(k) in tgt] was evaluated. *)
Definition getitem_id (tgt k : value) : M value :=
  match id_of k with
  | Some i => getitem tgt i
  | None => raise KeyError
  end.

Definition setitem_id (tgt k v : value) : M unit :=
  match id_of k with
  | Some i => setitem tgt i v
  | None => raise TypeError
  end.

(** [_dictKeys in tgt], [tgt[_dictKeys] = []] and
    [tgt[_dictKeys].append(k)] *)
Definition has_dictKeys (tgt : value) : M bool :=
  st <- get ;;
  match as_dict (heap st) tgt with
  | Some (_, d) => ret (match dkeys d with Some _ => true | None => false end)
  | None => raise TypeError
  end.

Definition init_dictKeys (tgt : value) : M unit :=
  st <- get ;;
  match as_dict (heap st) tgt with
  | Some (l, d) => put_dict l (mkDict (Some []) (items d))
  | None => raise TypeError
  end.

Definition append_dictKeys (tgt k : value) : M unit :=
  st <- get ;;
  match as_dict (heap st) tgt with
  | Some (l, d) =>
      match dkeys d with
      | Some ks => put_dict l (mkDict (Some (ks ++ [k])) (items d))
      | None => raise KeyError
      end
  | None => raise TypeError
  end.

(** ** Dicts with unhashable keys: lines 77-125 *)

(** [_dictSet(dict, key, value)]; it has no [return], so it yields [None]. *)
Definition _dictSet (dict key v : value) : M unit :=
  try_except (setitem dict key v) is_TypeError
    (present <- contains_id dict key ;;
     (if negb present
      then (has <- has_dictKeys dict ;;
            (if negb has then init_dictKeys dict else ret tt) ;;;
            append_dictKeys dict key)
      else ret tt) ;;;
     setitem_id dict key v).

(** [_dictCreate(dict, key)] *)
Definition _dictCreate (dict key : value) : M value :=
  present <- contains_id dict key ;;
  if present then getitem_id dict key
  else
    found <- try_except
               (isin <- contains dict key ;;
                if isin then (v <- getitem dict key ;; ret (Some v))
                else ret None)
               is_TypeError (ret None) ;;
    match found with
    | Some v => ret v
    | None =>
        d <- alloc (ODict empty_dict) ;;
        _dictSet dict key (VDict d) ;;;
        ret (VDict d)
    end.

(** [_dictGet(dict, key)] *)
Definition _dictGet (dict key : value) : M value :=
  present <- contains_id dict key ;;
  if present then getitem_id dict key
  else try_except (getitem dict key) is_TypeError (raise KeyError).

(** The keys [_dictKeys(dict)] yields, in order.  The generator is consumed
    by the loop of [commit]; it is modelled by the list of what it yields. *)
Definition ids_of (ks : list value) : list value :=
  flat_map (fun k => match id_of k with Some i => [i] | None => [] end) ks.

Definition _dictKeys (dict : value) : M (list value) :=
  st <- get ;;
  match as_dict (heap st) dict with
  | Some (_, d) =>
      match dkeys d with
      | Some ks =>
          let ids := ids_of ks in
          ret (ks ++ List.filter (fun k => negb (existsb (py_eqb k) ids))
                            (map fst (items d)))
      | None => ret (map fst (items d))
      end
  | None => raise TypeError
  end.

(** [x.update(arg)] as [commit] calls it: the attribute is looked up on [x]
    before the argument [arg] is evaluated. *)
Definition has_update (x : value) : M unit :=
  st <- get ;;
  match as_dict (heap st) x with
  | Some _ => ret tt
  | None => raise AttributeError
  end.

Definition call_update (x arg : value) : M unit :=
  st <- get ;;
  match as_dict (heap st) x with
  | Some (l, d) =>
      match arg with
      | VDict _ =>
          match as_dict (heap st) arg with
          | Some (_, src) => put_dict l (d_update d src)
          | None => raise TypeError
          end
      | VStr EmptyString => ret tt
      | VStr _ => raise ValueError
      | _ => raise TypeError
      end
  | None => raise AttributeError
  end.

(** [data.__concept__[code]] *)
Fixpoint table_lookup (code : op) (t : table) : option (option ovr) :=
  match t with
  | [] => None
  | (c, o) :: rest => if op_eqb c code then Some o else table_lookup code rest
  end.

Definition concept_of (h : list obj) (data : value) : option table :=
  match data with
  | VObj l => match h !! l with
              | Some (OInst c _) => c
              | _ => None
              end
  | _ => None
  end.

Definition concept_entry (data : value) (code : op) : M (option ovr) :=
  st <- get ;;
  match concept_of (heap st) data with
  | None => raise AttributeError
  | Some t => match table_lookup code t with
              | Some o => ret o
              | None => raise KeyError
              end
  end.

(** ** The engine *)

Section Engine.

(** Bodies of the override functions, of the caller's strategies (called
    with [measure] and [func]) and the deviates of the random source. *)
Variable call_override : ovr -> list value -> M value.

(** What ordinary attribute lookup finds on a [SelfWritingDict] instance
    under a name other than its slot [dict]: the attributes of the class
    (lines 205-222: [__slots__], [__init__], [__getattr__], [__setattr__],
    [__delattr__], [__dir__], its docstring) and those of [object].
    Which names [object] defines depends on the version of Python, and
    bound methods and classes are no values of this model, so the table
    is a parameter. *)
Variable class_attr : string -> option value.

Variable call_strategy : nat -> (value -> Z) -> M value -> M value.
Variable deviate : nat -> Z.

(** [__checkOverride(data, code, *args)], lines 41-49 *)
Definition __checkOverride (data : value) (code : op) (args : list value)
  : M value :=
  found <- try_except (o <- concept_entry data code ;; ret (Some o))
                      is_AttributeError (ret None) ;;
  match found with
  | None => ret VNone
  | Some None => ret VNone
  | Some (Some override) => call_override override args
  end.

(** The lookup [read] tries in a journal:
    [_dictGet(j, dict)] or [_dictGet(_dictGet(j, dict), key)]. *)
Definition journal_lookup (j : loc) (dict key : value) : M value :=
  if is_none key then _dictGet (VDict j) dict
  else (d <- _dictGet (VDict j) dict ;; _dictGet d key).

Definition try_journal (j : option loc) (dict key : value) (rest : M value)
  : M value :=
  match j with
  | Some l => try_except (journal_lookup l dict key) is_KeyError rest
  | None => rest
  end.

(** The last [try] block of [read], lines 142-152. *)
Definition read_storage (dict key : value) : M value :=
  try_except
    (v <- (if negb (is_none key) then getitem dict key else ret dict) ;;
     result <- __checkOverride v OpRead [v] ;;
     if negb (is_none result) then
       st <- get ;;
       (match commit_reads st with
        | Some r =>
            if negb (is_none key) then
              (if is_none key then _dictSet (VDict r) dict result
               else (d <- _dictCreate (VDict r) dict ;; _dictSet d key result))
            else ret tt
        | None => ret tt
        end) ;;;
       ret result
     else ret v)
    is_KeyError (ret VNone).

(** [read(dict, key=None)], lines 127-152 *)
Definition read (dict key : value) : M value :=
  st <- get ;;
  try_journal (commit_writes st) dict key
    (st' <- get ;;
     try_journal (commit_reads st') dict key (read_storage dict key)).

(** [write(dict, key=None, new=None)], lines 154-174 *)
Definition write (dict key new : value) : M value :=
  st <- get ;;
  match commit_writes st with
  | Some w =>
      if is_none key then (_dictSet (VDict w) dict new ;;; ret VNone)
      else (d <- _dictCreate (VDict w) dict ;;
            _dictSet d key new ;;; ret VNone)
  | None =>
      let store v := if negb (is_none key) then setitem dict key v
                     else ret tt in
      try_except
        (prev <- (if negb (is_none key) then getitem dict key else ret dict) ;;
         result <- __checkOverride prev OpWrite [prev; new] ;;
         if negb (is_none result)
         then (store result ;;; ret result)
         else (store new ;;; ret new))
        is_KeyError
        (store new ;;; ret new)
  end.

(** [journal(func, *args)], lines 176-186 *)
Definition journal (func : M value) : M effect :=
  st <- get ;;
  let prev_reads := commit_reads st in
  let prev_writes := commit_writes st in
  r <- alloc (ODict empty_dict) ;;
  modify (fun s => set_journals (Some r) (commit_writes s) s) ;;;
  w <- alloc (ODict empty_dict) ;;
  modify (fun s => set_journals (commit_reads s) (Some w) s) ;;;
  init_dictKeys (VDict w) ;;;
  result <- func ;;
  modify (set_journals prev_reads prev_writes) ;;;
  ret (mkEffect result r w).

(** The loop of [commit], line 196-197. *)
Fixpoint commit_loop (w : value) (ks : list value) : M unit :=
  match ks with
  | [] => ret tt
  | dict :: rest =>
      has_update dict ;;;
      arg <- _dictGet w dict ;;
      call_update dict arg ;;;
      commit_loop w rest
  end.

(** [commit(result_and_write_journal, dont=False)], lines 188-198 *)
Definition commit (j : effect) (dont : bool) : M value :=
  (if negb dont
   then (ks <- _dictKeys (VDict (e_writes j)) ;;
         commit_loop (VDict (e_writes j)) ks)
   else ret tt) ;;;
  ret (e_result j).

(** [SelfWritingDict], lines 205-222, as the dict it wraps. *)

(** [SelfWritingDict.__getattr__], lines 212-215 *)
Definition __getattr__ (self : loc) (key : string) : M value :=
  v <- read (VDict self) (VStr key) ;;
  write (VDict self) (VStr key) v ;;;
  ret v.

(** The attribute read [self.key].  Python looks the name up the
    ordinary way first, which finds the slot [dict] and what the class
    and [object] define, and calls [__getattr__] only for a name that
    lookup does not find. *)
Definition swd_getattr (self : loc) (key : string) : M value :=
  if String.eqb key "dict" then ret (VDict self)
  else match class_attr key with
       | Some v => ret v
       | None => __getattr__ self key
       end.

(** The assignment [self.key = v] always calls [__setattr__], lines
    216-218. *)

Definition swd_setattr (self : loc) (key : string) (v : value) : M unit :=
  write (VDict self) (VStr key) v ;;; ret tt.

(** [on_goal(do)], lines 261-283 *)
Definition on_goal (do_ : strat) : M unit :=
  st <- get ;;
  if negb (goal_in_goal st) then ret tt
  else if goal_in_do st then ret tt
  else match goal_do st with
       | None => modify (set_do (Some (Single do_)))
       | Some prev => modify (set_do (Some (Combine prev do_)))
       end.

(** The loop of [repeat], lines 292-296. *)
Fixpoint repeat_loop (n : nat) (measure : value -> Z) (func : M value)
  (bestJ : effect) (bestM : Z) : M effect :=
  match n with
  | O => ret bestJ
  | S n' =>
      j <- journal func ;;
      r <- commit j true ;;
      let m := measure r in
      if m <? bestM then repeat_loop n' measure func j m
      else repeat_loop n' measure func bestJ bestM
  end.

(** The closure [repeat] of [minimize], lines 290-297.  [measure] is a
    function of the result to a totally ordered number. *)
Definition minimize_repeat (tries : Z) (measure : value -> Z)
  (func : M value) : M value :=
  st <- get ;;
  match goal_journaled st with
  | None => raise TypeError
  | Some j0 =>
      r0 <- commit j0 true ;;
      bestJ <- repeat_loop (Z.to_nat tries) measure func j0 (measure r0) ;;
      commit bestJ false
  end.

Definition apply_strat (s : strat) (measure : value -> Z) (func : M value)
  : M value :=
  match s with
  | Repeat tries => minimize_repeat tries measure func
  | UserStrat n => call_strategy n measure func
  end.

(** Calling what [goal.do] holds; [combine] hands [prev] the closure
    [redo], which calls [do] (lines 279-282). *)
Fixpoint apply_optimizer (o : optimizer) (measure : value -> Z)
  (func : M value) : M value :=
  match o with
  | Single s => apply_strat s measure func
  | Combine prev do_ =>
      let redo := apply_strat do_ measure func in
      apply_optimizer prev measure redo
  end.

(** [goal(measure, func, *args)], lines 239-255 *)
Definition goal (measure : value -> Z) (func : M value) : M value :=
  st <- get ;;
  let prev_do := goal_do st in
  let prev_in_goal := goal_in_goal st in
  modify (fun s => set_in_goal true (set_do None s)) ;;;
  j <- journal func ;;
  modify (set_journaled (Some j)) ;;;
  st1 <- get ;;
  match goal_do st1 with
  | Some do_ =>
      let prev_in_do := goal_in_do st1 in
      modify (set_in_do true) ;;;
      result <- apply_optimizer do_ measure func ;;
      modify (set_in_do prev_in_do) ;;;
      modify (fun s => set_in_goal prev_in_goal (set_do prev_do s)) ;;;
      ret result
  | None =>
      modify (fun s => set_in_goal prev_in_goal (set_do prev_do s)) ;;;
      st2 <- get ;;
      match goal_journaled st2 with
      | Some j' => commit j' false
      | None => raise TypeError
      end
  end.

(** [minimize(measure, func, *args, tries=2)], lines 285-303, and
    [maximize], lines 305-310.  Without [func] the call registers [repeat]
    and returns [None]. *)
Definition minimize (measure : value -> Z) (func : option (M value))
  (tries : Z) : M value :=
  match func with
  | None => on_goal (Repeat tries) ;;; ret VNone
  | Some f =>
      let immediately_minimize := (on_goal (Repeat tries) ;;; f) in
      goal measure immediately_minimize
  end.

Definition maximize (measure : value -> Z) (func : option (M value))
  (tries : Z) : M value :=
  minimize (fun r => - measure r) func tries.

(** ** Computations

    A computation that touches the engine only through its primitives:
    the tree of its calls, each continued with the value it returned. *)
Inductive comp : Type :=
| Ret (v : value)
| Throw (e : exn)
| Read (c k : value) (cont : value -> comp)
| Write (c k v : value) (cont : value -> comp)
| GetAttr (self : loc) (name : string) (cont : value -> comp)
| SetAttr (self : loc) (name : string) (v : value) (cont : comp)
| Uniform (cont : Z -> comp)
| OnGoal (s : strat) (cont : comp).

Definition uniform : M Z :=
  fun st => (Ok (deviate (rng st)), set_rng (S (rng st)) st).

Fixpoint run (p : comp) : M value :=
  match p with
  | Ret v => ret v
  | Throw e => raise e
  | Read c k cont => x <- read c k ;; run (cont x)
  | Write c k v cont => x <- write c k v ;; run (cont x)
  | GetAttr self name cont => x <- swd_getattr self name ;; run (cont x)
  | SetAttr self name v cont => swd_setattr self name v ;;; run cont
  | Uniform cont => x <- uniform ;; run (cont x)
  | OnGoal s cont => on_goal s ;;; run cont
  end.

End Engine.

(** ** The rest of [SelfWritingDict] and [static] *)

(** [del its[k]]: the items without the entry of [k]. *)
Fixpoint d_remove (k : value) (its : list (value * value))
  : list (value * value) :=
  match its with
  | [] => []
  | (k', v) :: rest =>
      if py_eqb k' k then rest else (k', v) :: d_remove k rest
  end.

(** [del tgt[k]] *)
Definition delitem (tgt k : value) : M unit :=
  st <- get ;;
  match as_dict (heap st) tgt with
  | Some (l, d) =>
      if hashable k
      then if d_mem k (items d)
           then put_dict l (mkDict (dkeys d) (d_remove k (items d)))
           else raise KeyError
      else raise TypeError
  | None => raise TypeError
  end.

(** [SelfWritingDict.__delattr__], lines 219-220 *)
Definition swd_delattr (self : loc) (key : string) : M unit :=
  delitem (VDict self) (VStr key).

(** [static], lines 224-235: the storage is created once, from
    the keyword arguments; the modified function passes it as the first
    argument of every call. *)
Definition kwargs_items (kwargs : list (string * value))
  : list (value * value) :=
  map (fun kv => (VStr (fst kv), snd kv)) kwargs.

Definition static (kwargs : list (string * value)) : M loc :=
  alloc (ODict (mkDict None (kwargs_items kwargs))).

Definition funcModifier {A} (dict : loc) (func : loc -> A) : A := func dict.

(** * Vocabulary of the specification *)

(** ** What the dict helpers do on a dict *)

(** The dict [_dictSet(dict, key, v)] leaves behind. *)
Definition dictSet_result (d : dictobj) (key v : value) : dictobj :=
  if hashable key then mkDict (dkeys d) (d_store key v (items d))
  else match id_of key with
       | Some i =>
           mkDict (if d_mem i (items d) then dkeys d
                   else Some (match dkeys d with Some ks => ks | None => [] end
                              ++ [key]))
                  (d_store i v (items d))
       | None => d
       end.

(** The entry [_dictGet] and [_dictCreate] find for [key]. *)
Definition dict_find (d : dictobj) (key : value) : option value :=
  match match id_of key with
        | Some i => d_lookup i (items d)
        | None => None
        end with
  | Some v => Some v
  | None => if hashable key then d_lookup key (items d) else None
  end.

(** ** Ownership of the journals

    While a journal opened at heap size [n0] runs, its two journals and
    every dict stored in them were allocated by the journal itself. *)

Section OwnershipVocabulary.
Local Open Scope nat_scope.

Definition same_below (n0 : nat) (h h' : list obj) : Prop :=
  forall l, l < n0 -> h' !! l = h !! l.

Definition dicts_kept (h h' : list obj) : Prop :=
  forall l d, h !! l = Some (ODict d) -> exists d', h' !! l = Some (ODict d').

Definition slot_ok (n0 r w : loc) (h : list obj) (v : value) : Prop :=
  exists l d, v = VDict l /\ n0 <= l /\ l <> r /\ l <> w
              /\ h !! l = Some (ODict d).

Definition slots_ok (n0 r w : loc) (h : list obj)
  (its : list (value * value)) : Prop :=
  Forall (fun kv => slot_ok n0 r w h (snd kv)) its.

Definition owned (n0 : nat) (st : State) : Prop :=
  exists r w dr dw,
    commit_reads st = Some r /\ commit_writes st = Some w
    /\ n0 <= r /\ n0 <= w /\ r <> w
    /\ heap st !! r = Some (ODict dr) /\ heap st !! w = Some (ODict dw)
    /\ slots_ok n0 r w (heap st) (items dr)
    /\ slots_ok n0 r w (heap st) (items dw).

(** What a primitive may change while the journal runs: nothing below
    [n0], and none of the module attributes but [goal.do] and the random
    source. *)
Definition frame (n0 : nat) (st st' : State) : Prop :=
  same_below n0 (heap st) (heap st')
  /\ length (heap st) <= length (heap st')
  /\ commit_reads st' = commit_reads st
  /\ commit_writes st' = commit_writes st
  /\ goal_journaled st' = goal_journaled st
  /\ goal_in_do st' = goal_in_do st
  /\ goal_in_goal st' = goal_in_goal st.

End OwnershipVocabulary.

(** A computation all of whose writes are keyed (as every attribute access
    of a [SelfWritingDict] is). *)
Inductive keyed : comp -> Prop :=
| keyed_Ret v : keyed (Ret v)
| keyed_Throw e : keyed (Throw e)
| keyed_Read c k cont : (forall x, keyed (cont x)) -> keyed (Read c k cont)
| keyed_Write c k v cont :
    is_none k = false -> (forall x, keyed (cont x)) ->
    keyed (Write c k v cont)
| keyed_GetAttr self name cont :
    (forall x, keyed (cont x)) -> keyed (GetAttr self name cont)
| keyed_SetAttr self name v cont :
    keyed cont -> keyed (SetAttr self name v cont)
| keyed_Uniform cont : (forall x, keyed (cont x)) -> keyed (Uniform cont)
| keyed_OnGoal s cont : keyed cont -> keyed (OnGoal s cont).

(** Overrides that, called as [read] calls them (with the one value
    read), draw from the random source and touch nothing else. *)
Definition only_rng (f : ovr -> list value -> M value) : Prop :=
  forall o x st, exists n, snd (f o [x] st) = set_rng n st.

(** What a primitive leaves of the journal's ownership. *)
Definition preserves (n0 : nat) (st st' : State) : Prop :=
  owned n0 st' /\ frame n0 st st' /\ goal_do st' = goal_do st.

(** A read, moreover, leaves the write journal itself as it was. *)
Definition preserves_ro (n0 : nat) (st st' : State) : Prop :=
  preserves n0 st st'
  /\ forall w, commit_writes st = Some w -> heap st' !! w = heap st !! w.

(** The state in which [journal] calls [func]: two fresh dicts, the write
    journal with an empty [_dictKeys] list. *)
Definition journal_enter (st : State) : State :=
  set_journals (Some (length (heap st))) (Some (S (length (heap st))))
    (set_heap (heap st ++ [ODict empty_dict; ODict (mkDict (Some []) [])]) st).

Definition journal_leave (st st' : State) : State :=
  set_journals (commit_reads st) (commit_writes st) st'.

(** ** Override resolution and commit *)

(** The keys [_dictKeys] yields for a dict. *)
Definition dict_keys (d : dictobj) : list value :=
  match dkeys d with
  | Some ks =>
      ks ++ List.filter (fun k => negb (existsb (py_eqb k) (ids_of ks)))
                   (map fst (items d))
  | None => map fst (items d)
  end.

Definition is_dict (h : list obj) (l : loc) : bool :=
  match h !! l with Some (ODict _) => true | _ => false end.

(** A container of the write-buffer [dw] (at address [w]) that [commit]
    can update: a live dict other than the buffer, buffered as a dict. *)
Definition key_ok (h : list obj) (w : loc) (dw : dictobj) (c : value)
  : bool :=
  match c with
  | VDict l =>
      negb (Nat.eqb l w) && is_dict h l
      && match dict_find dw c with
         | Some (VDict s) => is_dict h s
         | _ => false
         end
  | _ => false
  end.

(** A write-buffer into which only keyed writes to dicts went. *)
Definition committable (h : list obj) (w : loc) : bool :=
  match h !! w with
  | Some (ODict dw) => forallb (key_ok h w dw) (dict_keys dw)
  | _ => false
  end.

(** In the words of the specification (4.5): run a fresh
    [journal(computation)] [n] times, and keep the Effect Set with the
    smallest measure seen so far, the baseline included, ties keeping the
    earlier one. *)
Fixpoint resample (n : nat) (func : M value) : M (list effect) :=
  match n with
  | O => ret []
  | S n' =>
      j <- journal func ;;
      js <- resample n' func ;;
      ret (j :: js)
  end.

Definition keep_smaller (measure : value -> Z) (best j : effect) : effect :=
  if measure (e_result j) <? measure (e_result best) then j else best.

Definition pick_best (measure : value -> Z) (j0 : effect) (js : list effect)
  : effect :=
  fold_left (keep_smaller measure) js j0.

(** The state in which [goal] dispatches after the baseline run of a
    computation that registered [A] then [B] and returned [v]. *)
Definition dispatch_state (A B : strat) (v : value) (st : State) : State :=
  set_in_do true
    (set_journaled
       (Some (mkEffect v (length (heap st)) (S (length (heap st)))))
       (set_do (Some (Combine (Single A) B))
          (set_in_goal true
             (set_heap (heap st ++ [ODict empty_dict;
                                    ODict (mkDict (Some []) [])]) st)))).

(** ** Concrete overrides, strategies, heaps and computations *)

(** An override that draws the next deviate, as [Bounded._boundedRead]
    does when [v] is [None]. *)
Definition draw_override : ovr -> list value -> M value :=
  fun _ _ st => (Ok (VInt (Z.of_nat (rng st))), set_rng (S (rng st)) st).

(** The entry of the class table that the source fixes and the model can
    hold: [__slots__ = 'dict'], line 209. *)
Definition slots_attr (name : string) : option value :=
  if String.eqb name "__slots__" then Some (VStr "dict") else None.

(** A strategy of the caller that runs the next computation once. *)
Definition pass_strategy : nat -> (value -> Z) -> M value -> M value :=
  fun _ _ func => func.

(** Strategies of the caller for the examples: strategy 0 hands over to
    the next computation; any other strategy [n] answers [n] itself. *)
Definition demo_strategy : nat -> (value -> Z) -> M value -> M value :=
  fun n _ func =>
    match n with
    | O => func
    | _ => ret (VInt (Z.of_nat n))
    end.

(** [{'a': 1}] at address 0, and an instance whose [__concept__] has a
    [read] entry only at address 1. *)
Definition heap_a1 : list obj :=
  [ODict (mkDict None [(VStr "a", VInt 1)]);
   OInst (Some [(OpRead, Some O)]) []].

(** [{'a': 1}] at address 0 and [{'b': 2}] at address 1. *)
Definition heap_ab : list obj :=
  [ODict (mkDict None [(VStr "a", VInt 1)]);
   ODict (mkDict None [(VStr "b", VInt 2)])].

(** [{'a': x}] at address 0, where [x], at address 1, overrides [read]. *)
Definition heap_cap : list obj :=
  [ODict (mkDict None [(VStr "a", VObj 1)]);
   OInst (Some [(OpRead, Some O)]) []].

(** [{'a': x}] at address 0, where [x], at address 1, has an Override
    Table with an entry for [write] and none for [read]. *)
Definition heap_wo : list obj :=
  [ODict (mkDict None [(VStr "a", VObj 1)]);
   OInst (Some [(OpWrite, Some O)]) []].

(** The same storage, where [x] has an Override Table whose entry for
    [read] is [None], and where [x] has no Override Table at all. *)
Definition heap_none : list obj :=
  [ODict (mkDict None [(VStr "a", VObj 1)]);
   OInst (Some [(OpRead, None)]) []].

Definition heap_plain : list obj :=
  [ODict (mkDict None [(VStr "a", VObj 1)]);
   OInst None []].

(** A computation for the examples: draw a deviate, store it in the field
    [a] of the static storage at address 0 and return it. *)
Definition demo_comp : comp :=
  Uniform (fun z => SetAttr 0 "a" (VInt z) (Ret (VInt z))).

Definition demo_deviate (n : nat) : Z := nth n [4; 9; 2; 7] 0.

Definition demo_measure (v : value) : Z :=
  match v with VInt z => z | _ => 0 end.

Definition demo_func : M value :=
  run draw_override slots_attr demo_deviate demo_comp.

(** The state in which [goal] dispatches after the baseline run. *)
Definition demo_state : State :=
  snd ((j <- journal demo_func ;; modify (set_journaled (Some j)))
         (initial heap_a1)).

Definition demo_j0 : effect := mkEffect (VInt 4) 2 3.

Definition demo_runs : res (list effect) * State :=
  Eval vm_compute in resample 2 demo_func demo_state.

Definition demo_js : list effect :=
  match fst demo_runs with Ok js => js | Raise _ => [] end.

(** A computation that buffers a write and then fails. *)
Definition failing_comp : comp :=
  Write (VDict 0) (VStr "a") (VInt 5) (fun _ => Throw (Failure 1)).

(** The journaled computation [write(d, None, d); write(d, 'a', 9)]. *)
Definition alias_comp : comp :=
  Write (VDict 0) VNone (VDict 0)
    (fun _ => Write (VDict 0) (VStr "a") (VInt 9) (fun _ => Ret VNone)).

(** The same two writes, followed by a failure. *)
Definition failing_alias_comp : comp :=
  Write (VDict 0) VNone (VDict 0)
    (fun _ => Write (VDict 0) (VStr "a") (VInt 9)
                (fun _ => Throw (Failure 1))).

(** ** Vocabulary of the further properties *)

(** No entry of [d] sits under the integer [id(key)] of a hashable [key]
    (such an entry would be taken for [key] by [_dictGet]). *)
Definition no_id_clash (d : dictobj) (key : value) : Prop :=
  hashable key = true ->
  forall i, id_of key = Some i -> d_lookup i (items d) = None.

(** The key under which [_dictSet] files [key]: the key itself, or its
    [id] when it is unhashable. *)
Definition slot_of (key : value) : value :=
  if hashable key then key
  else match id_of key with Some i => i | None => key end.

(** [_dictGet] for [key2] looks at no entry that [_dictSet] for [key]
    writes. *)
Definition apart (key key2 : value) : Prop :=
  (forall i, id_of key2 = Some i -> py_eqb (slot_of key) i = false)
  /\ (hashable key2 = true -> py_eqb (slot_of key) key2 = false).

(** A value that is no class instance, so carries no Override Table. *)
Definition plain (x : value) : bool :=
  match x with VObj _ => false | _ => true end.

(** The write journal as [journal] creates it. *)
Definition fresh_writes : dictobj := mkDict (Some []) [].

(** [st'] differs from [st] in the heap and the random source only. *)
Definition heap_rng_only (st st' : State) : Prop :=
  exists h n, st' = set_heap h (set_rng n st).

(** Overrides that touch nothing but the heap and the random source. *)
Definition quiet_overrides (f : ovr -> list value -> M value) : Prop :=
  forall o args st, heap_rng_only st (snd (f o args st)).

(** Registering strategies one after the other, what that leaves in
    [goal.do], and the computation the first of them is then run with. *)
Fixpoint register_all (ss : list strat) : M unit :=
  match ss with
  | [] => ret tt
  | s :: rest => on_goal s ;;; register_all rest
  end.

Definition chain (s : strat) (rest : list strat) : optimizer :=
  fold_left Combine rest (Single s).

Definition nest (call_strategy : nat -> (value -> Z) -> M value -> M value)
  (measure : value -> Z) (ss : list strat) (func : M value) : M value :=
  fold_right (fun s k => apply_strat call_strategy s measure k) func ss.

(** [_dictSet(tgt, k, v)] for every pair of [ops], in order, and the dict
    that leaves behind. *)
Fixpoint set_all (tgt : value) (ops : list (value * value)) : M unit :=
  match ops with
  | [] => ret tt
  | kv :: rest => _dictSet tgt (fst kv) (snd kv) ;;; set_all tgt rest
  end.

Definition built (ops : list (value * value)) (d : dictobj) : dictobj :=
  fold_left (fun d kv => dictSet_result d (fst kv) (snd kv)) ops d.

(** The list under [_dictKeys], empty when the key is absent. *)
Definition listed (d : dictobj) : list value :=
  match dkeys d with Some ks => ks | None => [] end.

(** No two entries have equal keys. *)
Fixpoint distinct (its : list (value * value)) : Prop :=
  match its with
  | [] => True
  | (k, _) :: rest => d_mem k rest = false /\ distinct rest
  end.

(** No key is an address. *)
Definition no_id_keys (ops : list (value * value)) : Prop :=
  forall kv c, In kv ops -> fst kv <> VId c.

(** What [_dictSet] keeps of a dict that was built from [hist]. *)
Definition keys_inv (hist : list (value * value)) (d : dictobj) : Prop :=
  (forall x, In x (listed d) ->
     exists c, x = VDict c /\ In x (map fst hist)
               /\ d_mem (VId c) (items d) = true)
  /\ List.NoDup (listed d)
  /\ (forall c, In (VId c) (map fst (items d)) -> In (VDict c) (listed d))
  /\ (forall x, In x (map fst (items d)) ->
        hashable x = true
        /\ (In x (map fst hist) \/ exists c, x = VId c))
  /\ distinct (items d)
  /\ (forall k, In k (map fst hist) ->
        if hashable k then d_mem k (items d) = true else In k (listed d)).

(** * The capability classes: lines 316-388

    Instances live in the heap as [OInst]: the class attribute
    [__concept__] and the instance attributes.  Numbers are integers.
    The override functions call [read] and [write], which call the
    override functions: the recursion is cut by a depth bound, beyond
    which a call raises as Python does at its recursion limit. *)

(** [Exception('Invalid ordering of bounds on a number')], line 323. *)
Definition BoundsError : exn := Failure 0.
Definition RecursionError : exn := Failure 1.
(** [OverflowError: int too large to convert to float] *)
Definition OverflowError : exn := Failure 2.

Fixpoint attr_lookup (name : string) (attrs : list (string * value))
  : option value :=
  match attrs with
  | [] => None
  | (n, v) :: rest =>
      if String.eqb n name then Some v else attr_lookup name rest
  end.

Fixpoint attr_store (name : string) (v : value)
  (attrs : list (string * value)) : list (string * value) :=
  match attrs with
  | [] => [(name, v)]
  | (n, v') :: rest =>
      if String.eqb n name then (n, v) :: rest
      else (n, v') :: attr_store name v rest
  end.

(** [self.name] *)
Definition getattr (self : value) (name : string) : M value :=
  st <- get ;;
  match self with
  | VObj l =>
      match heap st !! l with
      | Some (OInst _ attrs) =>
          match attr_lookup name attrs with
          | Some v => ret v
          | None => raise AttributeError
          end
      | _ => raise AttributeError
      end
  | _ => raise AttributeError
  end.

(** [self.name = v], for a name the class declares. *)
Definition setattr (self : value) (name : string) (v : value) : M unit :=
  st <- get ;;
  match self with
  | VObj l =>
      match heap st !! l with
      | Some (OInst c attrs) =>
          modify (set_heap (<[l := OInst c (attr_store name v attrs)]>
                              (heap st)))
      | _ => raise AttributeError
      end
  | _ => raise AttributeError
  end.

Definition as_num (v : value) : option Z :=
  match v with
  | VInt n => Some n
  | VBool b => Some (bool_int b)
  | _ => None
  end.

(** [x < y] *)
Definition py_lt (x y : value) : M bool :=
  match as_num x, as_num y with
  | Some n, Some m => ret (n <? m)
  | _, _ =>
      match x, y with
      | VStr s, VStr t => ret (String.ltb s t)
      | _, _ => raise TypeError
      end
  end.

(** [x + y] *)
Definition py_add (x y : value) : M value :=
  match as_num x, as_num y with
  | Some n, Some m => ret (VInt (n + m))
  | _, _ =>
      match x, y with
      | VStr s, VStr t => ret (VStr (String.append s t))
      | _, _ => raise TypeError
      end
  end.

(** The truth value of [v] in a condition. *)
Definition truthy (h : list obj) (v : value) : bool :=
  match v with
  | VNone => false
  | VBool b => b
  | VInt n => negb (n =? 0)
  | VStr s => negb (String.eqb s "")
  | VDict l =>
      match h !! l with
      | Some (ODict d) =>
          match dkeys d, items d with
          | None, [] => false
          | _, _ => true
          end
      | _ => true
      end
  | VObj _ => true
  | VId _ => true
  end.

Definition truth (v : value) : M bool :=
  st <- get ;; ret (truthy (heap st) v).

(** The functions in the [__concept__] tables of the four classes. *)
Definition Bounded_boundedRead : ovr := 0%nat.
Definition Bounded_boundedWrite : ovr := 1%nat.
Definition Walk_boundedRead : ovr := 2%nat.
Definition Walk_boundedWrite : ovr := 3%nat.
Definition Prob_boundedRead : ovr := 4%nat.
Definition Prob_boundedWrite : ovr := 5%nat.
Definition If_boundedRead : ovr := 6%nat.
Definition If_boundedWrite : ovr := 7%nat.

Definition Bounded_concept : table :=
  [(OpRead, Some Bounded_boundedRead); (OpWrite, Some Bounded_boundedWrite)].
Definition Walk_concept : table :=
  [(OpRead, Some Walk_boundedRead); (OpWrite, Some Walk_boundedWrite)].
Definition Prob_concept : table :=
  [(OpRead, Some Prob_boundedRead); (OpWrite, Some Prob_boundedWrite)].
Definition If_concept : table :=
  [(OpRead, Some If_boundedRead); (OpWrite, Some If_boundedWrite)].

(** [Bounded(a, b, v)], lines 321-326: the instance exists before
    [__init__] checks the bounds. *)
Definition Bounded (a b v : value) : M value :=
  self <- alloc (OInst (Some Bounded_concept) []) ;;
  lt <- py_lt b a ;;
  if (lt : bool) then raise BoundsError
  else
    setattr (VObj self) "a" a ;;;
    setattr (VObj self) "b" b ;;;
    setattr (VObj self) "v" v ;;;
    ret (VObj self).

(** [Walk(value, delta)], lines 343-346 *)
Definition Walk (v delta : value) : M value :=
  self <- alloc (OInst (Some Walk_concept) []) ;;
  setattr (VObj self) "v" v ;;;
  setattr (VObj self) "d" delta ;;;
  ret (VObj self).

(** [Prob(p)], lines 360-361 *)
Definition Prob (p : value) : M value :=
  self <- alloc (OInst (Some Prob_concept) []) ;;
  setattr (VObj self) "p" p ;;;
  ret (VObj self).

(** [If(condition, then, Else)], lines 376-379 *)
Definition If (condition then_ Else : value) : M value :=
  self <- alloc (OInst (Some If_concept) []) ;;
  setattr (VObj self) "c" condition ;;;
  setattr (VObj self) "a" then_ ;;;
  setattr (VObj self) "b" Else ;;;
  ret (VObj self).

Section Capabilities.

(** [draw a b n]: the number [random.uniform(a, b)] returns when the
    generator is in state [n].  Numbers are integers in this model, the
    deviate too. *)
Variable draw : Z -> Z -> nat -> Z.

(** An integer that converts to a float: beyond the range of floats the
    conversion raises [OverflowError]. *)
Definition float_range (n : Z) : bool := Z.abs n <? 2 ^ 1024 - 2 ^ 970.

(** [random.uniform(a, b)], that is [a + (b - a) * random()]: the
    subtraction fails on anything but numbers before a deviate is drawn;
    once it is drawn, the product and then the sum convert their integer
    operand to a float. *)
Definition random_uniform (a b : value) : M value :=
  match as_num a, as_num b with
  | Some x, Some y =>
      fun st =>
        let st' := set_rng (S (rng st)) st in
        if float_range (y - x) && float_range x
        then (Ok (VInt (draw x y (rng st))), st')
        else (Raise OverflowError, st')
  | _, _ => raise TypeError
  end.

(** The bodies, over the [read] and [write] they call. *)
Variable rd : value -> value -> M value.
Variable wr : value -> value -> value -> M value.

(** [Bounded._boundedRead], lines 327-331 *)
Definition Bounded__boundedRead (self : value) : M value :=
  v0 <- getattr self "v" ;;
  if is_none v0 then
    a <- getattr self "a" ;;
    b <- getattr self "b" ;;
    random_uniform a b
  else
    v1 <- getattr self "v" ;;
    v <- rd v1 VNone ;;
    a <- getattr self "a" ;;
    below <- py_lt v a ;;
    if (below : bool) then getattr self "a"
    else
      b <- getattr self "b" ;;
      above <- py_lt b v ;;
      if (above : bool) then getattr self "b" else ret v.

(** [Bounded._boundedWrite], lines 332-335 *)
Definition Bounded__boundedWrite (self value_ : value) : M value :=
  v0 <- getattr self "v" ;;
  (if negb (is_none v0) then
     v1 <- getattr self "v" ;;
     r <- wr v1 VNone value_ ;;
     setattr self "v" r
   else ret tt) ;;;
  ret self.

(** [Walk._boundedRead], lines 347-348 *)
Definition Walk__boundedRead (self : value) : M value :=
  v <- getattr self "v" ;;
  x <- rd v VNone ;;
  d <- getattr self "d" ;;
  y <- rd d VNone ;;
  py_add x y.

(** [Walk._boundedWrite], lines 349-351 *)
Definition Walk__boundedWrite (self value_ : value) : M value :=
  v <- getattr self "v" ;;
  r <- wr v VNone value_ ;;
  setattr self "v" r ;;;
  ret self.

(** [Prob._boundedRead], lines 362-363 *)
Definition Prob__boundedRead (self : value) : M value :=
  u <- random_uniform (VInt 0) (VInt 1) ;;
  p <- getattr self "p" ;;
  x <- rd p VNone ;;
  lt <- py_lt u x ;;
  ret (VBool lt).

(** [Prob._boundedWrite], lines 364-367 *)
Definition Prob__boundedWrite (self value_ : value) : M value :=
  p0 <- getattr self "p" ;;
  (if negb (is_none p0) then
     p <- getattr self "p" ;;
     t <- truth value_ ;;
     r <- wr p VNone (VInt (if (t : bool) then 1 else 0)) ;;
     setattr self "p" r
   else ret tt) ;;;
  ret self.

(** [If._boundedRead], lines 380-381 *)
Definition If__boundedRead (self : value) : M value :=
  c <- getattr self "c" ;;
  cv <- rd c VNone ;;
  t <- truth cv ;;
  if (t : bool) then (a <- getattr self "a" ;; rd a VNone)
  else (b <- getattr self "b" ;; rd b VNone).

(** [If._boundedWrite], lines 382-387 *)
Definition If__boundedWrite (self value_ : value) : M value :=
  c <- getattr self "c" ;;
  cv <- rd c VNone ;;
  t <- truth cv ;;
  (if (t : bool) then
     a <- getattr self "a" ;;
     r <- wr a VNone value_ ;;
     setattr self "a" r
   else
     b <- getattr self "b" ;;
     r <- wr b VNone value_ ;;
     setattr self "b" r) ;;;
  ret self.

(** The call of an override with its arguments, for the functions
    above; anything else in a table is no function. *)
Definition cap_body (o : ovr) (args : list value) : M value :=
  match o, args with
  | 0%nat, [self] => Bounded__boundedRead self
  | 1%nat, [self; value_] => Bounded__boundedWrite self value_
  | 2%nat, [self] => Walk__boundedRead self
  | 3%nat, [self; value_] => Walk__boundedWrite self value_
  | 4%nat, [self] => Prob__boundedRead self
  | 5%nat, [self; value_] => Prob__boundedWrite self value_
  | 6%nat, [self] => If__boundedRead self
  | 7%nat, [self; value_] => If__boundedWrite self value_
  | _, _ => raise TypeError
  end.

End Capabilities.

(** The override functions at call depth at most [depth]. *)
Fixpoint cap_call (draw : Z -> Z -> nat -> Z) (depth : nat)
  : ovr -> list value -> M value :=
  match depth with
  | O => fun _ _ => raise RecursionError
  | S n =>
      cap_body draw (read (cap_call draw n)) (write (cap_call draw n))
  end.

(** [for i in range(n): last = static.name], the loop of lines 400-401
    on a storage field. *)
Fixpoint access_times (call : ovr -> list value -> M value)
  (class_attr : string -> option value) (n : nat)
  (self : loc) (name : string) (last : value) : M value :=
  match n with
  | O => ret last
  | S n' =>
      x <- swd_getattr call class_attr self name ;;
      access_times call class_attr n' self name x
  end.

(** The value [Bounded._boundedRead] makes of [v] between [a] and [b]. *)
Definition clamp (a b v : Z) : Z :=
  if v <? a then a else if b <? v then b else v.

(** ** Computations on storages that exist when the journal is opened *)

Section JournalVocabulary.
Local Open Scope nat_scope.

(** A dict that is alive in the heap [h0]. *)
Definition old_dict (h0 : list obj) (c : value) : Prop :=
  exists l, c = VDict l /\ is_dict h0 l = true.



(** [p], and then [k] on the value [p] returns. *)
Fixpoint then_ (p : comp) (k : value -> comp) : comp :=
  match p with
  | Ret v => k v
  | Throw e => Throw e
  | Read c key cont => Read c key (fun x => then_ (cont x) k)
  | Write c key v cont => Write c key v (fun x => then_ (cont x) k)
  | GetAttr self name cont => GetAttr self name (fun x => then_ (cont x) k)
  | SetAttr self name v cont => SetAttr self name v (then_ cont k)
  | Uniform cont => Uniform (fun x => then_ (cont x) k)
  | OnGoal s cont => OnGoal s (then_ cont k)
  end.

(** Items as [_dictSet] builds them: no two equal keys, every key equal
    to itself. *)
Definition clean (its : list (value * value)) : Prop :=
  distinct its /\ Forall (fun kv => py_eqb (fst kv) (fst kv) = true) its.

(** A sub-buffer of a journal opened at [h0]: a dict the journal
    allocated after its two journals. *)
Definition sub_ok (h0 h : list obj) (v : value) : Prop :=
  exists l d, v = VDict l /\ S (length h0) < l
              /\ h !! l = Some (ODict d) /\ clean (items d).

(** The state while a tame computation runs in a journal opened at [h0]:
    the read journal at [length h0], the write journal after it; the old
    heap is as it was; every entry of the two journals is a sub-buffer
    of its own; the write journal was built by [_dictSet] for dicts of
    [h0]. *)
Definition tidy (h0 : list obj) (st : State) : Prop :=
  commit_reads st = Some (length h0)
  /\ commit_writes st = Some (S (length h0))
  /\ (forall l, l < length h0 -> heap st !! l = h0 !! l)
  /\ exists dr dw hist,
       heap st !! length h0 = Some (ODict dr)
       /\ heap st !! S (length h0) = Some (ODict dw)
       /\ Forall (sub_ok h0 (heap st))
                 (map snd (items dr) ++ map snd (items dw))
       /\ List.NoDup (map snd (items dr) ++ map snd (items dw))
       /\ keys_inv hist dw
       /\ Forall (fun kv => old_dict h0 (fst kv)) hist.

(** The write-buffer holds [v] for the field [name] of [self]. *)
Definition entry (h0 : list obj) (self : loc) (name : string) (v : value)
  (st : State) : Prop :=
  exists dw sub B,
    heap st !! S (length h0) = Some (ODict dw)
    /\ dict_find dw (VDict self) = Some (VDict sub)
    /\ heap st !! sub = Some (ODict B)
    /\ d_lookup (VStr name) (items B) = Some v.

(** What a step of the computation keeps: the state tidy, and every
    entry of the write-buffer. *)
Definition keeps (h0 : list obj) (st st' : State) : Prop :=
  tidy h0 st'
  /\ forall self name v0,
       entry h0 self name v0 st -> entry h0 self name v0 st'.

End JournalVocabulary.


(** * Lemmas and theorems *)

(** ** Equations of the dict helpers *)

Lemma as_dict_lookup (h : list obj) (l : loc) (d : dictobj) :
  h !! l = Some (ODict d) -> as_dict h (VDict l) = Some (l, d).
Proof. intros H. simpl. rewrite H. reflexivity. Qed.

Lemma as_dict_inv (h : list obj) (tgt : value) (l : loc) (d : dictobj) :
  as_dict h tgt = Some (l, d) -> tgt = VDict l /\ h !! l = Some (ODict d).
Proof.
  destruct tgt; simpl; try discriminate.
  destruct (h !! l0) as [[d0|]|] eqn:E; try discriminate.
  intros [= <- <-]. auto.
Qed.

Lemma heap_set_heap (h : list obj) (st : State) : heap (set_heap h st) = h.
Proof. reflexivity. Qed.

Lemma set_heap_set_heap (h h' : list obj) (st : State) :
  set_heap h (set_heap h' st) = set_heap h st.
Proof. reflexivity. Qed.

Lemma set_heap_same (st : State) : set_heap (heap st) st = st.
Proof. destruct st; reflexivity. Qed.

(** Equations of the primitives on a dict object. *)
Section PrimitiveEquations.
Context (st : State) (l : loc) (d : dictobj).
Hypothesis Hd : heap st !! l = Some (ODict d).

Lemma put_dict_eq (d' : dictobj) :
  put_dict l d' st = (Ok tt, set_heap (<[l := ODict d']> (heap st)) st).
Proof. reflexivity. Qed.

Lemma lookup_after_put (d' : dictobj) (s : State) :
  heap (set_heap (<[l := ODict d']> (heap st)) s) !! l = Some (ODict d').
Proof.
  simpl. apply list_lookup_insert_eq. eapply lookup_lt_Some; eauto.
Qed.

Lemma setitem_dict (k v : value) :
  hashable k = true ->
  setitem (VDict l) k v st
  = (Ok tt, set_heap (<[l := ODict (mkDict (dkeys d) (d_store k v (items d)))]>
                        (heap st)) st).
Proof.
  intros Hk. unfold setitem, bind, get.
  rewrite (as_dict_lookup _ _ _ Hd), Hk. reflexivity.
Qed.

Lemma setitem_unhashable (k v : value) :
  hashable k = false -> setitem (VDict l) k v st = (Raise TypeError, st).
Proof.
  intros Hk. unfold setitem, bind, get.
  rewrite (as_dict_lookup _ _ _ Hd), Hk. reflexivity.
Qed.

Lemma getitem_dict (k : value) :
  getitem (VDict l) k st
  = (if hashable k
     then match d_lookup k (items d) with
          | Some v => Ok v
          | None => Raise KeyError
          end
     else Raise TypeError, st).
Proof.
  unfold getitem, bind, get. rewrite (as_dict_lookup _ _ _ Hd).
  destruct (hashable k); [destruct (d_lookup k (items d))|]; reflexivity.
Qed.

Lemma contains_dict (k : value) :
  contains (VDict l) k st
  = (if hashable k then Ok (d_mem k (items d)) else Raise TypeError, st).
Proof.
  unfold contains, bind, get. rewrite (as_dict_lookup _ _ _ Hd).
  destruct (hashable k); reflexivity.
Qed.

Lemma contains_id_dict (k : value) :
  contains_id (VDict l) k st
  = (Ok (match id_of k with
         | Some i => d_mem i (items d)
         | None => false
         end), st).
Proof.
  unfold contains_id, bind, get. rewrite (as_dict_lookup _ _ _ Hd).
  destruct (id_of k); reflexivity.
Qed.

Lemma has_dictKeys_dict :
  has_dictKeys (VDict l) st
  = (Ok (match dkeys d with Some _ => true | None => false end), st).
Proof.
  unfold has_dictKeys, bind, get. rewrite (as_dict_lookup _ _ _ Hd).
  reflexivity.
Qed.

Lemma init_dictKeys_dict :
  init_dictKeys (VDict l) st
  = (Ok tt, set_heap (<[l := ODict (mkDict (Some []) (items d))]> (heap st)) st).
Proof.
  unfold init_dictKeys, bind, get. rewrite (as_dict_lookup _ _ _ Hd).
  reflexivity.
Qed.

Lemma append_dictKeys_dict (k : value) (ks : list value) :
  dkeys d = Some ks ->
  append_dictKeys (VDict l) k st
  = (Ok tt, set_heap (<[l := ODict (mkDict (Some (ks ++ [k])) (items d))]>
                        (heap st)) st).
Proof.
  intros Hk. unfold append_dictKeys, bind, get.
  rewrite (as_dict_lookup _ _ _ Hd), Hk. reflexivity.
Qed.

End PrimitiveEquations.

Lemma bind_eq {A B} (m : M A) (k : A -> M B) (st : State) :
  bind m k st = match m st with
                | (Ok a, st') => k a st'
                | (Raise e, st') => (Raise e, st')
                end.
Proof. reflexivity. Qed.

Lemma bind_bind {A B C} (m : M A) (k : A -> M B) (k' : B -> M C)
  (st : State) :
  bind m (fun a => bind (k a) k') st = bind (bind m k) k' st.
Proof.
  unfold bind. destruct (m st) as [[a|e] s]; reflexivity.
Qed.

Lemma try_except_eq {A} (m : M A) (c : exn -> bool) (h : M A) (st : State) :
  try_except m c h st
  = match m st with
    | (Ok a, st') => (Ok a, st')
    | (Raise e, st') => if c e then h st' else (Raise e, st')
    end.
Proof. reflexivity. Qed.

Ltac heap_side :=
  first [ reflexivity | eassumption
        | simpl; apply list_lookup_insert_eq; rewrite ?length_insert;
          eapply lookup_lt_Some; eassumption ].

Lemma _dictSet_dict (st : State) (l : loc) (d : dictobj) (key v : value) :
  heap st !! l = Some (ODict d) ->
  _dictSet (VDict l) key v st
  = (Ok tt, set_heap (<[l := ODict (dictSet_result d key v)]> (heap st)) st).
Proof.
  intros H. unfold _dictSet, dictSet_result.
  rewrite try_except_eq.
  destruct (hashable key) eqn:Hh.
  - rewrite (setitem_dict _ _ _ H) by assumption. reflexivity.
  - rewrite (setitem_unhashable _ _ _ H) by assumption. simpl is_TypeError.
    cbv iota. rewrite bind_eq, (contains_id_dict _ _ _ H).
    destruct key; try discriminate. simpl id_of.
    unfold setitem_id. simpl id_of.
    destruct (d_mem (VId l0) (items d)) eqn:Hm; simpl negb; cbv iota.
    + rewrite bind_eq. unfold ret at 1.
      rewrite (setitem_dict _ _ _ H) by reflexivity. reflexivity.
    + rewrite !bind_eq, (has_dictKeys_dict _ _ _ H).
      destruct (dkeys d) as [ks|] eqn:Hk; simpl negb; cbv iota.
      * rewrite bind_eq. unfold ret at 1.
        rewrite (append_dictKeys_dict _ _ _ H _ _ Hk).
        erewrite setitem_dict; [|heap_side..].
        simpl. rewrite list_insert_insert_eq. reflexivity.
      * rewrite bind_eq, (init_dictKeys_dict _ _ _ H).
        erewrite append_dictKeys_dict; [|heap_side..].
        erewrite setitem_dict; [|heap_side..].
        simpl. rewrite !list_insert_insert_eq. reflexivity.
Qed.

Lemma _dictGet_dict (st : State) (l : loc) (d : dictobj) (key : value) :
  heap st !! l = Some (ODict d) ->
  _dictGet (VDict l) key st
  = (match dict_find d key with
     | Some v => Ok v
     | None => Raise KeyError
     end, st).
Proof.
  intros H. unfold _dictGet, dict_find, getitem_id.
  rewrite bind_eq, (contains_id_dict _ _ _ H).
  destruct (id_of key) as [i|] eqn:Hi.
  - unfold d_mem.
    assert (Hhi : hashable i = true) by (destruct key; inversion Hi; reflexivity).
    destruct (d_lookup i (items d)) as [v|] eqn:Hv.
    + rewrite (getitem_dict _ _ _ H), Hhi, Hv. reflexivity.
    + rewrite try_except_eq, (getitem_dict _ _ _ H).
      destruct (hashable key); [destruct (d_lookup key (items d))|]; reflexivity.
  - rewrite try_except_eq, (getitem_dict _ _ _ H).
    destruct (hashable key); [destruct (d_lookup key (items d))|]; reflexivity.
Qed.

(** On anything that is not a dict, [id(key) in dict] fails first. *)
Lemma _dictGet_not_dict (st : State) (tgt key : value) :
  as_dict (heap st) tgt = None ->
  _dictGet tgt key st = (Raise TypeError, st).
Proof.
  intros H. unfold _dictGet, contains_id.
  rewrite !bind_eq. unfold get. rewrite H. reflexivity.
Qed.

Lemma _dictGet_state (st : State) (tgt key : value) :
  snd (_dictGet tgt key st) = st.
Proof.
  destruct (as_dict (heap st) tgt) as [[l d]|] eqn:E.
  - apply as_dict_inv in E as [-> E].
    rewrite (_dictGet_dict _ _ _ _ E). reflexivity.
  - rewrite _dictGet_not_dict by assumption. reflexivity.
Qed.

Lemma _dictCreate_dict (st : State) (l : loc) (d : dictobj) (key : value) :
  heap st !! l = Some (ODict d) ->
  _dictCreate (VDict l) key st
  = match dict_find d key with
    | Some v => (Ok v, st)
    | None =>
        let n := length (heap st) in
        (Ok (VDict n),
         set_heap (<[l := ODict (dictSet_result d key (VDict n))]>
                     (heap st ++ [ODict empty_dict])) st)
    end.
Proof.
  intros H.
  assert (Hl : (l < length (heap st))%nat) by (eapply lookup_lt_Some; eauto).
  assert (Hnew : forall s : State,
             heap (set_heap (heap st ++ [ODict empty_dict]) s) !! l
             = Some (ODict d)).
  { intros s. simpl. rewrite lookup_app_l by assumption. exact H. }
  assert (Hfresh :
    (d0 <- alloc (ODict empty_dict) ;;
     _dictSet (VDict l) key (VDict d0) ;;; ret (VDict d0)) st
    = (Ok (VDict (length (heap st))),
       set_heap (<[l := ODict (dictSet_result d key (VDict (length (heap st))))]>
                   (heap st ++ [ODict empty_dict])) st)).
  { rewrite bind_eq. unfold alloc at 1. rewrite bind_eq.
    rewrite (_dictSet_dict _ _ _ _ _ (Hnew st)). reflexivity. }
  unfold _dictCreate, dict_find, getitem_id.
  rewrite bind_eq, (contains_id_dict _ _ _ H).
  destruct (id_of key) as [i|] eqn:Hi.
  - unfold d_mem.
    assert (Hhi : hashable i = true) by (destruct key; inversion Hi; reflexivity).
    destruct (d_lookup i (items d)) as [v|] eqn:Hv.
    + rewrite (getitem_dict _ _ _ H), Hhi, Hv. reflexivity.
    + rewrite bind_eq, try_except_eq, bind_eq, (contains_dict _ _ _ H).
      destruct (hashable key) eqn:Hh.
      * unfold d_mem. destruct (d_lookup key (items d)) as [v|] eqn:Hv'.
        -- rewrite bind_eq, (getitem_dict _ _ _ H), Hh, Hv'. reflexivity.
        -- unfold ret at 1. exact Hfresh.
      * simpl is_TypeError. cbv iota. unfold ret at 1. exact Hfresh.
  - rewrite bind_eq, try_except_eq, bind_eq, (contains_dict _ _ _ H).
    destruct (hashable key) eqn:Hh.
    + unfold d_mem. destruct (d_lookup key (items d)) as [v|] eqn:Hv'.
      * rewrite bind_eq, (getitem_dict _ _ _ H), Hh, Hv'. reflexivity.
      * unfold ret at 1. exact Hfresh.
    + simpl is_TypeError. cbv iota. unfold ret at 1. exact Hfresh.
Qed.

Lemma _dictCreate_not_dict (st : State) (tgt key : value) :
  as_dict (heap st) tgt = None ->
  _dictCreate tgt key st = (Raise TypeError, st).
Proof.
  intros H. unfold _dictCreate, contains_id.
  rewrite !bind_eq. unfold get. rewrite H. reflexivity.
Qed.

(** On anything that is not a dict, [_dictSet] fails and changes nothing. *)
Lemma _dictSet_not_dict (st : State) (tgt key v : value) :
  as_dict (heap st) tgt = None ->
  _dictSet tgt key v st = (Raise TypeError, st).
Proof.
  intros H. unfold _dictSet, setitem, contains_id.
  rewrite try_except_eq, !bind_eq. unfold get. rewrite H.
  unfold raise. simpl. rewrite !bind_eq. rewrite H. reflexivity.
Qed.

(** ** Ownership is kept by the primitives *)

Section Ownership.
Local Open Scope nat_scope.

Lemma frame_refl (n0 : nat) (st : State) : frame n0 st st.
Proof. repeat split; auto. Qed.

Lemma frame_trans (n0 : nat) (a b c : State) :
  frame n0 a b -> frame n0 b c -> frame n0 a c.
Proof.
  intros (H1 & H2 & H3 & H4 & H5 & H6 & H7) (G1 & G2 & G3 & G4 & G5 & G6 & G7).
  repeat split; try congruence; try lia.
  intros l Hl. rewrite G1, H1; auto.
Qed.

Lemma slot_ok_kept (n0 r w : loc) (h h' : list obj) (v : value) :
  dicts_kept h h' -> slot_ok n0 r w h v -> slot_ok n0 r w h' v.
Proof.
  intros K (l & d & -> & H1 & H2 & H3 & H4).
  destruct (K _ _ H4) as [d' Hd']. exists l, d'. auto.
Qed.

Lemma slots_ok_kept (n0 r w : loc) (h h' : list obj) its :
  dicts_kept h h' -> slots_ok n0 r w h its -> slots_ok n0 r w h' its.
Proof.
  intros K H. unfold slots_ok in *. eapply Forall_impl; [exact H|].
  intros kv. apply slot_ok_kept; assumption.
Qed.

Lemma dicts_kept_insert (h : list obj) (l : loc) (d : dictobj) :
  dicts_kept h (<[l := ODict d]> h).
Proof.
  intros l' d' H. destruct (decide (l = l')) as [->|Hne].
  - exists d. apply list_lookup_insert_eq. eapply lookup_lt_Some; eauto.
  - exists d'. rewrite list_lookup_insert_ne by assumption. exact H.
Qed.

Lemma dicts_kept_app (h ext : list obj) : dicts_kept h (h ++ ext).
Proof. intros l d H. exists d. apply lookup_app_l_Some. exact H. Qed.

Lemma dicts_kept_trans (a b c : list obj) :
  dicts_kept a b -> dicts_kept b c -> dicts_kept a c.
Proof.
  intros H1 H2 l d H. destruct (H1 _ _ H) as [d' H']. eapply H2; eauto.
Qed.

Lemma d_lookup_in (k v : value) (its : list (value * value)) :
  d_lookup k its = Some v -> exists k', In (k', v) its.
Proof.
  induction its as [|[k0 v0] its IH]; simpl; [discriminate|].
  destruct (py_eqb k0 k).
  - intros [= ->]. exists k0. auto.
  - intros H. destruct (IH H) as [k' Hk']. exists k'. auto.
Qed.

Lemma dict_find_in (d : dictobj) (key v : value) :
  dict_find d key = Some v -> exists k', In (k', v) (items d).
Proof.
  unfold dict_find.
  destruct (id_of key) as [i|].
  - destruct (d_lookup i (items d)) eqn:E.
    + intros [= ->]. eapply d_lookup_in; eauto.
    + destruct (hashable key); [|discriminate]. apply d_lookup_in.
  - destruct (hashable key); [|discriminate]. apply d_lookup_in.
Qed.

Lemma Forall_d_store (Q : value -> Prop) (k v : value) its :
  Forall (fun kv => Q (snd kv)) its -> Q v ->
  Forall (fun kv => Q (snd kv)) (d_store k v its).
Proof.
  intros H Hv. induction its as [|[k0 v0] its IH]; simpl.
  - constructor; auto.
  - inversion H; subst. destruct (py_eqb k0 k); constructor; auto.
Qed.

Lemma dictSet_result_items (Q : value -> Prop) (d : dictobj) (key v : value) :
  Forall (fun kv => Q (snd kv)) (items d) -> Q v ->
  Forall (fun kv => Q (snd kv)) (items (dictSet_result d key v)).
Proof.
  intros H Hv. unfold dictSet_result.
  destruct (hashable key); [apply Forall_d_store; auto|].
  destruct (id_of key); [apply Forall_d_store; auto|exact H].
Qed.

End Ownership.

Section OwnedSteps.
Local Open Scope nat_scope.

Lemma lookup_fresh (h : list obj) (o : obj) :
  (h ++ [o]) !! length h = Some o.
Proof. apply list_lookup_middle. reflexivity. Qed.

(** Storing under [(c, key)] in one of the two journals, as [write] and
    the caching of [read] do, touches journal-owned dicts only. *)
Lemma store_slot (n0 : nat) (st : State) (j : loc) (c key v : value) :
  owned n0 st ->
  commit_reads st = Some j \/ commit_writes st = Some j ->
  exists h',
    (d <- _dictCreate (VDict j) c ;; _dictSet d key v) st
    = (Ok tt, set_heap h' st)
    /\ owned n0 (set_heap h' st)
    /\ same_below n0 (heap st) h'
    /\ length (heap st) <= length h'
    /\ (commit_reads st = Some j ->
        forall w, commit_writes st = Some w -> h' !! w = heap st !! w).
Proof.
  intros (r & w & dr & dw & Hr & Hw & Hnr & Hnw & Hne & Hhr & Hhw & Sr & Sw) Hj.
  assert (Hrl : r < length (heap st)) by (eapply lookup_lt_Some; eauto).
  assert (Hwl : w < length (heap st)) by (eapply lookup_lt_Some; eauto).
  assert (Hj' : exists dj, heap st !! j = Some (ODict dj)
                           /\ slots_ok n0 r w (heap st) (items dj)
                           /\ (j = r \/ j = w)).
  { destruct Hj as [Hj|Hj]; rewrite Hj in *.
    - injection Hr as <-. eauto.
    - injection Hw as <-. eauto. }
  destruct Hj' as (dj & Hhj & Sj & Hjrw).
  rewrite bind_eq, (_dictCreate_dict _ _ _ _ Hhj).
  destruct (dict_find dj c) as [sv|] eqn:F.
  - apply dict_find_in in F as [k' Hin].
    unfold slots_ok in Sj. rewrite List.Forall_forall in Sj.
    destruct (Sj _ Hin) as (l & d & Hsv & Hl0 & Hlr & Hlw & Hhl).
    simpl in Hsv. subst sv.
    rewrite (_dictSet_dict _ _ _ _ _ Hhl).
    eexists. split; [reflexivity|].
    assert (K : dicts_kept (heap st)
                  (<[l:=ODict (dictSet_result d key v)]> (heap st)))
      by apply dicts_kept_insert.
    split; [|split; [|split]].
    + exists r, w, dr, dw. simpl.
      rewrite !list_lookup_insert_ne by auto.
      repeat split; auto; eapply slots_ok_kept; eauto.
    + intros l' Hl'. apply list_lookup_insert_ne. lia.
    + rewrite length_insert. lia.
    + intros _ w' Hw'. rewrite Hw in Hw'. injection Hw' as <-.
      apply list_lookup_insert_ne. auto.
  - set (n := length (heap st)).
    assert (Hjl : j < n) by (eapply lookup_lt_Some; eauto).
    set (h1 := <[j:=ODict (dictSet_result dj c (VDict n))]>
                 (heap st ++ [ODict empty_dict])).
    assert (Hn1 : h1 !! n = Some (ODict empty_dict)).
    { unfold h1. rewrite list_lookup_insert_ne by lia. apply lookup_fresh. }
    cbv zeta. fold n. fold h1. cbv beta iota.
    rewrite (_dictSet_dict (set_heap h1 st) n empty_dict key v Hn1).
    eexists. split; [reflexivity|].
    match goal with
    | |- owned _ (set_heap ?h _) /\ _ => set (h2 := h)
    end.
    assert (Hlen1 : length h1 = S n).
    { unfold h1. rewrite length_insert, length_app. simpl. lia. }
    assert (K : dicts_kept (heap st) h2).
    { eapply dicts_kept_trans; [apply dicts_kept_app|].
      eapply dicts_kept_trans; apply dicts_kept_insert. }
    assert (Hold : forall l, l < n -> l <> j -> h2 !! l = heap st !! l).
    { intros l Hl Hlj. unfold h2, h1. simpl.
      rewrite !list_lookup_insert_ne by lia. apply lookup_app_l. exact Hl. }
    assert (Hnew : h2 !! j
                   = Some (ODict (dictSet_result dj c (VDict n)))).
    { unfold h2. simpl. rewrite list_lookup_insert_ne by lia.
      unfold h1. apply list_lookup_insert_eq. rewrite length_app. simpl. lia. }
    assert (Hslot : slot_ok n0 r w h2 (VDict n)).
    { exists n, (dictSet_result empty_dict key v).
      repeat split; try lia.
      unfold h2. simpl. apply list_lookup_insert_eq. lia. }
    assert (Sj' : slots_ok n0 r w h2
                    (items (dictSet_result dj c (VDict n)))).
    { apply dictSet_result_items with (Q := slot_ok n0 r w h2); auto.
      eapply slots_ok_kept; eauto. }
    split; [|split; [|split]].
    + destruct Hjrw as [->| ->].
      * exists r, w, (dictSet_result dj c (VDict n)), dw.
        change (heap (set_heap h2 st)) with h2.
        rewrite (Hold w) by lia.
        repeat split; auto; try exact Hr; try exact Hw.
        eapply slots_ok_kept; eauto.
      * exists r, w, dr, (dictSet_result dj c (VDict n)).
        change (heap (set_heap h2 st)) with h2.
        rewrite (Hold r) by lia.
        repeat split; auto; try exact Hr; try exact Hw.
        eapply slots_ok_kept; eauto.
    + intros l Hl. apply Hold; lia.
    + unfold h2. rewrite length_insert. simpl. lia.
    + intros Hjr w' Hw'. rewrite Hw in Hw'. injection Hw' as <-.
      rewrite Hr in Hjr. injection Hjr as <-.
      apply Hold; [lia|auto].
Qed.

End OwnedSteps.

Section OwnedRun.
Local Open Scope nat_scope.

Variable call_override : ovr -> list value -> M value.
Variable class_attr : string -> option value.
Variable deviate : nat -> Z.

Hypothesis override_only_rng : only_rng call_override.

Lemma owned_set_rng (n0 n : nat) (st : State) :
  owned n0 st -> owned n0 (set_rng n st).
Proof. intros H. exact H. Qed.

Lemma frame_set_rng (n0 n : nat) (st : State) : frame n0 st (set_rng n st).
Proof. repeat split; auto. Qed.

Lemma frame_set_heap (n0 : nat) (h' : list obj) (st : State) :
  same_below n0 (heap st) h' -> length (heap st) <= length h' ->
  frame n0 st (set_heap h' st).
Proof. intros H1 H2. repeat split; auto. Qed.

Lemma getitem_state (tgt k : value) (st : State) :
  snd (getitem tgt k st) = st.
Proof.
  unfold getitem. rewrite bind_eq. unfold get.
  destruct tgt; try reflexivity.
  - destruct k; try reflexivity.
  - destruct (as_dict (heap st) (VDict l)) as [[l' d]|]; [|reflexivity].
    destruct (hashable k); [|reflexivity].
    destruct (d_lookup k (items d)); reflexivity.
Qed.

Lemma concept_entry_state (data : value) (code : op) (st : State) :
  snd (concept_entry data code st) = st.
Proof.
  unfold concept_entry. rewrite bind_eq. unfold get.
  destruct (concept_of (heap st) data) as [t|]; [|reflexivity].
  destruct (table_lookup code t); reflexivity.
Qed.

Lemma checkOverride_state (data : value) (code : op) (x : value)
  (st : State) :
  exists n, snd (__checkOverride call_override data code [x] st)
            = set_rng n st.
Proof.
  unfold __checkOverride. rewrite bind_eq, try_except_eq, bind_eq.
  pose proof (concept_entry_state data code st) as Hs.
  destruct (concept_entry data code st) as [[o|e] s]; simpl in Hs; subst s.
  - unfold ret at 1. cbv beta iota.
    destruct o as [f|].
    + apply override_only_rng.
    + exists (rng st). destruct st; reflexivity.
  - exists (rng st).
    destruct (is_AttributeError e); destruct st; reflexivity.
Qed.

Lemma journal_lookup_state (j : loc) (dict key : value) (st : State) :
  snd (journal_lookup j dict key st) = st.
Proof.
  unfold journal_lookup. destruct (is_none key).
  - apply _dictGet_state.
  - rewrite bind_eq.
    pose proof (_dictGet_state st (VDict j) dict) as H1.
    destruct (_dictGet (VDict j) dict st) as [[d|e] s]; simpl in H1; subst s.
    + apply _dictGet_state.
    + reflexivity.
Qed.

Lemma preserves_refl (n0 : nat) (st : State) :
  owned n0 st -> preserves n0 st st.
Proof. intros H. split; [exact H|]. split; [apply frame_refl|reflexivity]. Qed.

Lemma preserves_trans (n0 : nat) (a b c : State) :
  preserves n0 a b -> preserves n0 b c -> preserves n0 a c.
Proof.
  intros (_ & F1 & D1) (O2 & F2 & D2).
  split; [exact O2|]. split; [eapply frame_trans; eauto|congruence].
Qed.

Lemma preserves_ro_refl (n0 : nat) (st : State) :
  owned n0 st -> preserves_ro n0 st st.
Proof. intros H. split; [apply preserves_refl; exact H|auto]. Qed.

Lemma preserves_ro_trans (n0 : nat) (a b c : State) :
  preserves_ro n0 a b -> preserves_ro n0 b c -> preserves_ro n0 a c.
Proof.
  intros [P1 K1] [P2 K2]. split; [eapply preserves_trans; eauto|].
  intros w Hw. rewrite K2, K1; auto.
  destruct P1 as (_ & (_ & _ & _ & E & _) & _). congruence.
Qed.

Lemma read_storage_owned (n0 : nat) (st : State) (dict key : value) :
  owned n0 st ->
  preserves_ro n0 st (snd (read_storage call_override dict key st)).
Proof.
  intros Ho. unfold read_storage.
  rewrite try_except_eq, bind_eq.
  pose proof (getitem_state dict key st) as Hg.
  assert (Hv : exists r, (if negb (is_none key) then getitem dict key
                          else ret dict) st = (r, st)).
  { destruct (is_none key); simpl.
    - eexists; reflexivity.
    - destruct (getitem dict key st) as [r s]. simpl in Hg. subst s. eauto. }
  destruct Hv as [[v|e] Hv]; rewrite Hv.
  2: { destruct (is_KeyError e); apply preserves_ro_refl; exact Ho. }
  rewrite bind_eq.
  destruct (checkOverride_state v OpRead v st) as [n Hn].
  assert (P : preserves_ro n0 st (set_rng n st)).
  { split; [|auto]. split; [exact Ho|].
    split; [apply frame_set_rng|reflexivity]. }
  destruct (__checkOverride call_override v OpRead [v] st) as [[result|e] s].
  2: { simpl in Hn. subst s. destruct (is_KeyError e); exact P. }
  simpl in Hn. subst s.
  destruct (is_none result); cbn [negb]; cbv iota.
  { exact P. }
  rewrite !bind_eq. unfold get at 1. cbv beta iota.
  destruct (commit_reads (set_rng n st)) as [r|] eqn:Hr.
  2: { exact P. }
  destruct (is_none key) eqn:Hk; cbn [negb]; cbv iota.
  { exact P. }
  destruct (store_slot n0 (set_rng n st) r dict key result Ho (or_introl Hr))
    as (h' & Heq & Ho' & Hb & Hlen & Hkeep).
  rewrite bind_eq, Heq. simpl.
  eapply preserves_ro_trans; [exact P|].
  split.
  - split; [exact Ho'|].
    split; [apply frame_set_heap; assumption|reflexivity].
  - intros w Hw. apply Hkeep; assumption.
Qed.

Lemma try_journal_owned (n0 : nat) (st : State) (j : option loc)
  (dict key : value) (rest : M value) :
  owned n0 st ->
  preserves_ro n0 st (snd (rest st)) ->
  preserves_ro n0 st (snd (try_journal j dict key rest st)).
Proof.
  intros Ho Hrest. unfold try_journal. destruct j as [l|]; [|exact Hrest].
  rewrite try_except_eq.
  pose proof (journal_lookup_state l dict key st) as Hs.
  destruct (journal_lookup l dict key st) as [[v|e] s]; simpl in Hs; subst s.
  - apply preserves_ro_refl. exact Ho.
  - destruct (is_KeyError e); [exact Hrest|apply preserves_ro_refl; exact Ho].
Qed.

Lemma read_owned_ro (n0 : nat) (st : State) (dict key : value) :
  owned n0 st ->
  preserves_ro n0 st (snd (read call_override dict key st)).
Proof.
  intros Ho. unfold read. rewrite bind_eq. unfold get at 1. cbv beta iota.
  apply try_journal_owned; [exact Ho|].
  rewrite bind_eq. unfold get at 1. cbv beta iota.
  apply try_journal_owned; [exact Ho|].
  apply read_storage_owned. exact Ho.
Qed.

Lemma read_owned (n0 : nat) (st : State) (dict key : value) :
  owned n0 st ->
  preserves n0 st (snd (read call_override dict key st)).
Proof. intros Ho. apply read_owned_ro. exact Ho. Qed.

(** A keyed write inside the journal returns [None] and stays inside. *)
Lemma write_owned_heap (n0 : nat) (st : State) (dict key new : value) :
  owned n0 st -> is_none key = false ->
  exists h', write call_override dict key new st = (Ok VNone, set_heap h' st)
             /\ owned n0 (set_heap h' st)
             /\ same_below n0 (heap st) h'
             /\ length (heap st) <= length h'.
Proof.
  intros Ho Hk.
  pose proof Ho as (r & w & dr & dw & Hr & Hw & _).
  destruct (store_slot n0 st w dict key new Ho (or_intror Hw))
    as (h' & Heq & Ho' & Hb & Hlen & _).
  exists h'. split; [|auto].
  unfold write. rewrite bind_eq. unfold get at 1. cbv beta iota.
  rewrite Hw, Hk, bind_bind, bind_eq, Heq. reflexivity.
Qed.

Lemma write_owned (n0 : nat) (st : State) (dict key new : value) :
  owned n0 st -> is_none key = false ->
  exists st', write call_override dict key new st = (Ok VNone, st')
              /\ preserves n0 st st'.
Proof.
  intros Ho Hk.
  destruct (write_owned_heap n0 st dict key new Ho Hk)
    as (h' & Heq & Ho' & Hb & Hlen).
  exists (set_heap h' st). split; [exact Heq|].
  split; [exact Ho'|]. split; [apply frame_set_heap; assumption|reflexivity].
Qed.

Lemma swd_getattr_owned (n0 : nat) (st : State) (self : loc) (key : string) :
  owned n0 st ->
  preserves n0 st (snd (swd_getattr call_override class_attr self key st)).
Proof.
  intros Ho. unfold swd_getattr.
  destruct (String.eqb key "dict"); [apply preserves_refl; exact Ho|].
  destruct (class_attr key); [apply preserves_refl; exact Ho|].
  unfold __getattr__. rewrite bind_eq.
  pose proof (read_owned n0 st (VDict self) (VStr key) Ho) as P.
  destruct (read call_override (VDict self) (VStr key) st) as [[v|e] s];
    simpl in P; [|exact P].
  destruct P as (Ho1 & P1).
  destruct (write_owned n0 s (VDict self) (VStr key) v Ho1 eq_refl)
    as (s2 & Hw2 & P2).
  rewrite bind_eq, Hw2. simpl.
  eapply preserves_trans; [split; [exact Ho1|exact P1]|exact P2].
Qed.

Lemma swd_setattr_owned (n0 : nat) (st : State) (self : loc) (key : string)
  (v : value) :
  owned n0 st ->
  exists st', swd_setattr call_override self key v st = (Ok tt, st')
              /\ preserves n0 st st'.
Proof.
  intros Ho. unfold swd_setattr.
  destruct (write_owned n0 st (VDict self) (VStr key) v Ho eq_refl)
    as (s2 & Hw2 & P2).
  exists s2. rewrite bind_eq, Hw2. auto.
Qed.

Lemma on_goal_owned (n0 : nat) (st : State) (s : strat) :
  owned n0 st ->
  exists st', on_goal s st = (Ok tt, st')
              /\ owned n0 st' /\ frame n0 st st'.
Proof.
  intros Ho. unfold on_goal. rewrite bind_eq. unfold get at 1. cbv beta iota.
  destruct (goal_in_goal st); cbn [negb]; cbv iota.
  2: { exists st. repeat split; auto. }
  destruct (goal_in_do st).
  { exists st. repeat split; auto. }
  destruct (goal_do st); eexists; (split; [reflexivity|]);
    (split; [exact Ho|repeat split; auto]).
Qed.

(** Running a keyed computation inside a journal leaves everything below
    the journal's allocations as it was. *)
Lemma run_owned (n0 : nat) (p : comp) :
  keyed p ->
  forall st, owned n0 st ->
    owned n0 (snd (run call_override class_attr deviate p st))
    /\ frame n0 st (snd (run call_override class_attr deviate p st)).
Proof.
  induction 1 as [v|e|c k cont Hc IH|c k v cont Hk Hc IH|self name cont Hc IH
                  |self name v cont Hc IH|cont Hc IH|s cont Hc IH];
    intros st Ho; simpl run.
  - split; [exact Ho|apply frame_refl].
  - split; [exact Ho|apply frame_refl].
  - rewrite bind_eq.
    pose proof (read_owned n0 st c k Ho) as (Ho1 & F1 & _).
    destruct (read call_override c k st) as [[x|e] s]; simpl in Ho1, F1.
    + destruct (IH x s Ho1) as [Ho2 F2].
      split; [exact Ho2|eapply frame_trans; eauto].
    + split; assumption.
  - rewrite bind_eq.
    destruct (write_owned n0 st c k v Ho Hk) as (s & Hw & Ho1 & F1 & _).
    rewrite Hw.
    destruct (IH VNone s Ho1) as [Ho2 F2].
    split; [exact Ho2|eapply frame_trans; eauto].
  - rewrite bind_eq.
    pose proof (swd_getattr_owned n0 st self name Ho) as (Ho1 & F1 & _).
    destruct (swd_getattr call_override class_attr self name st) as [[x|e] s];
      simpl in Ho1, F1.
    + destruct (IH x s Ho1) as [Ho2 F2].
      split; [exact Ho2|eapply frame_trans; eauto].
    + split; assumption.
  - rewrite bind_eq.
    destruct (swd_setattr_owned n0 st self name v Ho) as (s & Hw & Ho1 & F1 & _).
    rewrite Hw.
    destruct (IH s Ho1) as [Ho2 F2].
    split; [exact Ho2|eapply frame_trans; eauto].
  - rewrite bind_eq. unfold uniform at 1. cbv beta iota.
    destruct (IH (deviate (rng st)) (set_rng (S (rng st)) st) Ho) as [Ho2 F2].
    split; [exact Ho2|].
    eapply frame_trans; [apply frame_set_rng|exact F2].
  - rewrite bind_eq.
    destruct (on_goal_owned n0 st s Ho) as (s' & Hg & Ho1 & F1).
    rewrite Hg.
    destruct (IH s' Ho1) as [Ho2 F2].
    split; [exact Ho2|eapply frame_trans; eauto].
Qed.

End OwnedRun.

(** ** Entering and leaving a journal *)

Section JournalShape.
Local Open Scope nat_scope.

Lemma insert_fresh_pair (h : list obj) (a b c : obj) :
  <[S (length h) := c]> ((h ++ [a]) ++ [b]) = h ++ [a; c].
Proof.
  rewrite <- app_assoc. simpl.
  replace (S (length h)) with (length h + 1) by lia.
  rewrite insert_app_r. reflexivity.
Qed.

Lemma journal_eq (func : M value) (st : State) :
  journal func st
  = match func (journal_enter st) with
    | (Ok result, st') =>
        (Ok (mkEffect result (length (heap st)) (S (length (heap st)))),
         journal_leave st st')
    | (Raise e, st') => (Raise e, st')
    end.
Proof.
  unfold journal.
  rewrite bind_eq. unfold get at 1. cbv beta iota.
  rewrite bind_eq. unfold alloc at 1. cbv beta iota.
  rewrite bind_eq. unfold modify at 1. cbv beta iota.
  rewrite bind_eq. unfold alloc at 1. cbv beta iota.
  rewrite bind_eq. unfold modify at 1. cbv beta iota.
  rewrite bind_eq.
  erewrite init_dictKeys_dict.
  2: { simpl. rewrite length_app. simpl.
       replace (length (heap st) + 1) with (S (length (heap st))) by lia.
       replace (S (length (heap st)))
         with (length (heap st ++ [ODict empty_dict]))
         by (rewrite length_app; simpl; lia).
       apply lookup_fresh. }
  rewrite bind_eq.
  match goal with
  | |- context [func ?s] => replace s with (journal_enter st)
  end.
  2: { unfold journal_enter, set_journals, set_heap. simpl.
       rewrite length_app. simpl.
       replace (length (heap st) + 1) with (S (length (heap st))) by lia.
       rewrite insert_fresh_pair. reflexivity. }
  destruct (func (journal_enter st)) as [[result|e] st']; [|reflexivity].
  rewrite bind_eq. unfold modify at 1. cbv beta iota.
  unfold ret. simpl. rewrite length_app. simpl.
  replace (length (heap st) + 1) with (S (length (heap st))) by lia.
  reflexivity.
Qed.

Lemma journal_enter_owned (st : State) :
  owned (length (heap st)) (journal_enter st).
Proof.
  exists (length (heap st)), (S (length (heap st))),
         empty_dict, (mkDict (Some []) []).
  simpl. repeat split; try lia; try constructor.
  - apply list_lookup_middle. reflexivity.
  - replace (heap st ++ [ODict empty_dict; ODict (mkDict (Some []) [])])
      with ((heap st ++ [ODict empty_dict]) ++ [ODict (mkDict (Some []) [])])
      by (rewrite <- app_assoc; reflexivity).
    apply list_lookup_middle. rewrite length_app. simpl. lia.
Qed.

Lemma same_below_app (h h' : list obj) :
  same_below (length h) h h' -> length h <= length h' ->
  exists ext, h' = h ++ ext.
Proof.
  intros Hs Hl. exists (drop (length h) h').
  rewrite <- (take_drop (length h) h') at 1. f_equal.
  apply list_eq. intros i.
  destruct (decide (i < length h)) as [Hi|Hi].
  - rewrite lookup_take_lt by assumption. apply Hs. exact Hi.
  - rewrite lookup_take_ge by lia. symmetry. apply lookup_ge_None. lia.
Qed.

Lemma frame_enter (st : State) :
  same_below (length (heap st)) (heap st) (heap (journal_enter st))
  /\ length (heap st) <= length (heap (journal_enter st)).
Proof.
  simpl. split.
  - intros l Hl. apply lookup_app_l. exact Hl.
  - rewrite length_app. lia.
Qed.

End JournalShape.

(** ** Buffering isolation *)

Section Isolation.
Local Open Scope nat_scope.

Variable call_override : ovr -> list value -> M value.
Variable class_attr : string -> option value.
Variable deviate : nat -> Z.

Lemma journal_leave_set_heap (h : list obj) (st : State) :
  journal_leave st (set_heap h (journal_enter st)) = set_heap h st.
Proof. reflexivity. Qed.

Lemma below_enter (st : State) (h' : list obj) :
  same_below (length (heap st)) (heap (journal_enter st)) h' ->
  length (heap (journal_enter st)) <= length h' ->
  exists ext, h' = heap st ++ ext.
Proof.
  intros Hs Hl. destruct (frame_enter st) as [Hs0 Hl0].
  apply same_below_app; [|lia].
  intros l Hlt. rewrite Hs, Hs0; auto.
Qed.

(** Isolation of one write.  For every container [c], key [k] (also
    [None]) and value [v]: a computation that performs [write(c, k, v)],
    called through [journal], returns normally, and the state it leaves is
    the state before the call with the journal's own fresh objects
    appended to the heap: every object that existed before, hence
    everything a direct read of [(c, k)] consults, is unchanged, and the
    Transaction Context is the one that was active before. *)
Lemma journal_write_isolated (st : State) (c k v : value) :
  exists ext,
    journal (write call_override c k v) st
    = (Ok (mkEffect VNone (length (heap st)) (S (length (heap st)))),
       set_heap (heap st ++ ext) st).
Proof.
  rewrite journal_eq.
  destruct (is_none k) eqn:Hk.
  - unfold write. rewrite bind_eq. unfold get at 1. cbv beta iota.
    cbn [commit_writes journal_enter set_journals]. rewrite Hk.
    rewrite bind_eq.
    erewrite _dictSet_dict.
    2: { cbn [heap journal_enter set_journals set_heap].
         replace (heap st ++ [ODict empty_dict; ODict (mkDict (Some []) [])])
           with ((heap st ++ [ODict empty_dict])
                 ++ [ODict (mkDict (Some []) [])])
           by (rewrite <- app_assoc; reflexivity).
         apply list_lookup_middle. rewrite length_app. simpl. lia. }
    unfold ret. cbv beta iota.
    eexists. rewrite journal_leave_set_heap. f_equal. f_equal.
    cbn [heap journal_enter set_journals set_heap].
    replace (S (length (heap st))) with (length (heap st) + 1) by lia.
    rewrite insert_app_r. reflexivity.
  - destruct (write_owned_heap call_override (length (heap st))
                (journal_enter st) c k v (journal_enter_owned st) Hk)
      as (h' & Hw & _ & Hb & Hlen).
    rewrite Hw.
    destruct (below_enter st h' Hb Hlen) as [ext ->].
    exists ext. rewrite journal_leave_set_heap. reflexivity.
Qed.

(** Isolation for any keyed computation: what [journal] leaves of the old
    heap, whether the computation returns or fails. *)
Lemma journal_run_isolated (p : comp) (st : State) :
  only_rng call_override -> keyed p ->
  exists ext,
    heap (snd (journal (run call_override class_attr deviate p) st)) = heap st ++ ext.
Proof.
  intros Hov Hp. rewrite journal_eq.
  destruct (run_owned call_override class_attr deviate Hov (length (heap st)) p Hp
              (journal_enter st) (journal_enter_owned st)) as [_ F].
  destruct F as (Hb & Hlen & _).
  destruct (run call_override class_attr deviate p (journal_enter st)) as [[v|e] s];
    simpl in Hb, Hlen |- *; eapply below_enter; eauto.
Qed.

(** When a computation whose writes are all keyed fails inside
    [journal], the failure reaches the caller and every object of the
    heap that existed before the call is unaltered. *)
Lemma journal_failure_commits_nothing (p : comp) (st s : State) (e : exn) :
  only_rng call_override -> keyed p ->
  run call_override class_attr deviate p (journal_enter st) = (Raise e, s) ->
  journal (run call_override class_attr deviate p) st = (Raise e, s)
  /\ exists ext, heap s = heap st ++ ext.
Proof.
  intros Hov Hp Hrun. split.
  - rewrite journal_eq, Hrun. reflexivity.
  - destruct (journal_run_isolated p st Hov Hp) as [ext Hext].
    rewrite journal_eq, Hrun in Hext. exists ext. exact Hext.
Qed.

End Isolation.

(** ** Saving and restoring the module state *)

Section Restore.

Variable call_strategy : nat -> (value -> Z) -> M value -> M value.

Lemma _dictKeys_state (dict : value) (st : State) :
  snd (_dictKeys dict st) = st.
Proof.
  unfold _dictKeys. rewrite bind_eq. unfold get.
  destruct (as_dict (heap st) dict) as [[l d]|]; [|reflexivity].
  destruct (dkeys d); reflexivity.
Qed.

Lemma commit_loop_heap (w : value) (ks : list value) (st : State) :
  exists h, snd (commit_loop w ks st) = set_heap h st.
Proof.
  revert st. induction ks as [|k ks IH]; intros st; simpl commit_loop.
  - exists (heap st). symmetry. apply set_heap_same.
  - rewrite bind_eq. unfold has_update at 1. rewrite bind_eq. unfold get at 1.
    cbv beta iota.
    destruct (as_dict (heap st) k) as [[l d]|] eqn:Hk.
    2: { exists (heap st). symmetry. apply set_heap_same. }
    unfold ret at 1. cbv beta iota. rewrite bind_eq.
    pose proof (_dictGet_state st w k) as Hg.
    destruct (_dictGet w k st) as [[arg|e] s]; simpl in Hg; subst s.
    2: { exists (heap st). symmetry. apply set_heap_same. }
    rewrite bind_eq. unfold call_update at 1.
    rewrite bind_eq. unfold get at 1. cbv beta iota. rewrite Hk.
    assert (Hsame : exists h0, st = set_heap h0 st)
      by (exists (heap st); symmetry; apply set_heap_same).
    destruct arg as [|b|z|t|i|l0|l0];
      try (destruct Hsame as [h0 E]; exists h0; exact E).
    + destruct t as [|a t']; [|destruct Hsame as [h0 E]; exists h0; exact E].
      unfold ret at 1. cbv beta iota.
      destruct (IH st) as [h Hh]. exists h. exact Hh.
    + destruct (as_dict (heap st) (VDict l0)) as [[l1 src]|].
      2: { destruct Hsame as [h0 E]; exists h0; exact E. }
      rewrite put_dict_eq.
      destruct (IH (set_heap (<[l:=ODict (d_update d src)]> (heap st)) st))
        as [h Hh].
      exists h. rewrite Hh. reflexivity.
Qed.

(** [commit] changes nothing but the heap. *)
Lemma commit_heap (j : effect) (dont : bool) (st : State) :
  exists h, snd (commit j dont st) = set_heap h st.
Proof.
  unfold commit. rewrite bind_eq.
  destruct dont; cbn [negb]; cbv iota.
  - exists (heap st). unfold ret. simpl. symmetry. apply set_heap_same.
  - rewrite bind_eq.
    pose proof (_dictKeys_state (VDict (e_writes j)) st) as Hk.
    destruct (_dictKeys (VDict (e_writes j)) st) as [[ks|e] s];
      simpl in Hk; subst s.
    2: { exists (heap st). simpl. symmetry. apply set_heap_same. }
    destruct (commit_loop_heap (VDict (e_writes j)) ks st) as [h Hh].
    destruct (commit_loop (VDict (e_writes j)) ks st) as [[[]|e] s];
      simpl in Hh; subst s; exists h; reflexivity.
Qed.

(** The result of [commit] is the result of the Effect Set. *)
Lemma commit_result (j : effect) (dont : bool) (st st' : State) (v : value) :
  commit j dont st = (Ok v, st') -> v = e_result j.
Proof.
  unfold commit. rewrite bind_eq.
  destruct ((if negb dont
             then ks <- _dictKeys (VDict (e_writes j)) ;;
                  commit_loop (VDict (e_writes j)) ks
             else ret tt) st) as [[[]|e] s].
  - unfold ret. intros [= <- _]. reflexivity.
  - discriminate.
Qed.

Lemma commit_dont (j : effect) (st : State) :
  commit j true st = (Ok (e_result j), st).
Proof. reflexivity. Qed.

Lemma goal_eq (measure : value -> Z) (func : M value) (st : State) :
  goal call_strategy measure func st
  = match journal func (set_in_goal true (set_do None st)) with
    | (Raise e, s) => (Raise e, s)
    | (Ok j, s) =>
        let st1 := set_journaled (Some j) s in
        match goal_do st1 with
        | Some do_ =>
            match apply_optimizer call_strategy do_ measure func
                    (set_in_do true st1) with
            | (Ok result, s4) =>
                (Ok result,
                 set_in_goal (goal_in_goal st)
                   (set_do (goal_do st) (set_in_do (goal_in_do st1) s4)))
            | (Raise e, s4) => (Raise e, s4)
            end
        | None =>
            commit j false
              (set_in_goal (goal_in_goal st) (set_do (goal_do st) st1))
        end
    end.
Proof.
  unfold goal. rewrite bind_eq. unfold get at 1. cbv beta iota.
  rewrite bind_eq. unfold modify at 1. cbv beta iota.
  rewrite bind_eq.
  destruct (journal func (set_in_goal true (set_do None st))) as [[j|e] s];
    [|reflexivity].
  rewrite bind_eq. unfold modify at 1. cbv beta iota.
  rewrite bind_eq. unfold get at 1. cbv beta iota. cbv zeta.
  destruct (goal_do (set_journaled (Some j) s)) as [do_|] eqn:Hdo.
  - rewrite bind_eq. unfold modify at 1. cbv beta iota. rewrite bind_eq.
    destruct (apply_optimizer call_strategy do_ measure func
                (set_in_do true (set_journaled (Some j) s)))
      as [[result|e] s4]; reflexivity.
  - rewrite bind_eq. unfold modify at 1. cbv beta iota.
    rewrite bind_eq. unfold get at 1. cbv beta iota. reflexivity.
Qed.

(** C3, as amended.  [journal] puts back the Transaction Context, and
    [goal] puts back [goal.do] and [goal.in_goal] (and gives [goal.in_do]
    the value it had when the baseline run ended), whenever they return
    normally.  [goal.journaled] is not saved: when a goal without a
    registered optimizer has returned, it holds the Effect Set of that
    goal.  When the wrapped computation or the optimizer raises, no
    restoration runs: the failure propagates and the state is the one
    the computation failed in, entered through the fresh Transaction
    Context and Goal Frame. *)
Theorem journal_goal_restore_on_return :
  (forall (func : M value) (st st' : State) (j : effect),
      journal func st = (Ok j, st') ->
      commit_reads st' = commit_reads st
      /\ commit_writes st' = commit_writes st)
  /\ (forall (func : M value) (st s : State) (e : exn),
         func (journal_enter st) = (Raise e, s) ->
         journal func st = (Raise e, s))
  /\ (forall (measure : value -> Z) (func : M value) (st st' : State)
             (v : value),
         goal call_strategy measure func st = (Ok v, st') ->
         goal_do st' = goal_do st
         /\ goal_in_goal st' = goal_in_goal st
         /\ goal_in_do st'
            = goal_in_do
                (snd (journal func (set_in_goal true (set_do None st)))))
  /\ (forall (measure : value -> Z) (func : M value) (st st' s : State)
             (v : value) (j : effect),
         journal func (set_in_goal true (set_do None st)) = (Ok j, s) ->
         goal_do s = None ->
         goal call_strategy measure func st = (Ok v, st') ->
         goal_journaled st' = Some j)
  /\ (forall (measure : value -> Z) (func : M value) (st s : State)
             (e : exn),
         journal func (set_in_goal true (set_do None st)) = (Raise e, s) ->
         goal call_strategy measure func st = (Raise e, s))
  /\ (forall (measure : value -> Z) (func : M value) (st s s4 : State)
             (j : effect) (do_ : optimizer) (e : exn),
         journal func (set_in_goal true (set_do None st)) = (Ok j, s) ->
         goal_do s = Some do_ ->
         apply_optimizer call_strategy do_ measure func
           (set_in_do true (set_journaled (Some j) s)) = (Raise e, s4) ->
         goal call_strategy measure func st = (Raise e, s4)).
Proof.
  repeat apply conj.
  - intros func st st' j. rewrite journal_eq.
    destruct (func (journal_enter st)) as [[r|e] s]; [|discriminate].
    intros [= _ <-]. split; reflexivity.
  - intros func st s e H. rewrite journal_eq, H. reflexivity.
  - intros measure func st st' v. rewrite goal_eq.
    destruct (journal func (set_in_goal true (set_do None st))) as [[j|e] s];
      [|discriminate].
    cbv zeta. destruct (goal_do (set_journaled (Some j) s)) as [do_|].
    + destruct (apply_optimizer call_strategy do_ measure func
                  (set_in_do true (set_journaled (Some j) s)))
        as [[result|e] s4]; [|discriminate].
      intros [= _ <-]. repeat split.
    + destruct (commit_heap j false
                  (set_in_goal (goal_in_goal st)
                     (set_do (goal_do st) (set_journaled (Some j) s))))
        as [h Hh].
      intros Hc. rewrite Hc in Hh. simpl in Hh. subst st'. repeat split.
  - intros measure func st st' s v j Hj Hdo. rewrite goal_eq, Hj. cbv zeta.
    change (goal_do (set_journaled (Some j) s)) with (goal_do s).
    rewrite Hdo.
    destruct (commit_heap j false
                (set_in_goal (goal_in_goal st)
                   (set_do (goal_do st) (set_journaled (Some j) s))))
      as [h Hh].
    intros Hc. rewrite Hc in Hh. simpl in Hh. subst st'. reflexivity.
  - intros measure func st s e Hj. rewrite goal_eq, Hj. reflexivity.
  - intros measure func st s s4 j do_ e Hj Hdo Hopt.
    rewrite goal_eq, Hj. cbv zeta.
    change (goal_do (set_journaled (Some j) s)) with (goal_do s).
    rewrite Hdo, Hopt. reflexivity.
Qed.

End Restore.

(** ** The example override *)

Lemma only_rng_draw : only_rng draw_override.
Proof. intros o args st. exists (S (rng st)). reflexivity. Qed.

(** ** What [write] returns inside a journal *)

Lemma write_buffered_result (call_override : ovr -> list value -> M value)
  (st st' : State) (w : loc) (c k v r : value) :
  commit_writes st = Some w ->
  write call_override c k v st = (Ok r, st') -> r = VNone.
Proof.
  intros Hw. unfold write. rewrite bind_eq. unfold get at 1. cbv beta iota.
  rewrite Hw. destruct (is_none k).
  - rewrite bind_eq. destruct (_dictSet (VDict w) c v st) as [[[]|e] s].
    + unfold ret. intros [= <- _]. reflexivity.
    + discriminate.
  - rewrite bind_eq. destruct (_dictCreate (VDict w) c st) as [[d|e] s].
    + rewrite bind_eq. destruct (_dictSet d k v s) as [[[]|e] s'].
      * unfold ret. intros [= <- _]. reflexivity.
      * discriminate.
    + discriminate.
Qed.

(** C5: the code at the failing input.  Inside a journal,
    [write(d, 'a', 5)] puts 5 into the write-buffer for [(d, 'a')], and
    what it returns (the result of the Effect Set) is [None], not 5. *)
Theorem write_in_journal_returns_None :
  exists st',
    journal (write draw_override (VDict 0) (VStr "a") (VInt 5))
            (initial heap_a1)
    = (Ok (mkEffect VNone 2 3), st')
    /\ heap st' !! 3%nat
       = Some (ODict (mkDict (Some [VDict 0]) [(VId 0, VDict 4)]))
    /\ heap st' !! 4%nat = Some (ODict (mkDict None [(VStr "a", VInt 5)]))
    /\ VNone <> VInt 5.
Proof.
  eexists. split; [vm_compute; reflexivity|].
  split; [reflexivity|]. split; [reflexivity|discriminate].
Qed.

(** ** Whole-value reads are not cached *)

(** With [key] [None], the last block of [read] never touches the
    read-memo: the state it leaves is the one the override left. *)
Lemma read_storage_whole (call_override : ovr -> list value -> M value)
  (c : value) (st : State) :
  read_storage call_override c VNone st
  = match __checkOverride call_override c OpRead [c] st with
    | (Ok r, s) => (Ok (if is_none r then c else r), s)
    | (Raise e, s) => if is_KeyError e then (Ok VNone, s) else (Raise e, s)
    end.
Proof.
  unfold read_storage. rewrite try_except_eq, bind_eq.
  cbn [is_none negb]. unfold ret at 1. cbv beta iota.
  rewrite bind_eq.
  destruct (__checkOverride call_override c OpRead [c] st) as [[r|e] s];
    [|reflexivity].
  destruct (is_none r); cbn [negb]; cbv iota; [reflexivity|].
  rewrite bind_eq. unfold get at 1. cbv beta iota.
  destruct (commit_reads s); reflexivity.
Qed.

(** C4: the code at the failing input.  Inside a journal, two reads of
    the whole value [x] (key [None]), where [x] overrides [read] by
    drawing a deviate: the first read leaves the read-memo as it was, and
    the second resolves again and returns another value. *)
Theorem read_whole_value_resolves_again :
  let st0 := journal_enter (initial heap_a1) in
  read draw_override (VObj 1) VNone st0 = (Ok (VInt 0), set_rng 1 st0)
  /\ heap (set_rng 1 st0) !! 2%nat = Some (ODict empty_dict)
  /\ read draw_override (VObj 1) VNone (set_rng 1 st0)
     = (Ok (VInt 1), set_rng 2 st0).
Proof. vm_compute. repeat split. Qed.

(** A keyed read, by contrast, is cached: the second read of [(d, 'a')]
    returns the value of the first and leaves the state, the random
    source included, as it is. *)
Example read_keyed_cached_once :
  let st0 := journal_enter (initial heap_cap) in
  let st1 := snd (read draw_override (VDict 0) (VStr "a") st0) in
  read draw_override (VDict 0) (VStr "a") st0 = (Ok (VInt 0), st1)
  /\ rng st1 = 1%nat
  /\ read draw_override (VDict 0) (VStr "a") st1 = (Ok (VInt 0), st1).
Proof. vm_compute. repeat split. Qed.

(** ** Committing a whole-value write *)

(** C6: the code at the failing inputs.  After [write(d, None, e)] in a
    journal, with [d = {'a': 1}] and [e = {'b': 2}], [commit] leaves [d]
    as [{'a': 1, 'b': 2}]: [e] is merged into [d], [d] is not replaced.
    After [write(d, None, 5)], [commit] raises [TypeError] and returns no
    result. *)
Theorem commit_whole_value_write :
  (exists st',
      (j <- journal (write draw_override (VDict 0) VNone (VDict 1)) ;;
       commit j false) (initial heap_ab) = (Ok VNone, st')
      /\ heap st' !! 0%nat
         = Some (ODict (mkDict None [(VStr "a", VInt 1); (VStr "b", VInt 2)])))
  /\ (exists st',
         (j <- journal (write draw_override (VDict 0) VNone (VInt 5)) ;;
          commit j false) (initial heap_ab) = (Raise TypeError, st')
         /\ heap st' !! 0%nat
            = Some (ODict (mkDict None [(VStr "a", VInt 1)]))).
Proof.
  split; eexists; (split; [vm_compute; reflexivity|reflexivity]).
Qed.

(** ** Override resolution *)

Section Resolution.

Variable call_override : ovr -> list value -> M value.

Lemma checkOverride_no_table (data : value) (code : op) (args : list value)
  (st : State) :
  concept_of (heap st) data = None ->
  __checkOverride call_override data code args st = (Ok VNone, st).
Proof.
  intros H. unfold __checkOverride, concept_entry.
  rewrite bind_eq, try_except_eq, !bind_eq. unfold get at 1. cbv beta iota.
  rewrite H. reflexivity.
Qed.

Lemma checkOverride_entry (data : value) (code : op) (args : list value)
  (st : State) (t : table) (o : option ovr) :
  concept_of (heap st) data = Some t -> table_lookup code t = Some o ->
  __checkOverride call_override data code args st
  = match o with
    | Some f => call_override f args st
    | None => (Ok VNone, st)
    end.
Proof.
  intros H Ht. unfold __checkOverride, concept_entry.
  rewrite bind_eq, try_except_eq, !bind_eq. unfold get at 1. cbv beta iota.
  rewrite H, Ht. unfold ret at 1. cbv beta iota.
  destruct o; reflexivity.
Qed.

Lemma checkOverride_missing (data : value) (code : op) (args : list value)
  (st : State) (t : table) :
  concept_of (heap st) data = Some t -> table_lookup code t = None ->
  __checkOverride call_override data code args st = (Raise KeyError, st).
Proof.
  intros H Ht. unfold __checkOverride, concept_entry.
  rewrite bind_eq, try_except_eq, !bind_eq. unfold get at 1. cbv beta iota.
  rewrite H, Ht. reflexivity.
Qed.

End Resolution.

Section NoKeyError.

Variable call_override : ovr -> list value -> M value.

Lemma setitem_no_KeyError (tgt k v : value) (st : State) :
  fst (setitem tgt k v st) <> Raise KeyError.
Proof.
  unfold setitem. rewrite bind_eq. unfold get at 1. cbv beta iota.
  destruct (as_dict (heap st) tgt) as [[l d]|]; [|discriminate].
  destruct (hashable k); discriminate.
Qed.

Lemma _dictSet_no_KeyError (tgt k v : value) (st : State) :
  fst (_dictSet tgt k v st) <> Raise KeyError.
Proof.
  destruct (as_dict (heap st) tgt) as [[l d]|] eqn:E.
  - apply as_dict_inv in E as [-> E].
    rewrite (_dictSet_dict _ _ _ _ _ E). discriminate.
  - rewrite _dictSet_not_dict by assumption. discriminate.
Qed.

Lemma _dictCreate_no_KeyError (tgt k : value) (st : State) :
  fst (_dictCreate tgt k st) <> Raise KeyError.
Proof.
  destruct (as_dict (heap st) tgt) as [[l d]|] eqn:E.
  - apply as_dict_inv in E as [-> E].
    rewrite (_dictCreate_dict _ _ _ _ E).
    destruct (dict_find d k); discriminate.
  - rewrite _dictCreate_not_dict by assumption. discriminate.
Qed.

Lemma try_except_no_KeyError {A} (m h : M A) (st : State) :
  (forall s, fst (h s) <> Raise KeyError) ->
  fst (try_except m is_KeyError h st) <> Raise KeyError.
Proof.
  intros Hh. rewrite try_except_eq.
  destruct (m st) as [[a|e] s]; [discriminate|].
  destruct e; simpl; try discriminate. apply Hh.
Qed.

Lemma read_no_KeyError (c k : value) (st : State) :
  fst (read call_override c k st) <> Raise KeyError.
Proof.
  assert (Hs : forall s, fst (read_storage call_override c k s)
                         <> Raise KeyError).
  { intros s. unfold read_storage. apply try_except_no_KeyError.
    intros s'. discriminate. }
  assert (Ht : forall j rest s,
             (forall s', fst (rest s') <> Raise KeyError) ->
             fst (try_journal j c k rest s) <> Raise KeyError).
  { intros j rest s Hr. unfold try_journal. destruct j as [l|]; [|apply Hr].
    apply try_except_no_KeyError. exact Hr. }
  unfold read. rewrite bind_eq. unfold get at 1. cbv beta iota.
  apply Ht. intros s'. rewrite bind_eq. unfold get at 1. cbv beta iota.
  apply Ht. exact Hs.
Qed.

Lemma Raise_cast {A B} (e : exn) (s : State) :
  fst (@Raise A e, s) <> Raise KeyError ->
  fst (@Raise B e, s) <> Raise KeyError.
Proof. simpl. intros H [= ->]. apply H. reflexivity. Qed.

Lemma write_no_KeyError (c k v : value) (st : State) :
  fst (write call_override c k v st) <> Raise KeyError.
Proof.
  unfold write. rewrite bind_eq. unfold get at 1. cbv beta iota.
  destruct (commit_writes st) as [w|].
  - destruct (is_none k).
    + rewrite bind_eq.
      pose proof (_dictSet_no_KeyError (VDict w) c v st) as H.
      destruct (_dictSet (VDict w) c v st) as [[[]|e] s]; [discriminate|].
      eapply Raise_cast; exact H.
    + rewrite bind_eq.
      pose proof (_dictCreate_no_KeyError (VDict w) c st) as H.
      destruct (_dictCreate (VDict w) c st) as [[d|e] s]; [|exact H].
      rewrite bind_eq.
      pose proof (_dictSet_no_KeyError d k v s) as H'.
      destruct (_dictSet d k v s) as [[[]|e] s']; [discriminate|].
      eapply Raise_cast; exact H'.
  - apply try_except_no_KeyError. intros s. rewrite bind_eq.
    assert (H : fst ((if negb (is_none k) then setitem c k v else ret tt) s)
                <> Raise KeyError).
    { destruct (is_none k); [discriminate|apply setitem_no_KeyError]. }
    destruct ((if negb (is_none k) then setitem c k v else ret tt) s)
      as [[[]|e] s']; [discriminate|].
    eapply Raise_cast; exact H.
Qed.

(** An untransacted [read] of a key that holds a value whose Override
    Table has no entry for [read], and an untransacted [write] over a
    value whose table has none for [write]. *)
Lemma read_missing_entry (l : loc) (d : dictobj) (k x : value) (t : table)
  (st : State) :
  commit_reads st = None -> commit_writes st = None ->
  heap st !! l = Some (ODict d) ->
  hashable k = true -> is_none k = false ->
  d_lookup k (items d) = Some x ->
  concept_of (heap st) x = Some t -> table_lookup OpRead t = None ->
  read call_override (VDict l) k st = (Ok VNone, st).
Proof.
  intros Hr Hw Hd Hh Hk Hx Hc Ht.
  unfold read. rewrite bind_eq. unfold get at 1. cbv beta iota.
  rewrite Hw. unfold try_journal at 1.
  rewrite bind_eq. unfold get at 1. cbv beta iota.
  rewrite Hr. unfold try_journal at 1.
  unfold read_storage. rewrite try_except_eq, bind_eq, Hk.
  cbn [negb]. cbv iota.
  rewrite (getitem_dict _ _ _ Hd), Hh, Hx.
  rewrite bind_eq, (checkOverride_missing _ _ _ _ _ _ Hc Ht).
  reflexivity.
Qed.

Lemma write_missing_entry (l : loc) (d : dictobj) (k x new : value)
  (t : table) (st : State) :
  commit_writes st = None ->
  heap st !! l = Some (ODict d) ->
  hashable k = true -> is_none k = false ->
  d_lookup k (items d) = Some x ->
  concept_of (heap st) x = Some t -> table_lookup OpWrite t = None ->
  write call_override (VDict l) k new st
  = (Ok new,
     set_heap (<[l := ODict (mkDict (dkeys d) (d_store k new (items d)))]>
                 (heap st)) st).
Proof.
  intros Hw Hd Hh Hk Hx Hc Ht.
  unfold write. rewrite bind_eq. unfold get at 1. cbv beta iota.
  rewrite Hw. rewrite try_except_eq, bind_eq, Hk.
  cbn [negb]. cbv iota.
  rewrite (getitem_dict _ _ _ Hd), Hh, Hx.
  rewrite bind_eq, (checkOverride_missing _ _ _ _ _ _ Hc Ht).
  cbn [is_KeyError]. cbv iota.
  rewrite bind_eq, (setitem_dict _ _ _ Hd) by assumption.
  reflexivity.
Qed.

(** The two paths beside it, where [read] returns the stored value: no
    Override Table, and a table whose entry for [read] is [None]. *)
Lemma read_no_override (l : loc) (d : dictobj) (k x : value) (st : State) :
  commit_reads st = None -> commit_writes st = None ->
  heap st !! l = Some (ODict d) ->
  hashable k = true -> is_none k = false ->
  d_lookup k (items d) = Some x ->
  (concept_of (heap st) x = None
   \/ exists t, concept_of (heap st) x = Some t
                /\ table_lookup OpRead t = Some None) ->
  read call_override (VDict l) k st = (Ok x, st).
Proof.
  intros Hr Hw Hd Hh Hk Hx Hc.
  assert (E : __checkOverride call_override x OpRead [x] st = (Ok VNone, st)).
  { destruct Hc as [Hc|(t & Hc & Ht)].
    - apply checkOverride_no_table. exact Hc.
    - rewrite (checkOverride_entry _ _ _ _ _ _ _ Hc Ht). reflexivity. }
  unfold read. rewrite bind_eq. unfold get at 1. cbv beta iota.
  rewrite Hw. unfold try_journal at 1.
  rewrite bind_eq. unfold get at 1. cbv beta iota.
  rewrite Hr. unfold try_journal at 1.
  unfold read_storage. rewrite try_except_eq, bind_eq, Hk.
  cbn [negb]. cbv iota.
  rewrite (getitem_dict _ _ _ Hd), Hh, Hx.
  rewrite bind_eq, E. reflexivity.
Qed.

End NoKeyError.

(** C9: the code at the failing input.  With [d = {'a': x}] where the
    Override Table of [x] has an entry for [write] and none for [read]:
    resolving [read] on [x] does not answer "no override", the
    [KeyError] of the table lookup escapes [__checkOverride]; the
    [except KeyError] of [read] then takes it for a missing key, and
    [read(d, 'a')] returns [None] in place of the stored [x].  On the
    two paths beside it ([x] without a table, [x] whose entry for [read]
    is [None]) "no override" is answered and [read(d, 'a')] returns
    [x]. *)
Theorem read_of_missing_entry_returns_None :
  __checkOverride draw_override (VObj 1) OpRead [VObj 1] (initial heap_wo)
  = (Raise KeyError, initial heap_wo)
  /\ read draw_override (VDict 0) (VStr "a") (initial heap_wo)
     = (Ok VNone, initial heap_wo)
  /\ read draw_override (VObj 1) VNone (initial heap_wo)
     = (Ok VNone, initial heap_wo)
  /\ __checkOverride draw_override (VObj 1) OpRead [VObj 1]
       (initial heap_none)
     = (Ok VNone, initial heap_none)
  /\ read draw_override (VDict 0) (VStr "a") (initial heap_none)
     = (Ok (VObj 1), initial heap_none)
  /\ __checkOverride draw_override (VObj 1) OpRead [VObj 1]
       (initial heap_plain)
     = (Ok VNone, initial heap_plain)
  /\ read draw_override (VDict 0) (VStr "a") (initial heap_plain)
     = (Ok (VObj 1), initial heap_plain).
Proof. vm_compute. repeat split. Qed.

(** ** Priority of registered strategies *)

Section Priority.

Variable call_override : ovr -> list value -> M value.
Variable class_attr : string -> option value.
Variable call_strategy : nat -> (value -> Z) -> M value -> M value.
Variable deviate : nat -> Z.

Lemma on_goal_twice (A B : strat) (st : State) :
  goal_in_goal st = true -> goal_in_do st = false -> goal_do st = None ->
  (on_goal A ;;; on_goal B) st
  = (Ok tt, set_do (Some (Combine (Single A) B)) st).
Proof.
  intros H1 H2 H3. unfold on_goal. rewrite !bind_eq. unfold get at 1.
  cbv beta iota. rewrite H1, H2, H3. cbn [negb]. cbv iota.
  unfold modify at 1. cbv beta iota. rewrite bind_eq. unfold get at 1.
  cbv beta iota. cbn [goal_in_goal goal_in_do goal_do set_do].
  rewrite H1, H2. reflexivity.
Qed.


(** The goal of a computation that only registers [A], then [B]. *)
Lemma goal_of_two_registrations (A B : strat) (measure : value -> Z)
  (v : value) (st : State) :
  goal_in_do st = false ->
  let func := run call_override class_attr deviate (OnGoal A (OnGoal B (Ret v))) in
  let redo := apply_strat call_strategy B measure func in
  goal call_strategy measure func st
  = match apply_strat call_strategy A measure redo
            (dispatch_state A B v st) with
    | (Ok result, s) =>
        (Ok result,
         set_in_goal (goal_in_goal st)
           (set_do (goal_do st) (set_in_do false s)))
    | (Raise e, s) => (Raise e, s)
    end.
Proof.
  intros Hdo func redo. rewrite goal_eq, journal_eq.
  assert (Hrun : func (journal_enter (set_in_goal true (set_do None st)))
                 = (Ok v, set_do (Some (Combine (Single A) B))
                            (journal_enter
                               (set_in_goal true (set_do None st))))).
  { unfold func. simpl run.
    rewrite bind_bind, bind_eq, on_goal_twice; auto. }
  rewrite Hrun. cbv zeta.
  cbn [goal_do set_journaled journal_leave set_journals set_do
       goal_in_do journal_enter set_heap set_in_goal heap goal_journaled
       goal_in_goal commit_reads commit_writes rng].
  rewrite Hdo. reflexivity.
Qed.


End Priority.


(** When [A] hands over to its [func], it is [B] that runs. *)
Example first_registered_delegates :
  fst (goal demo_strategy (fun _ => 0)
         (run draw_override slots_attr Z.of_nat
              (OnGoal (UserStrat 0) (OnGoal (UserStrat 1) (Ret VNone))))
         (initial []))
  = Ok (VInt 1).
Proof. reflexivity. Qed.

(** ** When [commit] succeeds *)

Section CommitOk.
Local Open Scope nat_scope.

Lemma _dictKeys_dict (st : State) (l : loc) (d : dictobj) :
  heap st !! l = Some (ODict d) ->
  _dictKeys (VDict l) st = (Ok (dict_keys d), st).
Proof.
  intros H. unfold _dictKeys, dict_keys. rewrite bind_eq. unfold get at 1.
  cbv beta iota. rewrite (as_dict_lookup _ _ _ H).
  destruct (dkeys d); reflexivity.
Qed.

Lemma is_dict_kept (h h' : list obj) (l : loc) :
  dicts_kept h h' -> is_dict h l = true -> is_dict h' l = true.
Proof.
  intros K. unfold is_dict.
  destruct (h !! l) as [[d|]|] eqn:E; try discriminate.
  destruct (K _ _ E) as [d' ->]. reflexivity.
Qed.

Lemma key_ok_kept (h h' : list obj) (w : loc) (dw : dictobj) (c : value) :
  dicts_kept h h' -> key_ok h w dw c = true -> key_ok h' w dw c = true.
Proof.
  intros K. unfold key_ok. destruct c; try discriminate.
  rewrite !andb_true_iff. intros [[H1 H2] H3]. repeat split.
  - exact H1.
  - eapply is_dict_kept; eauto.
  - destruct (dict_find dw (VDict l)) as [[]|]; try discriminate.
    eapply is_dict_kept; eauto.
Qed.

Lemma commit_loop_ok (w : loc) (dw : dictobj) (ks : list value) :
  forall st,
    heap st !! w = Some (ODict dw) ->
    forallb (key_ok (heap st) w dw) ks = true ->
    exists h', commit_loop (VDict w) ks st = (Ok tt, set_heap h' st).
Proof.
  induction ks as [|c ks IH]; intros st Hw Hks.
  - exists (heap st). simpl. unfold ret. rewrite set_heap_same. reflexivity.
  - simpl in Hks. apply andb_true_iff in Hks as [Hc Hks].
    unfold key_ok in Hc. destruct c as [| | | | |l|]; try discriminate.
    apply andb_true_iff in Hc as [Hc Hs].
    apply andb_true_iff in Hc as [Hne Hl].
    apply negb_true_iff, Nat.eqb_neq in Hne.
    unfold is_dict in Hl.
    destruct (heap st !! l) as [[d|]|] eqn:El; try discriminate.
    destruct (dict_find dw (VDict l)) as [[| | | | |s|]|] eqn:Ef;
      try discriminate.
    unfold is_dict in Hs.
    destruct (heap st !! s) as [[src|]|] eqn:Es; try discriminate.
    simpl commit_loop.
    rewrite bind_eq. unfold has_update at 1. rewrite bind_eq.
    unfold get at 1. cbv beta iota.
    rewrite (as_dict_lookup _ _ _ El). unfold ret at 1. cbv beta iota.
    rewrite bind_eq, (_dictGet_dict _ _ _ _ Hw), Ef.
    rewrite bind_eq. unfold call_update at 1. rewrite bind_eq.
    unfold get at 1. cbv beta iota.
    rewrite (as_dict_lookup _ _ _ El), (as_dict_lookup _ _ _ Es).
    rewrite put_dict_eq.
    set (h1 := <[l:=ODict (d_update d src)]> (heap st)).
    destruct (IH (set_heap h1 st)) as [h' Hh'].
    + simpl. unfold h1. rewrite list_lookup_insert_ne by assumption. exact Hw.
    + simpl. rewrite forallb_forall in Hks |- *.
      intros x Hx. eapply key_ok_kept; [|apply Hks; exact Hx].
      apply dicts_kept_insert.
    + exists h'. rewrite Hh'. reflexivity.
Qed.

(** [commit] of a committable write-buffer returns the result. *)
Lemma commit_ok (j : effect) (st : State) :
  committable (heap st) (e_writes j) = true ->
  exists h', commit j false st = (Ok (e_result j), set_heap h' st).
Proof.
  unfold committable.
  destruct (heap st !! e_writes j) as [[dw|]|] eqn:Hw; try discriminate.
  intros Hks. unfold commit. cbn [negb]. cbv iota.
  rewrite bind_eq, bind_eq, (_dictKeys_dict _ _ _ Hw).
  destruct (commit_loop_ok _ _ _ st Hw Hks) as [h' Hh'].
  rewrite Hh'. exists h'. reflexivity.
Qed.

End CommitOk.

(** ** Minimize *)

Section Minimize.

Variable measure : value -> Z.

Local Abbreviation m j := (measure (e_result j)).

Lemma repeat_loop_resample (func : M value) (n : nat) :
  forall (bestJ : effect) (st : State),
    repeat_loop n measure func bestJ (measure (e_result bestJ)) st
    = (js <- resample n func ;; ret (pick_best measure bestJ js)) st.
Proof.
  induction n as [|n IH]; intros bestJ st.
  - reflexivity.
  - simpl repeat_loop. simpl resample.
    rewrite bind_eq. rewrite (bind_eq (bind (journal func) _)).
    rewrite (bind_eq (journal func)).
    destruct (journal func st) as [[j|e] s]; [|reflexivity].
    rewrite bind_eq, commit_dont.
    rewrite (bind_eq (resample n func)).
    destruct (measure (e_result j) <? measure (e_result bestJ)) eqn:Hlt.
    + rewrite (IH j s). rewrite bind_eq.
      destruct (resample n func s) as [[js|e] s']; [|reflexivity].
      unfold ret, pick_best. cbn [fold_left].
      replace (keep_smaller measure bestJ j) with j
        by (unfold keep_smaller; rewrite Hlt; reflexivity).
      reflexivity.
    + rewrite (IH bestJ s). rewrite bind_eq.
      destruct (resample n func s) as [[js|e] s']; [|reflexivity].
      unfold ret, pick_best. cbn [fold_left].
      replace (keep_smaller measure bestJ j) with bestJ
        by (unfold keep_smaller; rewrite Hlt; reflexivity).
      reflexivity.
Qed.


(** The retained Effect Set is the first one of smallest measure. *)
Lemma pick_best_first_min (j0 : effect) (js : list effect) :
  exists pre post,
    j0 :: js = pre ++ pick_best measure j0 js :: post
    /\ Forall (fun j => m (pick_best measure j0 js) < m j) pre
    /\ Forall (fun j => m (pick_best measure j0 js) <= m j) post.
Proof.
  induction js as [|x js IH] using rev_ind.
  - exists [], []. simpl. repeat split; constructor.
  - destruct IH as (pre & post & Heq & Hpre & Hpost).
    unfold pick_best in *. rewrite fold_left_app. cbn [fold_left].
    set (best := fold_left (keep_smaller measure) js j0) in *.
    unfold keep_smaller.
    destruct (measure (e_result x) <? measure (e_result best)) eqn:Hlt.
    + apply Z.ltb_lt in Hlt.
      exists (j0 :: js), []. split; [|split].
      * rewrite app_comm_cons. reflexivity.
      * rewrite Heq. apply Forall_app. split.
        -- eapply Forall_impl; [exact Hpre|]. intros j Hj. simpl in Hj. lia.
        -- constructor; [lia|].
           eapply Forall_impl; [exact Hpost|]. intros j Hj. simpl in Hj. lia.
      * constructor.
    + apply Z.ltb_ge in Hlt.
      exists pre, (post ++ [x]). split; [|split].
      * rewrite app_comm_cons, Heq, <- app_assoc. reflexivity.
      * exact Hpre.
      * apply Forall_app. split; [exact Hpost|]. constructor; [exact Hlt|].
        constructor.
Qed.

Lemma pick_best_le_all (j0 : effect) (js : list effect) :
  Forall (fun j => m (pick_best measure j0 js) <= m j) (j0 :: js).
Proof.
  destruct (pick_best_first_min j0 js) as (pre & post & Heq & Hpre & Hpost).
  rewrite Heq. apply Forall_app. split.
  - eapply Forall_impl; [exact Hpre|]. intros j Hj. simpl in Hj. lia.
  - constructor; [lia|exact Hpost].
Qed.

End Minimize.


Section MinimizeGoal.

Variable call_strategy : nat -> (value -> Z) -> M value -> M value.


End MinimizeGoal.



(** The two call shapes together: [minimize(measure, f, tries=2)] on the
    example returns the smallest of the three results and commits it. *)
Example minimize_end_to_end :
  exists st',
    minimize pass_strategy demo_measure (Some demo_func) 2 (initial heap_a1)
    = (Ok (VInt 2), st')
    /\ heap st' !! 0%nat = Some (ODict (mkDict None [(VStr "a", VInt 2)])).
Proof. eexists. split; [vm_compute; reflexivity|reflexivity]. Qed.

(** ** The theorems at concrete inputs *)

Example journal_write_isolated_a1 :
  exists ext,
    journal (write draw_override (VDict 0) (VStr "a") (VInt 5))
            (initial heap_a1)
    = (Ok (mkEffect VNone 2 3), set_heap (heap_a1 ++ ext) (initial heap_a1)).
Proof.
  exact (journal_write_isolated draw_override (initial heap_a1)
           (VDict 0) (VStr "a") (VInt 5)).
Defined.

Lemma journal_failure_commits_nothing_witness :
  exists s,
    journal (run draw_override slots_attr Z.of_nat failing_comp) (initial heap_a1)
    = (Raise (Failure 1), s)
    /\ heap s !! 0%nat = Some (ODict (mkDict None [(VStr "a", VInt 1)])).
Proof.
  set (r := run draw_override slots_attr Z.of_nat failing_comp
              (journal_enter (initial heap_a1))).
  assert (Hr : r = (Raise (Failure 1), snd r)) by (vm_compute; reflexivity).
  destruct (journal_failure_commits_nothing draw_override slots_attr
              Z.of_nat failing_comp (initial heap_a1) (snd r) (Failure 1)
              only_rng_draw) as [Hj [ext Hext]].
  - constructor; [reflexivity|]. intros x. constructor.
  - exact Hr.
  - exists (snd r). split; [exact Hj|].
    rewrite Hext. reflexivity.
Defined.

Lemma journal_goal_restore_witness :
  (exists st',
      journal demo_func (journal_enter (initial heap_a1))
      = (Ok (mkEffect (VInt 4) 4 5), st')
      /\ commit_reads st' = Some 2%nat /\ commit_writes st' = Some 3%nat)
  /\ (exists st',
         goal pass_strategy demo_measure demo_func (initial heap_a1)
         = (Ok (VInt 4), st')
         /\ goal_do st' = None /\ goal_in_goal st' = false
         /\ goal_in_do st' = false
         /\ goal_journaled st' = Some (mkEffect (VInt 4) 2 3))
  /\ (exists s,
         journal (raise (Failure 1)) (initial heap_a1)
         = (Raise (Failure 1), s)
         /\ commit_writes s = Some 3%nat)
  /\ (exists s,
         goal pass_strategy demo_measure (raise (Failure 1))
           (initial heap_a1) = (Raise (Failure 1), s)
         /\ goal_in_goal s = true).
Proof.
  pose proof (journal_goal_restore_on_return pass_strategy)
    as (J1 & J2 & G1 & G2 & G3 & _).
  repeat apply conj.
  - set (r := journal demo_func (journal_enter (initial heap_a1))).
    assert (Hr : r = (Ok (mkEffect (VInt 4) 4 5), snd r))
      by (vm_compute; reflexivity).
    exists (snd r). split; [exact Hr|].
    exact (J1 demo_func (journal_enter (initial heap_a1)) (snd r)
             (mkEffect (VInt 4) 4 5) Hr).
  - set (r := goal pass_strategy demo_measure demo_func (initial heap_a1)).
    assert (Hr : r = (Ok (VInt 4), snd r)) by (vm_compute; reflexivity).
    set (b := journal demo_func
                (set_in_goal true (set_do None (initial heap_a1)))).
    assert (Hb : b = (Ok (mkEffect (VInt 4) 2 3), snd b))
      by (vm_compute; reflexivity).
    exists (snd r). split; [exact Hr|].
    destruct (G1 demo_measure demo_func (initial heap_a1) (snd r) (VInt 4) Hr)
      as (H1 & H2 & H3).
    split; [exact H1|]. split; [exact H2|].
    split; [rewrite H3; vm_compute; reflexivity|].
    exact (G2 demo_measure demo_func (initial heap_a1) (snd r) (snd b)
             (VInt 4) (mkEffect (VInt 4) 2 3) Hb eq_refl Hr).
  - eexists. split.
    + apply (J2 (raise (Failure 1)) (initial heap_a1)). reflexivity.
    + reflexivity.
  - eexists. split.
    + apply (G3 demo_measure (raise (Failure 1)) (initial heap_a1)).
      apply (J2 (raise (Failure 1))). reflexivity.
    + reflexivity.
Defined.

(** C3 as stated fails: when the wrapped computation raises, [journal]
    leaves its fresh Transaction Context installed and [goal] leaves
    [goal.in_goal] set; and when [goal] returns normally, [goal.journaled]
    is not what it was before. *)
Lemma failure_leaves_state_installed :
  commit_writes (snd (journal (raise (Failure 1)) (initial heap_a1)))
  <> commit_writes (initial heap_a1)
  /\ goal_in_goal
       (snd (goal pass_strategy demo_measure (raise (Failure 1))
               (initial heap_a1)))
     <> goal_in_goal (initial heap_a1)
  /\ fst (goal pass_strategy demo_measure demo_func (initial heap_a1))
     = Ok (VInt 4)
  /\ goal_journaled
       (snd (goal pass_strategy demo_measure demo_func (initial heap_a1)))
     <> goal_journaled (initial heap_a1).
Proof. repeat split; vm_compute; first [reflexivity|discriminate]. Qed.

(** ** A keyed write after a whole-value write *)

(** C2: the code at the failing input.  With [d = {'a': 1}], the
    computation [write(d, None, d); write(d, 'a', 9); raise] run by
    [journal]: the failure reaches the caller and no Effect Set exists,
    so nothing can be committed; yet the second write has stored 9 in
    [d] itself, because the entry the first write buffered for [d] is
    [d].  The key ['a'], which the partial writes touched, is altered in
    the underlying storage, as a direct read outside any journal
    shows. *)
Theorem failure_after_whole_value_write :
  let st := initial heap_a1 in
  let r := journal (run draw_override slots_attr Z.of_nat failing_alias_comp)
             st in
  fst r = Raise (Failure 1)
  /\ read draw_override (VDict 0) (VStr "a") st = (Ok (VInt 1), st)
  /\ heap (snd r) !! 0%nat
     = Some (ODict (mkDict None [(VStr "a", VInt 9)]))
  /\ fst (read draw_override (VDict 0) (VStr "a") (journal_leave st (snd r)))
     = Ok (VInt 9).
Proof. vm_compute. repeat split. Qed.

(** C1: the code at the failing input.  With [d = {'a': 1}], the
    computation [write(d, None, d); write(d, 'a', 9)] run by [journal]:
    the first write buffers [d] itself as the entry of [d], the second
    takes that entry for the sub-buffer of [d] and stores 9 in it, that
    is, in [d].  Before any [commit], the direct read of [(d, 'a')] has
    changed from 1 to 9. *)
Theorem keyed_write_after_whole_value_write :
  let st := initial heap_a1 in
  let st' := snd (journal (run draw_override slots_attr Z.of_nat alias_comp) st) in
  fst (journal (run draw_override slots_attr Z.of_nat alias_comp) st)
  = Ok (mkEffect VNone 2 3)
  /\ read draw_override (VDict 0) (VStr "a") st = (Ok (VInt 1), st)
  /\ read draw_override (VDict 0) (VStr "a") st' = (Ok (VInt 9), st')
  /\ heap st' !! 3%nat
     = Some (ODict (mkDict (Some [VDict 0]) [(VId 0, VDict 0)])).
Proof. vm_compute. repeat split. Qed.

(** * Further properties of the code *)

(** ** Storing and finding keys, hashable or not *)

Lemma py_eqb_refl (k : value) : hashable k = true -> py_eqb k k = true.
Proof.
  destruct k; simpl; intros H; try discriminate; auto.
  - destruct b; reflexivity.
  - apply Z.eqb_refl.
  - apply String.eqb_refl.
  - apply Nat.eqb_refl.
  - apply Nat.eqb_refl.
Qed.

Lemma d_lookup_store_same (k v : value) (its : list (value * value)) :
  py_eqb k k = true -> d_lookup k (d_store k v its) = Some v.
Proof.
  intros Hk. induction its as [|[k' v'] its IH]; simpl.
  - rewrite Hk. reflexivity.
  - destruct (py_eqb k' k) eqn:E; simpl; rewrite E; auto.
Qed.

Lemma py_eqb_trans_l (a b c : value) :
  py_eqb a b = true -> py_eqb a c = py_eqb b c.
Proof.
  destruct a, b; simpl; try discriminate; intros H; destruct c; simpl;
    try reflexivity;
    repeat match goal with
           | H : Bool.eqb _ _ = true |- _ => apply Bool.eqb_prop in H; subst
           | H : Z.eqb _ _ = true |- _ => apply Z.eqb_eq in H; subst
           | H : String.eqb _ _ = true |- _ => apply String.eqb_eq in H; subst
           | H : Nat.eqb _ _ = true |- _ => apply Nat.eqb_eq in H; subst
           end;
    try reflexivity;
    repeat match goal with b : bool |- _ => destruct b end;
    try reflexivity.
Qed.

Lemma d_lookup_store_other (k k2 v : value) (its : list (value * value)) :
  py_eqb k k2 = false -> py_eqb k k = true ->
  d_lookup k2 (d_store k v its) = d_lookup k2 its.
Proof.
  intros Hne Hk. induction its as [|[k' v'] its IH]; simpl.
  - rewrite Hne. reflexivity.
  - destruct (py_eqb k' k) eqn:E; simpl.
    + rewrite (py_eqb_trans_l _ _ k2 E), Hne. reflexivity.
    + rewrite IH. reflexivity.
Qed.

Lemma dict_find_set_same (d : dictobj) (key v : value) :
  no_id_clash d key ->
  dict_find (dictSet_result d key v) key = Some v.
Proof.
  intros Hc. unfold dict_find, dictSet_result.
  destruct (hashable key) eqn:Hh.
  - cbn [items].
    assert (Hs : d_lookup key (d_store key v (items d)) = Some v)
      by (apply d_lookup_store_same, py_eqb_refl; exact Hh).
    destruct (id_of key) as [i|] eqn:Hi; [|rewrite Hs; reflexivity].
    rewrite d_lookup_store_other.
    + rewrite (Hc Hh i Hi), Hs. reflexivity.
    + destruct key; inversion Hi; reflexivity.
    + apply py_eqb_refl. exact Hh.
  - destruct key; try discriminate. cbn [id_of items].
    rewrite d_lookup_store_same by (simpl; apply Nat.eqb_refl).
    reflexivity.
Qed.

Lemma dictSet_result_store (d : dictobj) (key v : value) :
  items (dictSet_result d key v) = d_store (slot_of key) v (items d)
  /\ py_eqb (slot_of key) (slot_of key) = true.
Proof.
  unfold dictSet_result, slot_of.
  destruct (hashable key) eqn:Hh.
  - split; [reflexivity|apply py_eqb_refl; exact Hh].
  - destruct key; try discriminate. simpl. split; [reflexivity|].
    apply Nat.eqb_refl.
Qed.

Lemma dict_find_set_other (d : dictobj) (key key2 v : value) :
  apart key key2 ->
  dict_find (dictSet_result d key v) key2 = dict_find d key2.
Proof.
  intros [Hi Hk]. unfold dict_find.
  destruct (dictSet_result_store d key v) as [-> Hs].
  assert (E1 : match id_of key2 with
               | Some i => d_lookup i (d_store (slot_of key) v (items d))
               | None => None
               end
               = match id_of key2 with
                 | Some i => d_lookup i (items d)
                 | None => None
                 end).
  { destruct (id_of key2) as [i|]; [|reflexivity].
    apply d_lookup_store_other; auto. }
  rewrite E1.
  destruct (hashable key2) eqn:Hh; [|reflexivity].
  rewrite d_lookup_store_other by auto. reflexivity.
Qed.

(** X1. [_dictSet] and [_dictGet] round trip on a dict, for every key,
    hashable or not: what was set under [key] is what [_dictGet] finds,
    provided no entry sits under the integer [id(key)] of a hashable
    [key]. *)
Theorem dictSet_dictGet_roundtrip (st : State) (l : loc) (d : dictobj)
  (key v : value) :
  heap st !! l = Some (ODict d) ->
  no_id_clash d key ->
  exists st',
    _dictSet (VDict l) key v st = (Ok tt, st')
    /\ _dictGet (VDict l) key st' = (Ok v, st').
Proof.
  intros Hd Hc. eexists. split.
  - apply (_dictSet_dict _ _ _ _ _ Hd).
  - erewrite _dictGet_dict by (eapply lookup_after_put; eauto).
    rewrite dict_find_set_same by assumption. reflexivity.
Qed.

Lemma dictSet_dictGet_roundtrip_witness :
  exists st',
    _dictSet (VDict 0) (VDict 1) (VInt 7) (initial heap_ab) = (Ok tt, st')
    /\ _dictGet (VDict 0) (VDict 1) st' = (Ok (VInt 7), st').
Proof.
  apply (dictSet_dictGet_roundtrip (initial heap_ab) 0
           (mkDict None [(VStr "a", VInt 1)]) (VDict 1) (VInt 7) eq_refl).
  intros H. discriminate.
Defined.

(** X2. [_dictSet] for one key leaves what [_dictGet] finds for any other
    key as it was (found or missing), whenever the two keys are filed
    apart. *)
Theorem dictSet_other_key (st : State) (l : loc) (d : dictobj)
  (key key2 v : value) :
  heap st !! l = Some (ODict d) ->
  apart key key2 ->
  exists st',
    _dictSet (VDict l) key v st = (Ok tt, st')
    /\ fst (_dictGet (VDict l) key2 st') = fst (_dictGet (VDict l) key2 st).
Proof.
  intros Hd Ha. eexists. split.
  - apply (_dictSet_dict _ _ _ _ _ Hd).
  - erewrite _dictGet_dict by (eapply lookup_after_put; eauto).
    rewrite (_dictGet_dict _ _ _ _ Hd).
    rewrite dict_find_set_other by assumption. reflexivity.
Qed.

Lemma dictSet_other_key_witness :
  exists st',
    _dictSet (VDict 0) (VDict 1) (VInt 7) (initial heap_ab) = (Ok tt, st')
    /\ fst (_dictGet (VDict 0) (VStr "a") st') = Ok (VInt 1).
Proof.
  apply (dictSet_other_key (initial heap_ab) 0
           (mkDict None [(VStr "a", VInt 1)]) (VDict 1) (VStr "a") (VInt 7)
           eq_refl).
  split; [intros i; discriminate|reflexivity].
Defined.

(** X3. [_dictCreate] is get-or-create: it returns a dict-valued entry
    for [key], creating an empty dict only when there is none, so a second
    call returns the same value and changes nothing, and [_dictGet] finds
    that value. *)
Theorem dictCreate_get_or_create (st : State) (l : loc) (d : dictobj)
  (key : value) :
  heap st !! l = Some (ODict d) ->
  no_id_clash d key ->
  exists v st1,
    _dictCreate (VDict l) key st = (Ok v, st1)
    /\ (dict_find d key = None ->
        v = VDict (length (heap st))
        /\ heap st1 !! length (heap st) = Some (ODict empty_dict))
    /\ (forall x, dict_find d key = Some x -> v = x /\ st1 = st)
    /\ _dictCreate (VDict l) key st1 = (Ok v, st1)
    /\ _dictGet (VDict l) key st1 = (Ok v, st1).
Proof.
  intros Hd Hc.
  assert (Hl : (l < length (heap st))%nat) by (eapply lookup_lt_Some; eauto).
  rewrite (_dictCreate_dict _ _ _ _ Hd).
  destruct (dict_find d key) as [x|] eqn:F.
  - exists x, st. split; [reflexivity|]. split; [discriminate|].
    split; [intros y [= <-]; auto|].
    rewrite (_dictCreate_dict _ _ _ _ Hd), (_dictGet_dict _ _ _ _ Hd), F.
    auto.
  - cbv zeta. eexists. eexists. split; [reflexivity|].
    set (n := length (heap st)).
    set (d' := dictSet_result d key (VDict n)).
    assert (Hl' : heap (set_heap (<[l:=ODict d']> (heap st ++ [ODict empty_dict]))
                          st) !! l = Some (ODict d')).
    { simpl. apply list_lookup_insert_eq. rewrite length_app. simpl. lia. }
    split; [|split; [discriminate|]].
    + intros _. split; [reflexivity|]. simpl.
      rewrite list_lookup_insert_ne by lia. apply lookup_fresh.
    + rewrite (_dictCreate_dict _ _ _ _ Hl'), (_dictGet_dict _ _ _ _ Hl').
      unfold d'. rewrite dict_find_set_same by assumption. auto.
Qed.

Lemma dictCreate_get_or_create_witness :
  exists st1,
    _dictCreate (VDict 0) (VDict 1) (initial heap_ab) = (Ok (VDict 2), st1)
    /\ _dictCreate (VDict 0) (VDict 1) st1 = (Ok (VDict 2), st1).
Proof.
  destruct (dictCreate_get_or_create (initial heap_ab) 0
              (mkDict None [(VStr "a", VInt 1)]) (VDict 1) eq_refl)
    as (v & st1 & H1 & Hnew & _ & H2 & _).
  - intros H. discriminate.
  - destruct (Hnew eq_refl) as [-> _]. exists st1. split; assumption.
Defined.

(** ** Reading and writing through the journals *)

Section Buffered.
Local Open Scope nat_scope.

Variable call_override : ovr -> list value -> M value.

Lemma concept_of_plain (h : list obj) (x : value) :
  plain x = true -> concept_of h x = None.
Proof. destruct x; simpl; try reflexivity; discriminate. Qed.

(** A keyed write to a container the write journal [W] has no entry for. *)
Lemma write_new_entry (st : State) (w : loc) (W : dictobj) (c k v : value) :
  commit_writes st = Some w ->
  heap st !! w = Some (ODict W) ->
  dict_find W c = None ->
  is_none k = false ->
  write call_override c k v st
  = (Ok VNone,
     set_heap (<[length (heap st) := ODict (dictSet_result empty_dict k v)]>
                 (<[w := ODict (dictSet_result W c
                                  (VDict (length (heap st))))]>
                    (heap st ++ [ODict empty_dict]))) st).
Proof.
  intros Hw HW Hf Hk.
  assert (Hl : w < length (heap st)) by (eapply lookup_lt_Some; eauto).
  unfold write. rewrite bind_eq. unfold get at 1. cbv beta iota.
  rewrite Hw, Hk, bind_eq, (_dictCreate_dict _ _ _ _ HW), Hf.
  cbv beta iota zeta. rewrite bind_eq.
  erewrite _dictSet_dict.
  2: { cbn [heap set_heap]. rewrite list_lookup_insert_ne by lia.
       apply lookup_fresh. }
  reflexivity.
Qed.

(** A whole-value write. *)
Lemma write_whole_entry (st : State) (w : loc) (W : dictobj) (c v : value) :
  commit_writes st = Some w ->
  heap st !! w = Some (ODict W) ->
  write call_override c VNone v st
  = (Ok VNone,
     set_heap (<[w := ODict (dictSet_result W c v)]> (heap st)) st).
Proof.
  intros Hw HW.
  unfold write. rewrite bind_eq. unfold get at 1. cbv beta iota.
  rewrite Hw. cbn [is_none]. rewrite bind_eq, (_dictSet_dict _ _ _ _ _ HW).
  reflexivity.
Qed.

(** A read that the write journal answers. *)
Lemma read_buffered (st : State) (w m : loc) (W sub : dictobj)
  (c k v : value) :
  commit_writes st = Some w ->
  heap st !! w = Some (ODict W) ->
  dict_find W c = Some (VDict m) ->
  heap st !! m = Some (ODict sub) ->
  dict_find sub k = Some v ->
  is_none k = false ->
  read call_override c k st = (Ok v, st).
Proof.
  intros Hw HW Hc Hm Hk Hn.
  unfold read. rewrite bind_eq. unfold get at 1. cbv beta iota.
  rewrite Hw. unfold try_journal at 1, journal_lookup.
  rewrite Hn, try_except_eq, bind_eq.
  rewrite (_dictGet_dict _ _ _ _ HW), Hc, (_dictGet_dict _ _ _ _ Hm), Hk.
  reflexivity.
Qed.

Lemma read_buffered_whole (st : State) (w : loc) (W : dictobj) (c v : value) :
  commit_writes st = Some w ->
  heap st !! w = Some (ODict W) ->
  dict_find W c = Some v ->
  read call_override c VNone st = (Ok v, st).
Proof.
  intros Hw HW Hc.
  unfold read. rewrite bind_eq. unfold get at 1. cbv beta iota.
  rewrite Hw. unfold try_journal at 1, journal_lookup.
  cbn [is_none]. rewrite try_except_eq.
  rewrite (_dictGet_dict _ _ _ _ HW), Hc. reflexivity.
Qed.

Lemma enter_writes (st : State) :
  heap (journal_enter st) !! S (length (heap st)) = Some (ODict fresh_writes).
Proof.
  simpl.
  change (heap st ++ [ODict empty_dict; ODict (mkDict (Some []) [])])
    with (heap st ++ [ODict empty_dict] ++ [ODict fresh_writes]).
  rewrite app_assoc. apply list_lookup_middle.
  rewrite length_app. simpl. lia.
Qed.

Lemma enter_reads (st : State) :
  heap (journal_enter st) !! length (heap st) = Some (ODict empty_dict).
Proof. simpl. apply list_lookup_middle. reflexivity. Qed.

Lemma enter_old (st : State) (l : loc) (o : obj) :
  heap st !! l = Some o -> heap (journal_enter st) !! l = Some o.
Proof. intros H. simpl. apply lookup_app_l_Some. exact H. Qed.

Lemma enter_length (st : State) :
  length (heap (journal_enter st)) = S (S (length (heap st))).
Proof. simpl. rewrite length_app. simpl. lia. Qed.

Lemma dict_find_empty (dk : option (list value)) (key : value) :
  dict_find (mkDict dk []) key = None.
Proof.
  unfold dict_find. cbn [items d_lookup].
  destruct (id_of key); destruct (hashable key); reflexivity.
Qed.

Lemma no_id_clash_empty (dk : option (list value)) (key : value) :
  no_id_clash (mkDict dk []) key.
Proof. intros _ i _. reflexivity. Qed.

(** X4. Read-your-writes inside a journal: for every container, key
    (also [None]) and value, a read that follows the write of the same
    address in the same journal returns the written value as it is,
    whatever the storage holds and without consulting an override; and
    the heap that existed before the journal is untouched. *)
Theorem read_your_writes (st : State) (c k v : value) :
  exists ext,
    journal (write call_override c k v ;;; read call_override c k) st
    = (Ok (mkEffect v (length (heap st)) (S (length (heap st)))),
       set_heap (heap st ++ ext) st).
Proof.
  rewrite journal_eq.
  set (n := length (heap st)).
  pose proof (enter_writes st) as HW. fold n in HW.
  assert (Hcw : commit_writes (journal_enter st) = Some (S n)) by reflexivity.
  pose proof (enter_length st) as Hlen. fold n in Hlen.
  destruct (is_none k) eqn:Hk.
  - destruct k; try discriminate.
    rewrite bind_eq, (write_whole_entry _ _ _ _ _ Hcw HW).
    erewrite read_buffered_whole;
      [|reflexivity
       |cbn [heap set_heap]; apply list_lookup_insert_eq; lia
       |apply dict_find_set_same, no_id_clash_empty].
    assert (E : exists ext,
               <[S n:=ODict (dictSet_result fresh_writes c v)]>
                 (heap (journal_enter st)) = heap st ++ ext).
    { apply same_below_app.
      - intros l Hl. rewrite list_lookup_insert_ne by (fold n in Hl; lia).
        simpl. apply lookup_app_l. exact Hl.
      - rewrite length_insert. fold n. lia. }
    destruct E as [ext E]. exists ext. rewrite <- E. reflexivity.
  - rewrite bind_eq.
    rewrite (write_new_entry _ _ _ c k v Hcw HW (dict_find_empty _ c) Hk).
    rewrite Hlen.
    set (h2 := <[S (S n):=ODict (dictSet_result empty_dict k v)]>
                 (<[S n:=ODict (dictSet_result fresh_writes c
                                  (VDict (S (S n))))]>
                    (heap (journal_enter st) ++ [ODict empty_dict]))).
    assert (Hlen1 : length (heap (journal_enter st) ++ [ODict empty_dict])
                    = S (S (S n)))
      by (rewrite length_app, Hlen; simpl; lia).
    erewrite (read_buffered (set_heap h2 (journal_enter st)) (S n) (S (S n))).
    + assert (E : exists ext, h2 = heap st ++ ext).
      { apply same_below_app.
        - intros l Hl. fold n in Hl. unfold h2.
          rewrite !list_lookup_insert_ne by lia.
          rewrite lookup_app_l by lia.
          simpl. apply lookup_app_l. exact Hl.
        - unfold h2. rewrite !length_insert, Hlen1. fold n. lia. }
      destruct E as [ext E]. exists ext. rewrite <- E. reflexivity.
    + reflexivity.
    + cbn [heap set_heap]. unfold h2.
      rewrite list_lookup_insert_ne by lia.
      apply list_lookup_insert_eq. lia.
    + apply dict_find_set_same, no_id_clash_empty.
    + cbn [heap set_heap]. unfold h2.
      apply list_lookup_insert_eq. rewrite length_insert. lia.
    + apply dict_find_set_same, no_id_clash_empty.
    + exact Hk.
Qed.

End Buffered.

Section CommitEffect.
Local Open Scope nat_scope.

Variable call_override : ovr -> list value -> M value.

(** [commit] of a write journal that buffers one container. *)
Lemma commit_one_container (st : State) (r : value) (rr w l m : loc)
  (d sub : dictobj) :
  heap st !! w = Some (ODict (mkDict (Some [VDict l]) [(VId l, VDict m)])) ->
  heap st !! l = Some (ODict d) ->
  heap st !! m = Some (ODict sub) ->
  commit (mkEffect r rr w) false st
  = (Ok r, set_heap (<[l := ODict (d_update d sub)]> (heap st)) st).
Proof.
  intros Hw Hl Hm.
  set (W := mkDict (Some [VDict l]) [(VId l, VDict m)]) in *.
  assert (Hkeys : dict_keys W = [VDict l]).
  { unfold dict_keys, W. cbn -[Nat.eqb]. rewrite Nat.eqb_refl. reflexivity. }
  assert (Hfind : dict_find W (VDict l) = Some (VDict m)).
  { unfold dict_find, W. cbn -[Nat.eqb]. rewrite Nat.eqb_refl. reflexivity. }
  unfold commit. cbn [negb e_writes e_result]. cbv iota.
  rewrite bind_eq, bind_eq, (_dictKeys_dict st w W Hw), Hkeys.
  cbn [commit_loop].
  rewrite bind_eq. unfold has_update at 1. rewrite bind_eq.
  unfold get at 1. cbv beta iota.
  rewrite (as_dict_lookup _ _ _ Hl). unfold ret at 1. cbv beta iota.
  rewrite bind_eq, (_dictGet_dict st w W _ Hw), Hfind.
  rewrite bind_eq. unfold call_update at 1. rewrite bind_eq.
  unfold get at 1. cbv beta iota.
  rewrite (as_dict_lookup _ _ _ Hl), (as_dict_lookup _ _ _ Hm).
  rewrite put_dict_eq. reflexivity.
Qed.

(** X5. Commit effect: for a live dict [d] and a key other than [None],
    [commit(journal(lambda: write(d, key, v)))] returns [None] (what the
    buffered write returned) and merges the buffered entry into [d] by
    [dict.update]: for a hashable key, [d[key]] is then [v], whatever was
    stored there before and whether or not it overrides [write]. *)
Theorem commit_applies_keyed_write (st : State) (l : loc) (d : dictobj)
  (k v : value) :
  heap st !! l = Some (ODict d) ->
  is_none k = false ->
  exists st2,
    (j <- journal (write call_override (VDict l) k v) ;; commit j false) st
    = (Ok VNone, st2)
    /\ heap st2 !! l
       = Some (ODict (d_update d (dictSet_result empty_dict k v)))
    /\ (hashable k = true ->
        heap st2 !! l
        = Some (ODict (mkDict (dkeys d) (d_store k v (items d)))))
    /\ commit_reads st2 = commit_reads st
    /\ commit_writes st2 = commit_writes st.
Proof.
  intros Hd Hk.
  set (n := length (heap st)).
  assert (Hln : l < n) by (eapply lookup_lt_Some; eauto).
  pose proof (enter_writes st) as HW. fold n in HW.
  pose proof (enter_length st) as Hlen. fold n in Hlen.
  rewrite bind_eq, journal_eq.
  rewrite (write_new_entry call_override (journal_enter st) (S n) fresh_writes
             (VDict l) k v eq_refl HW (dict_find_empty _ _) Hk).
  rewrite Hlen.
  set (h2 := <[S (S n):=ODict (dictSet_result empty_dict k v)]>
               (<[S n:=ODict (dictSet_result fresh_writes (VDict l)
                                (VDict (S (S n))))]>
                  (heap (journal_enter st) ++ [ODict empty_dict]))).
  assert (Hlen1 : length (heap (journal_enter st) ++ [ODict empty_dict])
                  = S (S (S n)))
    by (rewrite length_app, Hlen; simpl; lia).
  fold n.
  set (st1 := journal_leave st (set_heap h2 (journal_enter st))).
  assert (E1 : heap st1 = h2) by reflexivity.
  assert (H2w : h2 !! S n
                = Some (ODict (mkDict (Some [VDict l])
                                 [(VId l, VDict (S (S n)))]))).
  { unfold h2. rewrite list_lookup_insert_ne by lia.
    apply list_lookup_insert_eq. lia. }
  assert (H2m : h2 !! S (S n)
                = Some (ODict (dictSet_result empty_dict k v))).
  { unfold h2. apply list_lookup_insert_eq. rewrite length_insert. lia. }
  assert (H2l : h2 !! l = Some (ODict d)).
  { unfold h2. rewrite !list_lookup_insert_ne by lia.
    rewrite lookup_app_l by lia. apply enter_old. exact Hd. }
  rewrite (commit_one_container st1 VNone n (S n) l (S (S n)) d
             (dictSet_result empty_dict k v));
    try (rewrite E1; assumption).
  eexists. split; [reflexivity|].
  assert (Hfin : heap (set_heap (<[l:=ODict (d_update d
                                     (dictSet_result empty_dict k v))]>
                                   (heap st1)) st1) !! l
                 = Some (ODict (d_update d (dictSet_result empty_dict k v)))).
  { cbn [heap set_heap]. rewrite E1. apply list_lookup_insert_eq.
    eapply lookup_lt_Some; eauto. }
  split; [exact Hfin|]. split; [|split; reflexivity].
  intros Hh. rewrite Hfin. unfold dictSet_result. rewrite Hh. reflexivity.
Qed.

End CommitEffect.

Lemma commit_applies_keyed_write_witness :
  exists st2,
    (j <- journal (write draw_override (VDict 0) (VStr "a") (VInt 5)) ;;
     commit j false) (initial heap_cap) = (Ok VNone, st2)
    /\ heap st2 !! 0%nat = Some (ODict (mkDict None [(VStr "a", VInt 5)])).
Proof.
  destruct (commit_applies_keyed_write draw_override (initial heap_cap) 0
              (mkDict None [(VStr "a", VObj 1)]) (VStr "a") (VInt 5)
              eq_refl eq_refl) as (st2 & H1 & _ & H2 & _).
  exists st2. split; [exact H1|]. apply H2. reflexivity.
Defined.

Section FallThrough.
Local Open Scope nat_scope.

Variable call_override : ovr -> list value -> M value.

(** A read that neither journal has an entry for falls through to the
    storage: the stored value when it is plain, [None] when the key is
    missing. *)
Lemma read_falls_through (st : State) (r w l : loc) (R W d : dictobj)
  (k : value) :
  commit_reads st = Some r -> commit_writes st = Some w ->
  heap st !! r = Some (ODict R) -> heap st !! w = Some (ODict W) ->
  dict_find R (VDict l) = None -> dict_find W (VDict l) = None ->
  heap st !! l = Some (ODict d) ->
  hashable k = true -> is_none k = false ->
  (forall x, d_lookup k (items d) = Some x -> plain x = true) ->
  read call_override (VDict l) k st
  = (Ok (match d_lookup k (items d) with Some x => x | None => VNone end),
     st).
Proof.
  intros Hr Hw HR HW HfR HfW Hd Hh Hk Hp.
  unfold read. rewrite bind_eq. unfold get at 1. cbv beta iota.
  rewrite Hw. unfold try_journal at 1, journal_lookup at 1.
  rewrite Hk, try_except_eq, bind_eq, (_dictGet_dict _ _ _ _ HW), HfW.
  cbn [is_KeyError]. cbv iota.
  rewrite bind_eq. unfold get at 1. cbv beta iota.
  rewrite Hr. unfold try_journal at 1, journal_lookup at 1.
  rewrite Hk, try_except_eq, bind_eq, (_dictGet_dict _ _ _ _ HR), HfR.
  cbn [is_KeyError]. cbv iota.
  unfold read_storage. rewrite try_except_eq, bind_eq, Hk.
  cbn [negb]. cbv iota.
  rewrite (getitem_dict _ _ _ Hd), Hh.
  destruct (d_lookup k (items d)) as [x|] eqn:Hx; [|reflexivity].
  rewrite bind_eq, checkOverride_no_table
    by (apply concept_of_plain, Hp; reflexivity).
  reflexivity.
Qed.

(** X6. A nested journal does not see what the enclosing journal has
    buffered: after [write(d, key, v)] in the outer journal, a
    [read(d, key)] run by an inner [journal] returns what the storage
    holds ([None] for a missing key), not [v]. *)
Theorem nested_journal_reads_storage (st : State) (l : loc) (d : dictobj)
  (k v : value) :
  heap st !! l = Some (ODict d) ->
  hashable k = true -> is_none k = false ->
  (forall x, d_lookup k (items d) = Some x -> plain x = true) ->
  exists st',
    journal (write call_override (VDict l) k v ;;;
             j <- journal (read call_override (VDict l) k) ;;
             ret (e_result j)) st
    = (Ok (mkEffect
             (match d_lookup k (items d) with Some x => x | None => VNone end)
             (length (heap st)) (S (length (heap st)))), st').
Proof.
  intros Hd Hh Hk Hp.
  set (n := length (heap st)).
  assert (Hln : l < n) by (eapply lookup_lt_Some; eauto).
  pose proof (enter_writes st) as HW. fold n in HW.
  pose proof (enter_length st) as Hlen. fold n in Hlen.
  rewrite journal_eq, bind_eq.
  rewrite (write_new_entry call_override (journal_enter st) (S n) fresh_writes
             (VDict l) k v eq_refl HW (dict_find_empty _ _) Hk).
  rewrite Hlen.
  set (h2 := <[S (S n):=ODict (dictSet_result empty_dict k v)]>
               (<[S n:=ODict (dictSet_result fresh_writes (VDict l)
                                (VDict (S (S n))))]>
                  (heap (journal_enter st) ++ [ODict empty_dict]))).
  set (S1 := set_heap h2 (journal_enter st)).
  assert (H2l : heap S1 !! l = Some (ODict d)).
  { cbn [heap set_heap S1]. unfold h2.
    assert (length (heap (journal_enter st) ++ [ODict empty_dict])
            = S (S (S n))) by (rewrite length_app, Hlen; simpl; lia).
    rewrite !list_lookup_insert_ne by lia.
    rewrite lookup_app_l by lia. apply enter_old. exact Hd. }
  rewrite bind_eq, journal_eq.
  rewrite (read_falls_through (journal_enter S1) (length (heap S1))
             (S (length (heap S1))) l empty_dict fresh_writes d k
             eq_refl eq_refl (enter_reads S1) (enter_writes S1)
             (dict_find_empty _ _) (dict_find_empty _ _)
             (enter_old S1 l _ H2l) Hh Hk Hp).
  eexists. reflexivity.
Qed.

(** X7. Outside any journal, [write] then [read] round trip on a dict:
    when neither the value stored before nor the new value is a class
    instance, [write(d, key, v)] returns [v] and [read(d, key)] then
    returns [v] and changes nothing. *)
Theorem write_read_roundtrip (st : State) (l : loc) (d : dictobj)
  (k v : value) :
  commit_reads st = None -> commit_writes st = None ->
  heap st !! l = Some (ODict d) ->
  hashable k = true -> is_none k = false ->
  (forall x, d_lookup k (items d) = Some x -> plain x = true) ->
  plain v = true ->
  let st' := set_heap (<[l := ODict (mkDict (dkeys d)
                                       (d_store k v (items d)))]> (heap st))
                      st in
  write call_override (VDict l) k v st = (Ok v, st')
  /\ read call_override (VDict l) k st' = (Ok v, st').
Proof.
  intros Hr Hw Hd Hh Hk Hp Hv st'.
  assert (Hd' : heap st' !! l
                = Some (ODict (mkDict (dkeys d) (d_store k v (items d))))).
  { apply (lookup_after_put st l d Hd). }
  split.
  - unfold write. rewrite bind_eq. unfold get at 1. cbv beta iota.
    rewrite Hw, try_except_eq, bind_eq, Hk. cbn [negb]. cbv iota.
    rewrite (getitem_dict _ _ _ Hd), Hh.
    destruct (d_lookup k (items d)) as [x|] eqn:Hx.
    + rewrite bind_eq, checkOverride_no_table
        by (apply concept_of_plain, Hp; reflexivity).
      cbn [is_none negb]. cbv iota.
      rewrite bind_eq, (setitem_dict _ _ _ Hd) by assumption. reflexivity.
    + cbn [is_KeyError]. cbv iota.
      rewrite bind_eq, (setitem_dict _ _ _ Hd) by assumption. reflexivity.
  - unfold read. rewrite bind_eq. unfold get at 1. cbv beta iota.
    change (commit_writes st') with (commit_writes st). rewrite Hw.
    unfold try_journal at 1.
    rewrite bind_eq. unfold get at 1. cbv beta iota.
    change (commit_reads st') with (commit_reads st). rewrite Hr.
    unfold try_journal at 1.
    unfold read_storage. rewrite try_except_eq, bind_eq, Hk.
    cbn [negb]. cbv iota.
    rewrite (getitem_dict _ _ _ Hd'), Hh. cbn [items].
    rewrite d_lookup_store_same by (apply py_eqb_refl; exact Hh).
    rewrite bind_eq, checkOverride_no_table
      by (apply concept_of_plain; exact Hv).
    cbn [is_none negb]. cbv iota.
    destruct (is_none v); reflexivity.
Qed.

End FallThrough.

Lemma nested_journal_reads_storage_witness :
  exists st',
    journal (write draw_override (VDict 0) (VStr "a") (VInt 5) ;;;
             j <- journal (read draw_override (VDict 0) (VStr "a")) ;;
             ret (e_result j)) (initial heap_ab)
    = (Ok (mkEffect (VInt 1) 2 3), st').
Proof.
  apply (nested_journal_reads_storage draw_override (initial heap_ab) 0
           (mkDict None [(VStr "a", VInt 1)]) (VStr "a") (VInt 5)
           eq_refl eq_refl eq_refl).
  intros x. simpl. intros [= <-]. reflexivity.
Defined.

Lemma write_read_roundtrip_witness :
  write draw_override (VDict 0) (VStr "a") (VInt 5) (initial heap_ab)
  = (Ok (VInt 5),
     set_heap [ODict (mkDict None [(VStr "a", VInt 5)]);
               ODict (mkDict None [(VStr "b", VInt 2)])] (initial heap_ab))
  /\ read draw_override (VDict 0) (VStr "a")
       (set_heap [ODict (mkDict None [(VStr "a", VInt 5)]);
                  ODict (mkDict None [(VStr "b", VInt 2)])] (initial heap_ab))
     = (Ok (VInt 5),
        set_heap [ODict (mkDict None [(VStr "a", VInt 5)]);
                  ODict (mkDict None [(VStr "b", VInt 2)])]
                 (initial heap_ab)).
Proof.
  apply (write_read_roundtrip draw_override (initial heap_ab) 0
           (mkDict None [(VStr "a", VInt 1)]) (VStr "a") (VInt 5)
           eq_refl eq_refl eq_refl eq_refl eq_refl).
  - intros x. simpl. intros [= <-]. reflexivity.
  - reflexivity.
Defined.

(** ** The reentrancy guard of [on_goal] *)

Section Guard.

Variable call_override : ovr -> list value -> M value.
Variable class_attr : string -> option value.
Variable deviate : nat -> Z.
Hypothesis overrides_quiet : quiet_overrides call_override.

Lemma hr_refl (st : State) : heap_rng_only st st.
Proof. exists (heap st), (rng st). destruct st; reflexivity. Qed.

Lemma hr_trans (a b c : State) :
  heap_rng_only a b -> heap_rng_only b c -> heap_rng_only a c.
Proof.
  intros (h1 & n1 & ->) (h2 & n2 & ->). exists h2, n2. reflexivity.
Qed.

Lemma hr_set_heap (h : list obj) (st : State) :
  heap_rng_only st (set_heap h st).
Proof. exists h, (rng st). destruct st; reflexivity. Qed.

Lemma hr_set_rng (n : nat) (st : State) : heap_rng_only st (set_rng n st).
Proof. exists (heap st), n. reflexivity. Qed.

Lemma _dictSet_hr (tgt k v : value) (st : State) :
  heap_rng_only st (snd (_dictSet tgt k v st)).
Proof.
  destruct (as_dict (heap st) tgt) as [[l d]|] eqn:E.
  - apply as_dict_inv in E as [-> E].
    rewrite (_dictSet_dict _ _ _ _ _ E). apply hr_set_heap.
  - rewrite _dictSet_not_dict by assumption. apply hr_refl.
Qed.

Lemma _dictCreate_hr (tgt k : value) (st : State) :
  heap_rng_only st (snd (_dictCreate tgt k st)).
Proof.
  destruct (as_dict (heap st) tgt) as [[l d]|] eqn:E.
  - apply as_dict_inv in E as [-> E].
    rewrite (_dictCreate_dict _ _ _ _ E).
    destruct (dict_find d k); [apply hr_refl|apply hr_set_heap].
  - rewrite _dictCreate_not_dict by assumption. apply hr_refl.
Qed.

Lemma bind_hr {A B} (m : M A) (f : A -> M B) (st : State) :
  heap_rng_only st (snd (m st)) ->
  (forall a s, heap_rng_only s (snd (f a s))) ->
  heap_rng_only st (snd (bind m f st)).
Proof.
  intros Hm Hf. rewrite bind_eq.
  destruct (m st) as [[a|e] s]; simpl in Hm.
  - eapply hr_trans; [exact Hm|apply Hf].
  - exact Hm.
Qed.

Lemma try_except_hr {A} (m h : M A) (c : exn -> bool) (st : State) :
  heap_rng_only st (snd (m st)) ->
  (forall s, heap_rng_only s (snd (h s))) ->
  heap_rng_only st (snd (try_except m c h st)).
Proof.
  intros Hm Hh. rewrite try_except_eq.
  destruct (m st) as [[a|e] s]; simpl in Hm; [exact Hm|].
  destruct (c e); [|exact Hm].
  eapply hr_trans; [exact Hm|apply Hh].
Qed.

Lemma same_hr {A} (m : M A) (st : State) :
  snd (m st) = st -> heap_rng_only st (snd (m st)).
Proof. intros ->. apply hr_refl. Qed.

Lemma setitem_hr (tgt k v : value) (st : State) :
  heap_rng_only st (snd (setitem tgt k v st)).
Proof.
  unfold setitem. rewrite bind_eq. unfold get at 1. cbv beta iota.
  destruct (as_dict (heap st) tgt) as [[l d]|]; [|apply hr_refl].
  destruct (hashable k); [apply hr_set_heap|apply hr_refl].
Qed.

Lemma checkOverride_hr (data : value) (code : op) (args : list value)
  (st : State) :
  heap_rng_only st (snd (__checkOverride call_override data code args st)).
Proof.
  unfold __checkOverride. apply bind_hr.
  - apply try_except_hr.
    + apply bind_hr; [|intros; apply hr_refl].
      apply same_hr, concept_entry_state.
    + intros; apply hr_refl.
  - intros [[f|]|] s; [apply overrides_quiet|apply hr_refl|apply hr_refl].
Qed.

Lemma fetch_hr (dict key : value) (st : State) :
  heap_rng_only st
    (snd ((if negb (is_none key) then getitem dict key else ret dict) st)).
Proof.
  destruct (is_none key); cbn [negb]; [apply hr_refl|].
  apply same_hr, getitem_state.
Qed.

Lemma read_hr (dict key : value) (st : State) :
  heap_rng_only st (snd (read call_override dict key st)).
Proof.
  assert (Hs : forall s, heap_rng_only s
                 (snd (read_storage call_override dict key s))).
  { intros s. unfold read_storage. apply try_except_hr.
    - apply bind_hr; [apply fetch_hr|]. intros v s1.
      apply bind_hr; [apply checkOverride_hr|]. intros result s2.
      destruct (is_none result); cbn [negb]; [apply hr_refl|].
      apply bind_hr; [apply hr_refl|]. intros s3 s4.
      apply bind_hr; [|intros; apply hr_refl].
      destruct (commit_reads s3); [|apply hr_refl].
      destruct (is_none key); cbn [negb]; [apply hr_refl|].
      apply bind_hr; [apply _dictCreate_hr|]. intros; apply _dictSet_hr.
    - intros; apply hr_refl. }
  assert (Ht : forall j rest s,
             (forall s', heap_rng_only s' (snd (rest s'))) ->
             heap_rng_only s (snd (try_journal j dict key rest s))).
  { intros j rest s Hr. unfold try_journal. destruct j as [l|]; [|apply Hr].
    apply try_except_hr; [|exact Hr].
    apply same_hr, journal_lookup_state. }
  unfold read. apply bind_hr; [apply hr_refl|]. intros s0 s.
  apply Ht. intros s'. apply bind_hr; [apply hr_refl|]. intros s1 s2.
  apply Ht. exact Hs.
Qed.

Lemma write_hr (dict key new : value) (st : State) :
  heap_rng_only st (snd (write call_override dict key new st)).
Proof.
  unfold write. apply bind_hr; [apply hr_refl|]. intros s0 s.
  assert (Hstore : forall v s',
             heap_rng_only s'
               (snd (((if negb (is_none key) then setitem dict key v
                       else ret tt) ;;; ret v) s'))).
  { intros v s'. apply bind_hr; [|intros; apply hr_refl].
    destruct (is_none key); cbn [negb]; [apply hr_refl|apply setitem_hr]. }
  destruct (commit_writes s0) as [w|].
  - destruct (is_none key).
    + apply bind_hr; [apply _dictSet_hr|intros; apply hr_refl].
    + apply bind_hr; [apply _dictCreate_hr|]. intros d s1.
      apply bind_hr; [apply _dictSet_hr|intros; apply hr_refl].
  - apply try_except_hr; [|apply Hstore].
    apply bind_hr; [apply fetch_hr|]. intros prev s1.
    apply bind_hr; [apply checkOverride_hr|]. intros result s2.
    destruct (is_none result); cbn [negb]; apply Hstore.
Qed.

Lemma swd_getattr_hr (self : loc) (key : string) (st : State) :
  heap_rng_only st (snd (swd_getattr call_override class_attr self key st)).
Proof.
  unfold swd_getattr. destruct (String.eqb key "dict"); [apply hr_refl|].
  destruct (class_attr key); [apply hr_refl|]. unfold __getattr__.
  apply bind_hr; [apply read_hr|]. intros v s.
  apply bind_hr; [apply write_hr|intros; apply hr_refl].
Qed.

Lemma swd_setattr_hr (self : loc) (key : string) (v : value) (st : State) :
  heap_rng_only st (snd (swd_setattr call_override self key v st)).
Proof.
  unfold swd_setattr. apply bind_hr; [apply write_hr|intros; apply hr_refl].
Qed.

Lemma on_goal_guarded (s : strat) (st : State) :
  goal_in_goal st = false \/ goal_in_do st = true ->
  on_goal s st = (Ok tt, st).
Proof.
  intros H. unfold on_goal. rewrite bind_eq. unfold get at 1. cbv beta iota.
  destruct (goal_in_goal st); cbn [negb]; cbv iota; [|reflexivity].
  destruct H as [H|H]; [discriminate|]. rewrite H. reflexivity.
Qed.

Lemma guard_kept (st st' : State) :
  heap_rng_only st st' ->
  goal_in_goal st = false \/ goal_in_do st = true ->
  goal_in_goal st' = false \/ goal_in_do st' = true.
Proof. intros (h & n & ->) H. exact H. Qed.

(** X8. The reentrancy guard holds for whole computations: outside any
    goal, or while an optimizer runs, a computation changes the heap and
    the random source and nothing else, whatever it reads, writes or
    tries to register through [on_goal]: [goal.do], the flags, the
    baseline Effect Set and the Transaction Context stay as they are. *)
Theorem run_registers_nothing (p : comp) :
  forall st : State,
    goal_in_goal st = false \/ goal_in_do st = true ->
    exists h n,
      snd (run call_override class_attr deviate p st) = set_heap h (set_rng n st).
Proof.
  assert (Hstep : forall {A} (m : M A) (f : A -> comp) (st : State),
             (goal_in_goal st = false \/ goal_in_do st = true) ->
             heap_rng_only st (snd (m st)) ->
             (forall a s, goal_in_goal s = false \/ goal_in_do s = true ->
                          heap_rng_only s
                            (snd (run call_override class_attr deviate (f a) s))) ->
             heap_rng_only st
               (snd ((x <- m ;; run call_override class_attr deviate (f x)) st))).
  { intros A m f st Hg Hm Hf. rewrite bind_eq.
    destruct (m st) as [[a|e] s]; simpl in Hm; [|exact Hm].
    eapply hr_trans; [exact Hm|]. apply Hf. eapply guard_kept; eauto. }
  induction p as [v|e|c k cont IH|c k v cont IH|self name cont IH
                  |self name v cont IH|cont IH|s cont IH];
    intros st Hg; simpl run; fold (heap_rng_only st).
  - apply hr_refl.
  - apply hr_refl.
  - apply Hstep; [exact Hg|apply read_hr|]. intros a s Hs. apply IH, Hs.
  - apply Hstep; [exact Hg|apply write_hr|]. intros a s Hs. apply IH, Hs.
  - apply Hstep; [exact Hg|apply swd_getattr_hr|]. intros a s Hs.
    apply IH, Hs.
  - apply (Hstep unit (swd_setattr call_override self name v)
             (fun _ => cont)); [exact Hg|apply swd_setattr_hr|].
    intros a s Hs. apply IH, Hs.
  - apply (Hstep Z (uniform deviate) cont); [exact Hg|apply hr_set_rng|].
    intros a s Hs. apply IH, Hs.
  - apply (Hstep unit (on_goal s) (fun _ => cont)); [exact Hg| |].
    + rewrite on_goal_guarded by assumption. apply hr_refl.
    + intros a s' Hs. apply IH, Hs.
Qed.

End Guard.

Lemma run_registers_nothing_witness :
  exists h n,
    snd (run draw_override slots_attr Z.of_nat
           (OnGoal (Repeat 2) (Read (VObj 1) VNone (fun x => Ret x)))
           (initial heap_a1))
    = set_heap h (set_rng n (initial heap_a1)).
Proof.
  apply (run_registers_nothing draw_override slots_attr Z.of_nat).
  - intros o args st. apply hr_set_rng.
  - left. reflexivity.
Defined.

(** ** Stacked strategies and [maximize] *)

Section Stacked.

Variable call_strategy : nat -> (value -> Z) -> M value -> M value.

Lemma register_more (rest : list strat) :
  forall (o : optimizer) (st : State),
    goal_in_goal st = true -> goal_in_do st = false ->
    goal_do st = Some o ->
    register_all rest st
    = (Ok tt, set_do (Some (fold_left Combine rest o)) st).
Proof.
  induction rest as [|s rest IH]; intros o st H1 H2 H3; simpl.
  - unfold ret. f_equal. destruct st; simpl in *. subst. reflexivity.
  - rewrite bind_eq. unfold on_goal at 1. rewrite bind_eq.
    unfold get at 1. cbv beta iota. rewrite H1, H2, H3.
    cbn [negb]. cbv iota. unfold modify at 1. cbv beta iota.
    rewrite (IH (Combine o s) (set_do (Some (Combine o s)) st));
      try assumption; reflexivity.
Qed.

Lemma apply_chain (measure : value -> Z) (rest : list strat) :
  forall (o : optimizer) (func : M value),
    apply_optimizer call_strategy (fold_left Combine rest o) measure func
    = apply_optimizer call_strategy o measure
        (nest call_strategy measure rest func).
Proof.
  induction rest as [|s rest IH]; intros o func; simpl.
  - reflexivity.
  - rewrite IH. reflexivity.
Qed.

(** X9. Priority for any number of strategies: registering
    [s, s1, ..., sn] in this order in an open Goal Frame leaves in
    [goal.do] an optimizer whose call runs [s] with, as its [func], the
    computation that runs [s1] with, as its [func], the computation that
    runs [s2], and so on; the last strategy receives the original
    computation. *)
Theorem registration_order_is_priority (s : strat) (rest : list strat) :
  (forall st : State,
      goal_in_goal st = true -> goal_in_do st = false -> goal_do st = None ->
      register_all (s :: rest) st
      = (Ok tt, set_do (Some (chain s rest)) st))
  /\ (forall (measure : value -> Z) (func : M value),
         apply_optimizer call_strategy (chain s rest) measure func
         = apply_strat call_strategy s measure
             (nest call_strategy measure rest func)).
Proof.
  split.
  - intros st H1 H2 H3. simpl register_all.
    rewrite bind_eq. unfold on_goal at 1. rewrite bind_eq.
    unfold get at 1. cbv beta iota. rewrite H1, H2, H3.
    cbn [negb]. cbv iota. unfold modify at 1. cbv beta iota.
    rewrite (register_more rest (Single s) (set_do (Some (Single s)) st));
      try assumption; reflexivity.
  - intros measure func. unfold chain. rewrite apply_chain. reflexivity.
Qed.

(** X10. [maximize] with a computation: the strategy it registers runs
    under the negated measure, so what it commits and returns is the
    first result of largest measure among the baseline and the [tries]
    resampled runs. *)
Theorem maximize_picks_maximum (tries : Z) (measure : value -> Z)
  (func : M value) (st st1 : State) (j0 : effect) (js : list effect) :
  goal_journaled st = Some j0 ->
  resample (Z.to_nat tries) func st = (Ok js, st1) ->
  let neg := fun r => - measure r in
  committable (heap st1) (e_writes (pick_best neg j0 js)) = true ->
  let best := pick_best neg j0 js in
  (forall (f : M value) (s : State),
      maximize call_strategy measure (Some f) tries s
      = goal call_strategy neg (on_goal (Repeat tries) ;;; f) s)
  /\ apply_strat call_strategy (Repeat tries) neg func st
     = commit best false st1
  /\ fst (commit best false st1) = Ok (e_result best)
  /\ measure (e_result j0) <= measure (e_result best)
  /\ Forall (fun j => measure (e_result j) <= measure (e_result best)) js
  /\ exists pre post,
       j0 :: js = pre ++ best :: post
       /\ Forall (fun j => measure (e_result j) < measure (e_result best)) pre.
Proof.
  intros Hj Hrs neg Hc best.
  pose proof (pick_best_le_all neg j0 js) as Hle.
  inversion Hle as [|? ? Hle0 Hles]; subst.
  split; [reflexivity|].
  split; [|split; [|split; [|split]]].
  - simpl apply_strat. unfold minimize_repeat.
    rewrite bind_eq. unfold get at 1. cbv beta iota.
    rewrite Hj. rewrite bind_eq, commit_dont.
    rewrite bind_eq, repeat_loop_resample, bind_eq, Hrs. reflexivity.
  - destruct (commit_ok best st1 Hc) as [h' Hh']. rewrite Hh'. reflexivity.
  - subst best neg. cbv beta in *. lia.
  - eapply Forall_impl; [exact Hles|]. intros j Hjj.
    subst best neg. cbv beta in *. lia.
  - destruct (pick_best_first_min neg j0 js) as (pre & post & Heq & Hpre & _).
    exists pre, post. split; [exact Heq|].
    eapply Forall_impl; [exact Hpre|]. intros j Hjj.
    subst best neg. cbv beta in *. lia.
Qed.

(** X11. Called without a computation, [minimize] and [maximize] register
    the same strategy and ignore the measure they are given: the closure
    [repeat] takes its measure from the enclosing [goal].  Whatever
    measures are passed to them, a goal whose computation starts by
    calling one or the other behaves the same, and minimises the measure
    of the goal. *)
Theorem in_body_measure_is_ignored (m m1 m2 : value -> Z) (tries : Z)
  (f : M value) (st : State) :
  goal call_strategy m (maximize call_strategy m1 None tries ;;; f) st
  = goal call_strategy m (minimize call_strategy m2 None tries ;;; f) st
  /\ (goal_in_goal st = true -> goal_in_do st = false ->
      goal_do st = None ->
      maximize call_strategy m1 None tries st
      = (Ok VNone, set_do (Some (Single (Repeat tries))) st))
  /\ apply_optimizer call_strategy (Single (Repeat tries)) m f
     = minimize_repeat tries m f.
Proof.
  split; [reflexivity|]. split; [|reflexivity].
  intros H1 H2 H3. unfold maximize, minimize, on_goal.
  rewrite !bind_eq. unfold get at 1. cbv beta iota.
  rewrite H1, H2, H3. reflexivity.
Qed.

End Stacked.

(** ** Attribute access of a static storage *)

Section Attributes.
Local Open Scope nat_scope.

Variable call_override : ovr -> list value -> M value.
Variable class_attr : string -> option value.

(** A keyed write to a container that already has a sub-buffer. *)
Lemma write_old_entry (st : State) (w m : loc) (W sub : dictobj)
  (c k v : value) :
  commit_writes st = Some w ->
  heap st !! w = Some (ODict W) ->
  dict_find W c = Some (VDict m) ->
  heap st !! m = Some (ODict sub) ->
  is_none k = false ->
  write call_override c k v st
  = (Ok VNone,
     set_heap (<[m := ODict (dictSet_result sub k v)]> (heap st)) st).
Proof.
  intros Hw HW Hf Hm Hk.
  unfold write. rewrite bind_eq. unfold get at 1. cbv beta iota.
  rewrite Hw, Hk, bind_eq, (_dictCreate_dict _ _ _ _ HW), Hf.
  rewrite bind_eq, (_dictSet_dict _ _ _ _ _ Hm). reflexivity.
Qed.

Lemma set_same_field (name : string) (v : value) :
  dictSet_result (mkDict None [(VStr name, v)]) (VStr name) v
  = mkDict None [(VStr name, v)].
Proof.
  unfold dictSet_result. cbn [hashable dkeys items d_store py_eqb].
  rewrite String.eqb_refl. reflexivity.
Qed.

(** The state after [static.name = v] in a journal just entered, and
    what the read and the write-back of [static.name] do there. *)
Lemma setattr_then_getattr (st : State) (self : loc) (d : dictobj)
  (name : string) (v : value) :
  heap st !! self = Some (ODict d) ->
  name <> "dict"%string -> class_attr name = None ->
  let n := length (heap st) in
  let h2 := <[S (S n) := ODict (mkDict None [(VStr name, v)])]>
              (<[S n := ODict (mkDict (Some [VDict self])
                                 [(VId self, VDict (S (S n)))])]>
                 (heap (journal_enter st) ++ [ODict empty_dict])) in
  swd_setattr call_override self name v (journal_enter st)
  = (Ok tt, set_heap h2 (journal_enter st))
  /\ swd_getattr call_override class_attr self name (set_heap h2 (journal_enter st))
     = (Ok v, set_heap h2 (journal_enter st))
  /\ h2 !! self = Some (ODict d)
  /\ h2 !! S n = Some (ODict (mkDict (Some [VDict self])
                                [(VId self, VDict (S (S n)))]))
  /\ h2 !! S (S n) = Some (ODict (mkDict None [(VStr name, v)])).
Proof.
  intros Hd Hname Hcls n h2.
  assert (Hln : self < n) by (eapply lookup_lt_Some; eauto).
  pose proof (enter_writes st) as HW. fold n in HW.
  pose proof (enter_length st) as Hlen. fold n in Hlen.
  assert (Hlen1 : length (heap (journal_enter st) ++ [ODict empty_dict])
                  = S (S (S n)))
    by (rewrite length_app, Hlen; simpl; lia).
  assert (H2w : h2 !! S n
                = Some (ODict (mkDict (Some [VDict self])
                                 [(VId self, VDict (S (S n)))]))).
  { unfold h2. rewrite list_lookup_insert_ne by lia.
    apply list_lookup_insert_eq. lia. }
  assert (H2m : h2 !! S (S n) = Some (ODict (mkDict None [(VStr name, v)]))).
  { unfold h2. apply list_lookup_insert_eq. rewrite length_insert. lia. }
  assert (H2l : h2 !! self = Some (ODict d)).
  { unfold h2. rewrite !list_lookup_insert_ne by lia.
    rewrite lookup_app_l by lia. apply enter_old. exact Hd. }
  assert (Hfind : dict_find (mkDict (Some [VDict self])
                               [(VId self, VDict (S (S n)))]) (VDict self)
                  = Some (VDict (S (S n)))).
  { unfold dict_find. cbn -[Nat.eqb]. rewrite Nat.eqb_refl. reflexivity. }
  assert (Hsub : dict_find (mkDict None [(VStr name, v)]) (VStr name)
                 = Some v).
  { unfold dict_find. cbn [id_of hashable items d_lookup py_eqb].
    rewrite String.eqb_refl. reflexivity. }
  split; [|split; [|auto]].
  - unfold swd_setattr. rewrite bind_eq.
    rewrite (write_new_entry call_override (journal_enter st) (S n)
               fresh_writes (VDict self) (VStr name) v eq_refl HW
               (dict_find_empty _ _) eq_refl).
    rewrite Hlen. reflexivity.
  - unfold swd_getattr. apply String.eqb_neq in Hname. rewrite Hname, Hcls.
    unfold __getattr__. rewrite bind_eq.
    rewrite (read_buffered call_override (set_heap h2 (journal_enter st))
               (S n) (S (S n)) _ _ (VDict self) (VStr name) v
               eq_refl H2w Hfind H2m Hsub eq_refl).
    rewrite bind_eq.
    rewrite (write_old_entry (set_heap h2 (journal_enter st)) (S n)
               (S (S n)) _ _ (VDict self) (VStr name) v
               eq_refl H2w Hfind H2m eq_refl).
    rewrite set_same_field. cbn [heap set_heap].
    rewrite list_insert_id by exact H2m. reflexivity.
Qed.

(** X12. Attribute round trip in a journal, for a name that ordinary
    attribute lookup does not find (so that [__getattr__] serves the
    read): after [static.name = v], the read [static.name] returns [v] as
    it is, for every value [v] (class instances included: the buffered
    value is returned without consulting its [read] override), and
    [commit] stores [v] in the field. *)
Theorem setattr_getattr_roundtrip (st : State) (self : loc) (d : dictobj)
  (name : string) (v : value) :
  heap st !! self = Some (ODict d) ->
  name <> "dict"%string -> class_attr name = None ->
  exists st2,
    (j <- journal (swd_setattr call_override self name v ;;;
                   swd_getattr call_override class_attr self name) ;;
     commit j false) st
    = (Ok v, st2)
    /\ heap st2 !! self
       = Some (ODict (mkDict (dkeys d) (d_store (VStr name) v (items d)))).
Proof.
  intros Hd Hname Hcls.
  destruct (setattr_then_getattr st self d name v Hd Hname Hcls)
    as (Hset & Hget & H2l & H2w & H2m).
  rewrite bind_eq, journal_eq, bind_eq, Hset, Hget.
  match goal with
  | |- context [journal_leave st (set_heap ?h _)] => set (h2 := h) in *
  end.
  set (st1 := journal_leave st (set_heap h2 (journal_enter st))).
  rewrite (commit_one_container st1 v (length (heap st))
             (S (length (heap st))) self (S (S (length (heap st)))) d
             (mkDict None [(VStr name, v)]) H2w H2l H2m).
  eexists. split; [reflexivity|].
  cbn [heap set_heap]. apply list_lookup_insert_eq.
  eapply lookup_lt_Some. exact H2l.
Qed.

End Attributes.

Section Deletion.
Local Open Scope nat_scope.

Variable call_override : ovr -> list value -> M value.
Variable class_attr : string -> option value.

(** An attribute read that the write journal answers: the value is
    returned and written back, which changes nothing. *)
Lemma getattr_buffered (s : State) (w m self : loc) (name : string)
  (v : value) :
  name <> "dict"%string -> class_attr name = None ->
  commit_writes s = Some w ->
  heap s !! w = Some (ODict (mkDict (Some [VDict self])
                               [(VId self, VDict m)])) ->
  heap s !! m = Some (ODict (mkDict None [(VStr name, v)])) ->
  swd_getattr call_override class_attr self name s = (Ok v, s).
Proof.
  intros Hname Hcls Hw HW Hm.
  assert (Hfind : dict_find (mkDict (Some [VDict self])
                               [(VId self, VDict m)]) (VDict self)
                  = Some (VDict m)).
  { unfold dict_find. cbn -[Nat.eqb]. rewrite Nat.eqb_refl. reflexivity. }
  assert (Hsub : dict_find (mkDict None [(VStr name, v)]) (VStr name)
                 = Some v).
  { unfold dict_find. cbn [id_of hashable items d_lookup py_eqb].
    rewrite String.eqb_refl. reflexivity. }
  unfold swd_getattr. apply String.eqb_neq in Hname. rewrite Hname, Hcls.
  unfold __getattr__. rewrite bind_eq.
  rewrite (read_buffered call_override s w m _ _ (VDict self) (VStr name) v
             Hw HW Hfind Hm Hsub eq_refl).
  rewrite bind_eq.
  rewrite (write_old_entry call_override s w m _ _ (VDict self) (VStr name) v
             Hw HW Hfind Hm eq_refl).
  rewrite set_same_field, list_insert_id by exact Hm.
  rewrite set_heap_same. reflexivity.
Qed.

Lemma delitem_dict (st : State) (l : loc) (d : dictobj) (k : value) :
  heap st !! l = Some (ODict d) -> hashable k = true ->
  delitem (VDict l) k st
  = if d_mem k (items d)
    then (Ok tt,
          set_heap (<[l := ODict (mkDict (dkeys d) (d_remove k (items d)))]>
                      (heap st)) st)
    else (Raise KeyError, st).
Proof.
  intros Hd Hh. unfold delitem. rewrite bind_eq. unfold get at 1.
  cbv beta iota. rewrite (as_dict_lookup _ _ _ Hd), Hh.
  destruct (d_mem k (items d)); reflexivity.
Qed.

(** X13. [__delattr__] is not journaled.  For a name that ordinary
    attribute lookup does not find, inside a journal, after
    [static.name = v]: [del static.name] removes the field from the live
    storage at once, the buffered write survives it (the next
    [static.name] still returns [v]) and [commit] stores the field again;
    and when the storage has no such field, [del static.name] fails with
    [KeyError] although the field was just written. *)
Theorem delattr_is_not_journaled (st : State) (self : loc) (d : dictobj)
  (name : string) (v : value) :
  heap st !! self = Some (ODict d) ->
  name <> "dict"%string -> class_attr name = None ->
  let n := length (heap st) in
  let body := swd_setattr call_override self name v ;;;
              (swd_delattr self name ;;;
               swd_getattr call_override class_attr self name) in
  (d_mem (VStr name) (items d) = true ->
   exists st1 st2,
     journal body st = (Ok (mkEffect v n (S n)), st1)
     /\ heap st1 !! self
        = Some (ODict (mkDict (dkeys d) (d_remove (VStr name) (items d))))
     /\ commit (mkEffect v n (S n)) false st1 = (Ok v, st2)
     /\ heap st2 !! self
        = Some (ODict (mkDict (dkeys d)
                         (d_store (VStr name) v
                            (d_remove (VStr name) (items d))))))
  /\ (d_mem (VStr name) (items d) = false ->
      exists st1,
        journal body st = (Raise KeyError, st1)
        /\ heap st1 !! self = Some (ODict d)).
Proof.
  intros Hd Hname Hcls n body.
  destruct (setattr_then_getattr call_override class_attr st self d name v
              Hd Hname Hcls)
    as (Hset & _ & H2l & H2w & H2m).
  fold n in Hset, H2l, H2w, H2m.
  match type of Hset with
  | _ = (_, set_heap ?h _) => set (h2 := h) in *
  end.
  set (S1 := set_heap h2 (journal_enter st)).
  assert (Hln : self < n) by (eapply lookup_lt_Some; eauto).
  assert (Hdel : swd_delattr self name S1
                 = if d_mem (VStr name) (items d)
                   then (Ok tt,
                         set_heap (<[self := ODict (mkDict (dkeys d)
                                      (d_remove (VStr name) (items d)))]> h2)
                                  S1)
                   else (Raise KeyError, S1)).
  { unfold swd_delattr. apply (delitem_dict S1 self d (VStr name) H2l).
    reflexivity. }
  split; intros Hmem; rewrite Hmem in Hdel.
  - set (D' := mkDict (dkeys d) (d_remove (VStr name) (items d))) in *.
    set (h3 := <[self := ODict D']> h2) in *.
    assert (H3l : h3 !! self = Some (ODict D')).
    { unfold h3. apply list_lookup_insert_eq. eapply lookup_lt_Some; eauto. }
    assert (H3w : h3 !! S n = h2 !! S n)
      by (unfold h3; apply list_lookup_insert_ne; lia).
    assert (H3m : h3 !! S (S n) = h2 !! S (S n))
      by (unfold h3; apply list_lookup_insert_ne; lia).
    rewrite H2w in H3w. rewrite H2m in H3m.
    set (st1 := journal_leave st (set_heap h3 S1)).
    exists st1. eexists.
    assert (Hj : journal body st = (Ok (mkEffect v n (S n)), st1)).
    { rewrite journal_eq. unfold body. rewrite bind_eq, Hset.
      fold S1. rewrite bind_eq, Hdel.
      rewrite (getattr_buffered (set_heap h3 S1) (S n) (S (S n)) self name v
                 Hname Hcls eq_refl H3w H3m).
      reflexivity. }
    split; [exact Hj|]. split; [exact H3l|].
    rewrite (commit_one_container st1 v n (S n) self (S (S n)) D'
               (mkDict None [(VStr name, v)]) H3w H3l H3m).
    split; [reflexivity|].
    cbn [heap set_heap]. apply list_lookup_insert_eq.
    eapply lookup_lt_Some. exact H3l.
  - exists S1. split; [|exact H2l].
    rewrite journal_eq. unfold body. rewrite bind_eq, Hset.
    fold S1. rewrite bind_eq, Hdel. reflexivity.
Qed.

End Deletion.

(** ** The further properties at concrete inputs *)

Lemma registration_order_is_priority_witness :
  register_all [UserStrat 0; UserStrat 1; UserStrat 2]
    (set_in_goal true (initial []))
  = (Ok tt,
     set_do (Some (Combine (Combine (Single (UserStrat 0)) (UserStrat 1))
                     (UserStrat 2)))
            (set_in_goal true (initial [])))
  /\ apply_optimizer demo_strategy
       (chain (UserStrat 0) [UserStrat 1; UserStrat 2]) demo_measure
       (ret VNone) (initial [])
     = (Ok (VInt 1), initial []).
Proof.
  split.
  - exact (proj1 (registration_order_is_priority demo_strategy (UserStrat 0)
                    [UserStrat 1; UserStrat 2])
             (set_in_goal true (initial [])) eq_refl eq_refl eq_refl).
  - rewrite (proj2 (registration_order_is_priority demo_strategy
                      (UserStrat 0) [UserStrat 1; UserStrat 2])).
    reflexivity.
Defined.

Lemma maximize_picks_maximum_witness :
  exists st',
    apply_strat pass_strategy (Repeat 2) (fun r => - demo_measure r)
      demo_func demo_state = (Ok (VInt 9), st')
    /\ heap st' !! 0%nat = Some (ODict (mkDict None [(VStr "a", VInt 9)]))
    /\ demo_measure (e_result demo_j0) <= demo_measure (VInt 9).
Proof.
  assert (Hj : goal_journaled demo_state = Some demo_j0) by reflexivity.
  assert (Hrs : resample (Z.to_nat 2) demo_func demo_state
                = (Ok demo_js, snd demo_runs)) by (vm_compute; reflexivity).
  destruct (maximize_picks_maximum pass_strategy 2 demo_measure demo_func
              demo_state (snd demo_runs) demo_j0 demo_js Hj Hrs)
    as (_ & Heq & _ & Hb & _).
  - vm_compute. reflexivity.
  - exists (snd (commit (pick_best (fun r => - demo_measure r) demo_j0 demo_js)
                   false (snd demo_runs))).
    split; [rewrite Heq; vm_compute; reflexivity|].
    split; [vm_compute; reflexivity|exact Hb].
Defined.

Lemma in_body_measure_is_ignored_witness :
  maximize pass_strategy demo_measure None 2 (set_in_goal true (initial []))
  = (Ok VNone,
     set_do (Some (Single (Repeat 2))) (set_in_goal true (initial []))).
Proof.
  exact (proj1 (proj2 (in_body_measure_is_ignored pass_strategy
                         demo_measure demo_measure demo_measure 2
                         (ret VNone) (set_in_goal true (initial []))))
           eq_refl eq_refl eq_refl).
Defined.

Lemma setattr_getattr_roundtrip_witness :
  exists st2,
    (j <- journal (swd_setattr draw_override 0 "a" (VObj 1) ;;;
                   swd_getattr draw_override slots_attr 0 "a") ;;
     commit j false) (initial heap_a1)
    = (Ok (VObj 1), st2)
    /\ heap st2 !! 0%nat = Some (ODict (mkDict None [(VStr "a", VObj 1)])).
Proof.
  apply (setattr_getattr_roundtrip draw_override slots_attr
           (initial heap_a1) 0
           (mkDict None [(VStr "a", VInt 1)]) "a" (VObj 1) eq_refl).
  - discriminate.
  - reflexivity.
Defined.

Lemma delattr_is_not_journaled_witness :
  (exists st1 st2,
      journal (swd_setattr draw_override 0 "a" (VInt 5) ;;;
               (swd_delattr 0 "a" ;;; swd_getattr draw_override slots_attr 0 "a"))
              (initial heap_ab)
      = (Ok (mkEffect (VInt 5) 2 3), st1)
      /\ heap st1 !! 0%nat = Some (ODict (mkDict None []))
      /\ commit (mkEffect (VInt 5) 2 3) false st1 = (Ok (VInt 5), st2)
      /\ heap st2 !! 0%nat = Some (ODict (mkDict None [(VStr "a", VInt 5)])))
  /\ (exists st1,
         journal (swd_setattr draw_override 1 "a" (VInt 5) ;;;
                  (swd_delattr 1 "a" ;;; swd_getattr draw_override slots_attr 1 "a"))
                 (initial heap_ab)
         = (Raise KeyError, st1)
         /\ heap st1 !! 1%nat
            = Some (ODict (mkDict None [(VStr "b", VInt 2)]))).
Proof.
  split.
  - apply (proj1 (delattr_is_not_journaled draw_override slots_attr
                    (initial heap_ab) 0
                    (mkDict None [(VStr "a", VInt 1)]) "a" (VInt 5) eq_refl
                    ltac:(discriminate) eq_refl)).
    reflexivity.
  - apply (proj2 (delattr_is_not_journaled draw_override slots_attr
                    (initial heap_ab) 1
                    (mkDict None [(VStr "b", VInt 2)]) "a" (VInt 5) eq_refl
                    ltac:(discriminate) eq_refl)).
    reflexivity.
Defined.

(** ** Static storage *)

Section StaticStorage.
Local Open Scope nat_scope.

Variable call_override : ovr -> list value -> M value.
Variable class_attr : string -> option value.

Lemma lookup_kwargs (kwargs : list (string * value)) (name : string)
  (v : value) :
  List.NoDup (map fst kwargs) -> In (name, v) kwargs ->
  d_lookup (VStr name) (kwargs_items kwargs) = Some v.
Proof.
  induction kwargs as [|[n' v'] kw IH]; intros Hnd Hin; [destruct Hin|].
  simpl in Hnd. apply List.NoDup_cons_iff in Hnd as [Hnotin Hnd].
  simpl. destruct (String.eqb n' name) eqn:E.
  - apply String.eqb_eq in E. subst n'.
    destruct Hin as [Heq|Hin]; [congruence|].
    exfalso. apply Hnotin. apply (in_map fst) in Hin. exact Hin.
  - destruct Hin as [Heq|Hin].
    + injection Heq as -> ->. rewrite String.eqb_refl in E. discriminate.
    + apply IH; assumption.
Qed.

Lemma d_store_same_value (k v : value) (its : list (value * value)) :
  d_lookup k its = Some v -> d_store k v its = its.
Proof.
  induction its as [|[k' v'] its IH]; simpl; [discriminate|].
  destruct (py_eqb k' k).
  - intros [= ->]. reflexivity.
  - intros H. rewrite IH by assumption. reflexivity.
Qed.

(** A direct read of a plain stored value. *)
Lemma read_direct_plain (st : State) (l : loc) (d : dictobj) (k x : value) :
  commit_reads st = None -> commit_writes st = None ->
  heap st !! l = Some (ODict d) ->
  hashable k = true -> is_none k = false ->
  d_lookup k (items d) = Some x -> plain x = true ->
  read call_override (VDict l) k st = (Ok x, st).
Proof.
  intros Hr Hw Hd Hh Hk Hx Hp.
  unfold read. rewrite bind_eq. unfold get at 1. cbv beta iota.
  rewrite Hw. unfold try_journal at 1.
  rewrite bind_eq. unfold get at 1. cbv beta iota.
  rewrite Hr. unfold try_journal at 1.
  unfold read_storage. rewrite try_except_eq, bind_eq, Hk.
  cbn [negb]. cbv iota.
  rewrite (getitem_dict _ _ _ Hd), Hh, Hx.
  rewrite bind_eq, checkOverride_no_table
    by (apply concept_of_plain; exact Hp).
  cbn [is_none negb]. cbv iota. destruct (is_none x); reflexivity.
Qed.

(** X14. A static storage reads back what it was declared with: outside
    any journal, after [static(name=v, ...)], the attribute read of a
    declared field whose value is no class instance, and whose name
    ordinary attribute lookup does not find, returns the declared value,
    and its write-back leaves the storage exactly as declared. *)
Theorem static_field_reads_back (st : State)
  (kwargs : list (string * value)) (name : string) (v : value) :
  commit_reads st = None -> commit_writes st = None ->
  List.NoDup (map fst kwargs) -> In (name, v) kwargs ->
  plain v = true -> name <> "dict"%string -> class_attr name = None ->
  (self <- static kwargs ;;
   funcModifier self
     (fun dict => swd_getattr call_override class_attr dict name)) st
  = (Ok v,
     set_heap (heap st ++ [ODict (mkDict None (kwargs_items kwargs))]) st).
Proof.
  intros Hr Hw Hnd Hin Hp Hname Hcls.
  rewrite bind_eq. unfold static, alloc, funcModifier. cbv beta iota.
  set (d := mkDict None (kwargs_items kwargs)).
  set (st1 := set_heap (heap st ++ [ODict d]) st).
  assert (Hd : heap st1 !! length (heap st) = Some (ODict d))
    by apply lookup_fresh.
  assert (Hx : d_lookup (VStr name) (items d) = Some v)
    by (apply lookup_kwargs; assumption).
  unfold swd_getattr. apply String.eqb_neq in Hname. rewrite Hname, Hcls.
  unfold __getattr__. rewrite bind_eq.
  rewrite (read_direct_plain st1 (length (heap st)) d (VStr name) v
             Hr Hw Hd eq_refl eq_refl Hx Hp).
  rewrite bind_eq.
  destruct (write_read_roundtrip call_override st1 (length (heap st)) d
              (VStr name) v Hr Hw Hd eq_refl eq_refl) as [Hwr _].
  { intros x Hx'. rewrite Hx in Hx'. injection Hx' as <-. exact Hp. }
  { exact Hp. }
  rewrite Hwr. rewrite d_store_same_value by exact Hx.
  unfold ret. f_equal.
  change (mkDict (dkeys d) (items d)) with d.
  rewrite list_insert_id by exact Hd. apply set_heap_same.
Qed.

End StaticStorage.

Lemma static_field_reads_back_witness :
  (self <- static [("a"%string, VInt 1); ("b"%string, VInt 2)] ;;
   funcModifier self
     (fun dict => swd_getattr draw_override slots_attr dict "b"))
    (initial [])
  = (Ok (VInt 2),
     set_heap [ODict (mkDict None [(VStr "a", VInt 1); (VStr "b", VInt 2)])]
              (initial [])).
Proof.
  apply (static_field_reads_back draw_override slots_attr (initial [])
           [("a"%string, VInt 1); ("b"%string, VInt 2)] "b" (VInt 2)
           eq_refl eq_refl).
  - repeat constructor; simpl; intuition discriminate.
  - right. left. reflexivity.
  - reflexivity.
  - discriminate.
  - reflexivity.
Defined.

(** ** The keys of a dict built by [_dictSet] *)

Section BuiltKeys.

Lemma py_eqb_sym (a b : value) : py_eqb a b = py_eqb b a.
Proof.
  destruct a, b; simpl; try reflexivity.
  - destruct b, b0; reflexivity.
  - apply Z.eqb_sym.
  - apply Z.eqb_sym.
  - apply Z.eqb_sym.
  - apply String.eqb_sym.
  - apply Nat.eqb_sym.
  - apply Nat.eqb_sym.
Qed.

Lemma py_eqb_VId (x : value) (c : loc) :
  py_eqb x (VId c) = true -> x = VId c.
Proof.
  destruct x; simpl; try discriminate.
  intros H. apply Nat.eqb_eq in H. subst. reflexivity.
Qed.

Lemma d_mem_in (k : value) (its : list (value * value)) :
  d_mem k its = true <->
  exists x, In x (map fst its) /\ py_eqb x k = true.
Proof.
  unfold d_mem. induction its as [|[k' v'] its IH]; simpl.
  - split; [discriminate|intros (x & [] & _)].
  - destruct (py_eqb k' k) eqn:E.
    + split; [intros _; exists k'; auto|reflexivity].
    + rewrite IH. split.
      * intros (x & Hin & Hx). exists x. auto.
      * intros (x & [<-|Hin] & Hx); [congruence|]. exists x. auto.
Qed.

Lemma d_mem_store_same (k v : value) (its : list (value * value)) :
  py_eqb k k = true -> d_mem k (d_store k v its) = true.
Proof.
  intros H. unfold d_mem. rewrite d_lookup_store_same by assumption.
  reflexivity.
Qed.

Lemma map_fst_store (k v : value) (its : list (value * value)) :
  map fst (d_store k v its)
  = if d_mem k its then map fst its else map fst its ++ [k].
Proof.
  unfold d_mem. induction its as [|[k' v'] its IH]; simpl; [reflexivity|].
  destruct (py_eqb k' k); simpl; [reflexivity|].
  rewrite IH. destruct (d_lookup k its); reflexivity.
Qed.

Lemma d_mem_store_mono (x k v : value) (its : list (value * value)) :
  d_mem x its = true -> d_mem x (d_store k v its) = true.
Proof.
  rewrite !d_mem_in. intros (y & Hin & Hy). exists y. split; [|exact Hy].
  rewrite map_fst_store. destruct (d_mem k its); [exact Hin|].
  apply in_or_app. left. exact Hin.
Qed.

Lemma d_mem_store_back (x k v : value) (its : list (value * value)) :
  d_mem x (d_store k v its) = true ->
  d_mem x its = true \/ py_eqb k x = true.
Proof.
  rewrite !d_mem_in. intros (y & Hin & Hy).
  rewrite map_fst_store in Hin. destruct (d_mem k its).
  - left. exists y. auto.
  - apply in_app_or in Hin as [Hin|[<-|[]]]; [left; exists y; auto|].
    right. exact Hy.
Qed.

Lemma distinct_store (k v : value) (its : list (value * value)) :
  distinct its -> distinct (d_store k v its).
Proof.
  induction its as [|[k' v'] its IH]; simpl.
  - intros _. split; [reflexivity|exact I].
  - intros [Hk' Hd]. destruct (py_eqb k' k) eqn:E; simpl.
    + split; assumption.
    + split; [|apply IH; exact Hd].
      destruct (d_mem k' (d_store k v its)) eqn:M; [|reflexivity].
      apply d_mem_store_back in M as [M|M]; [congruence|].
      rewrite py_eqb_sym in M. congruence.
Qed.

Lemma distinct_NoDup (its : list (value * value)) :
  distinct its ->
  (forall x, In x (map fst its) -> hashable x = true) ->
  List.NoDup (map fst its).
Proof.
  induction its as [|[k v] its IH]; simpl; intros Hd Hh.
  - constructor.
  - destruct Hd as [Hk Hd]. constructor.
    + intros Hin.
      assert (M : d_mem k its = true).
      { apply d_mem_in. exists k. split; [exact Hin|].
        apply py_eqb_refl, Hh. left. reflexivity. }
      congruence.
    + apply IH; [exact Hd|]. intros x Hx. apply Hh. right. exact Hx.
Qed.

Lemma keys_inv_empty : keys_inv [] empty_dict.
Proof.
  unfold keys_inv, listed. simpl.
  repeat split; try constructor; intros; try contradiction.
Qed.

Lemma in_map_fst_snoc (hist : list (value * value)) (kv : value * value)
  (x : value) :
  In x (map fst hist) -> In x (map fst (hist ++ [kv])).
Proof.
  intros H. rewrite map_app. apply in_or_app. left. exact H.
Qed.

Lemma in_map_fst_last (hist : list (value * value)) (kv : value * value) :
  In (fst kv) (map fst (hist ++ [kv])).
Proof. rewrite map_app. apply in_or_app. right. left. reflexivity. Qed.

End BuiltKeys.

Section BuiltKeysInvariant.

Lemma listed_hashable (d : dictobj) (key v : value) :
  hashable key = true -> listed (dictSet_result d key v) = listed d.
Proof. intros H. unfold dictSet_result. rewrite H. reflexivity. Qed.

Lemma listed_unhashable (d : dictobj) (c : loc) (v : value) :
  listed (dictSet_result d (VDict c) v)
  = if d_mem (VId c) (items d) then listed d else listed d ++ [VDict c].
Proof.
  unfold dictSet_result, listed. simpl.
  destruct (d_mem (VId c) (items d)); reflexivity.
Qed.

Lemma d_mem_VId (c : loc) (its : list (value * value)) :
  d_mem (VId c) its = true <-> In (VId c) (map fst its).
Proof.
  rewrite d_mem_in. split.
  - intros (x & Hin & Hx). apply py_eqb_VId in Hx. subst. exact Hin.
  - intros Hin. exists (VId c). split; [exact Hin|]. simpl.
    apply Nat.eqb_refl.
Qed.

Lemma keys_inv_step (hist : list (value * value)) (d : dictobj)
  (key v : value) :
  (forall c, key <> VId c) ->
  keys_inv hist d ->
  keys_inv (hist ++ [(key, v)]) (dictSet_result d key v).
Proof.
  intros Hk (I1 & I2 & I3 & I4 & I5 & I6).
  destruct (dictSet_result_store d key v) as [Hit Hrefl].
  assert (Hmono : forall x, d_mem x (items d) = true ->
                  d_mem x (items (dictSet_result d key v)) = true).
  { intros x Hx. rewrite Hit. apply d_mem_store_mono. exact Hx. }
  assert (Hlist : forall x, In x (listed d) ->
                  In x (listed (dictSet_result d key v))).
  { intros x Hx. destruct (hashable key) eqn:Hh.
    - rewrite listed_hashable by assumption. exact Hx.
    - destruct key; try discriminate. rewrite listed_unhashable.
      destruct (d_mem (VId l) (items d)); [exact Hx|].
      apply in_or_app. left. exact Hx. }
  assert (Hslot : hashable (slot_of key) = true).
  { unfold slot_of. destruct key; reflexivity. }
  unfold keys_inv. repeat apply conj.
  - (* listed keys *)
    intros x Hx. destruct (hashable key) eqn:Hh.
    + rewrite listed_hashable in Hx by assumption.
      destruct (I1 x Hx) as (c & -> & Hin & Hm). exists c.
      repeat split; [apply in_map_fst_snoc; exact Hin|apply Hmono; exact Hm].
    + destruct key; try discriminate. rewrite listed_unhashable in Hx.
      assert (Hnew : d_mem (VId l) (items (dictSet_result d (VDict l) v))
                     = true).
      { rewrite Hit. apply d_mem_store_same. exact Hrefl. }
      destruct (d_mem (VId l) (items d)) eqn:M.
      * destruct (I1 x Hx) as (c & -> & Hin & Hm). exists c.
        repeat split; [apply in_map_fst_snoc; exact Hin|apply Hmono; exact Hm].
      * apply in_app_or in Hx as [Hx|[<-|[]]].
        -- destruct (I1 x Hx) as (c & -> & Hin & Hm). exists c.
           repeat split;
             [apply in_map_fst_snoc; exact Hin|apply Hmono; exact Hm].
        -- exists l. repeat split; [|exact Hnew].
           apply (in_map_fst_last hist (VDict l, v)).
  - (* no key listed twice *)
    destruct (hashable key) eqn:Hh.
    + rewrite listed_hashable by assumption. exact I2.
    + destruct key; try discriminate. rewrite listed_unhashable.
      destruct (d_mem (VId l) (items d)) eqn:M; [exact I2|].
      apply List.NoDup_app.
      * exact I2.
      * constructor; [intros []|constructor].
      * intros x Hx Hx'. destruct Hx' as [<-|[]].
        destruct (I1 _ Hx) as (c & Hc & _ & Hm). inversion Hc. subst c.
        congruence.
  - (* every address entry has its key listed *)
    intros c Hc. rewrite Hit, map_fst_store in Hc.
    destruct (d_mem (slot_of key) (items d)) eqn:M.
    + apply Hlist, I3. exact Hc.
    + apply in_app_or in Hc as [Hc|[Hc|[]]]; [apply Hlist, I3; exact Hc|].
      unfold slot_of in Hc, M. destruct key; simpl in Hc, M;
        try (exfalso; apply (Hk c); exact Hc); try discriminate.
      inversion Hc. subst l. rewrite listed_unhashable, M.
      apply in_or_app. right. left. reflexivity.
  - (* what the entries are *)
    intros x Hx. rewrite Hit, map_fst_store in Hx.
    assert (Hold : In x (map fst (items d)) ->
                   hashable x = true
                   /\ (In x (map fst (hist ++ [(key, v)]))
                       \/ exists c, x = VId c)).
    { intros Hin. destruct (I4 x Hin) as [Hh [Hi|Hi]]; split; auto.
      left. apply in_map_fst_snoc. exact Hi. }
    destruct (d_mem (slot_of key) (items d)); [apply Hold; exact Hx|].
    apply in_app_or in Hx as [Hx|[<-|[]]]; [apply Hold; exact Hx|].
    split; [exact Hslot|].
    unfold slot_of. destruct (hashable key) eqn:Hh.
    + left. apply (in_map_fst_last hist (key, v)).
    + destruct key; try discriminate. right. exists l. reflexivity.
  - (* no two equal entries *)
    rewrite Hit. apply distinct_store. exact I5.
  - (* every key set so far *)
    intros k Hin. rewrite map_app in Hin.
    apply in_app_or in Hin as [Hin|[<-|[]]].
    + specialize (I6 k Hin). destruct (hashable k).
      * apply Hmono. exact I6.
      * apply Hlist. exact I6.
    + simpl. destruct (hashable key) eqn:Hh.
      * rewrite Hit. unfold slot_of in *. rewrite Hh in *.
        apply d_mem_store_same. exact Hrefl.
      * destruct key; try discriminate. rewrite listed_unhashable.
        destruct (d_mem (VId l) (items d)) eqn:M.
        -- apply I3. apply d_mem_VId. exact M.
        -- apply in_or_app. right. left. reflexivity.
Qed.

Lemma keys_inv_built (ops hist : list (value * value)) (d : dictobj) :
  no_id_keys ops -> keys_inv hist d ->
  keys_inv (hist ++ ops) (built ops d).
Proof.
  revert hist d. induction ops as [|[k v] ops IH]; intros hist d Hn Hi.
  - rewrite app_nil_r. exact Hi.
  - simpl. replace (hist ++ (k, v) :: ops) with ((hist ++ [(k, v)]) ++ ops)
      by (rewrite <- app_assoc; reflexivity).
    apply IH.
    + intros kv c Hin. apply Hn. right. exact Hin.
    + apply keys_inv_step; [|exact Hi].
      intros c. apply (Hn (k, v) c). left. reflexivity.
Qed.

End BuiltKeysInvariant.

Section BuiltKeysYielded.

Lemma set_all_dict (ops : list (value * value)) (st : State) (l : loc)
  (d : dictobj) :
  heap st !! l = Some (ODict d) ->
  set_all (VDict l) ops st
  = (Ok tt, set_heap (<[l := ODict (built ops d)]> (heap st)) st).
Proof.
  revert st d. induction ops as [|[k v] ops IH]; intros st d H; simpl.
  - rewrite list_insert_id by exact H. rewrite set_heap_same. reflexivity.
  - rewrite bind_eq, (_dictSet_dict _ _ _ _ _ H).
    rewrite (IH _ (dictSet_result d k v)).
    + simpl. rewrite list_insert_insert_eq, set_heap_set_heap. reflexivity.
    + simpl. apply list_lookup_insert_eq. eapply lookup_lt_Some; eauto.
Qed.

Lemma filter_all {A} (f : A -> bool) (l : list A) :
  (forall x, In x l -> f x = true) -> List.filter f l = l.
Proof.
  induction l as [|a l IH]; simpl; intros H; [reflexivity|].
  rewrite (H a) by (left; reflexivity). f_equal. apply IH.
  intros x Hx. apply H. right. exact Hx.
Qed.

Lemma dict_keys_listed (d : dictobj) :
  dict_keys d
  = listed d
    ++ List.filter (fun k => negb (existsb (py_eqb k) (ids_of (listed d))))
         (map fst (items d)).
Proof.
  unfold dict_keys, listed. destruct (dkeys d); [reflexivity|].
  simpl. symmetry. apply filter_all. reflexivity.
Qed.

Lemma in_ids_of (ks : list value) (i : value) :
  In i (ids_of ks) <->
  exists c, i = VId c /\ (In (VDict c) ks \/ In (VObj c) ks).
Proof.
  unfold ids_of. rewrite in_flat_map. split.
  - intros (k & Hk & Hi). destruct k; simpl in Hi; try contradiction;
      destruct Hi as [<-|[]]; eauto.
  - intros (c & -> & [H|H]); eexists; (split; [exact H|]); left; reflexivity.
Qed.

(** X15. The keys of a dict built by [_dictSet]: starting from [{}] and
    setting any keys, hashable or not, [_dictKeys] yields exactly the keys
    that were set -- every one of them (a hashable one as the equal key
    that was set first), none twice, and never the address under which an
    unhashable key is filed. *)
Theorem dictKeys_yields_the_keys_set (st : State) (l : loc)
  (ops : list (value * value)) :
  heap st !! l = Some (ODict empty_dict) ->
  no_id_keys ops ->
  exists keys,
    (set_all (VDict l) ops ;;; _dictKeys (VDict l)) st
    = (Ok keys,
       set_heap (<[l := ODict (built ops empty_dict)]> (heap st)) st)
    /\ List.NoDup keys
    /\ (forall x, In x keys -> In x (map fst ops))
    /\ (forall k, In k (map fst ops) ->
          exists x, In x keys
                    /\ if hashable k then py_eqb x k = true else x = k).
Proof.
  intros H Hn.
  destruct (keys_inv_built ops [] empty_dict Hn keys_inv_empty)
    as (I1 & I2 & I3 & I4 & I5 & I6).
  simpl in I1, I4, I6.
  set (d := built ops empty_dict) in *.
  exists (dict_keys d). split; [|split; [|split]].
  - rewrite bind_eq, (set_all_dict _ _ _ _ H). fold d.
    apply _dictKeys_dict. simpl. apply list_lookup_insert_eq.
    eapply lookup_lt_Some; eauto.
  - rewrite dict_keys_listed. apply List.NoDup_app.
    + exact I2.
    + apply List.NoDup_filter, distinct_NoDup; [exact I5|].
      intros x Hx. apply (I4 x Hx).
    + intros x Hx Hx'. apply filter_In in Hx' as [Hx' _].
      destruct (I1 x Hx) as (c & -> & _). destruct (I4 _ Hx') as [Hh _].
      discriminate.
  - intros x Hx. rewrite dict_keys_listed in Hx.
    apply in_app_or in Hx as [Hx|Hx].
    + destruct (I1 x Hx) as (c & _ & Hin & _). exact Hin.
    + apply filter_In in Hx as [Hx Hf].
      destruct (I4 x Hx) as [_ [Hin|(c & ->)]]; [exact Hin|].
      exfalso. apply negb_true_iff in Hf.
      assert (E : existsb (py_eqb (VId c)) (ids_of (listed d)) = true).
      { apply existsb_exists. exists (VId c). split.
        - apply in_ids_of. exists c. split; [reflexivity|]. left.
          apply I3. exact Hx.
        - simpl. apply Nat.eqb_refl. }
      congruence.
  - intros k Hk. specialize (I6 k Hk). rewrite dict_keys_listed.
    destruct (hashable k) eqn:Hh.
    + apply d_mem_in in I6 as (x & Hx & Hxk). exists x. split; [|exact Hxk].
      apply in_or_app. right. apply filter_In. split; [exact Hx|].
      apply negb_true_iff.
      destruct (existsb (py_eqb x) (ids_of (listed d))) eqn:E; [|reflexivity].
      exfalso. apply existsb_exists in E as (i & Hi & Hxi).
      apply in_ids_of in Hi as (c & -> & _). apply py_eqb_VId in Hxi.
      subst x. simpl in Hxk. destruct k; try discriminate.
      apply in_map_iff in Hk as (kv & Hkv & Hin).
      apply (Hn kv l0 Hin). exact Hkv.
    + exists k. split; [|reflexivity]. apply in_or_app. left. exact I6.
Qed.

End BuiltKeysYielded.

Lemma dictKeys_yields_the_keys_set_witness :
  let ops := [(VStr "a", VInt 1); (VDict 1, VInt 2);
              (VStr "a", VInt 3); (VDict 1, VInt 4)] in
  let st := initial [ODict empty_dict; ODict empty_dict] in
  exists keys,
    (set_all (VDict 0) ops ;;; _dictKeys (VDict 0)) st
    = (Ok keys,
       set_heap (<[0%nat := ODict (built ops empty_dict)]> (heap st)) st)
    /\ List.NoDup keys
    /\ (forall x, In x keys -> In x (map fst ops))
    /\ (forall k, In k (map fst ops) ->
          exists x, In x keys
                    /\ if hashable k then py_eqb x k = true else x = k).
Proof.
  intros ops st. apply (dictKeys_yields_the_keys_set st 0%nat ops eq_refl).
  intros kv c Hin. simpl in Hin.
  destruct Hin as [<-|[<-|[<-|[<-|[]]]]]; discriminate.
Defined.

(** ** The capability classes *)

Section OverriddenAccess.

Variable call : ovr -> list value -> M value.

(** [read(v)] and [write(v, new=x)] outside a journal, on a value that is
    no instance. *)
Lemma read_plain_value (st : State) (v : value) :
  commit_reads st = None -> commit_writes st = None -> plain v = true ->
  read call v VNone st = (Ok v, st).
Proof.
  intros Hr Hw Hp.
  unfold read. rewrite bind_eq. unfold get at 1. cbv beta iota.
  rewrite Hw. unfold try_journal at 1.
  rewrite bind_eq. unfold get at 1. cbv beta iota.
  rewrite Hr. unfold try_journal at 1.
  unfold read_storage. rewrite try_except_eq, bind_eq.
  cbn [is_none negb]. unfold ret at 1. cbv beta iota.
  rewrite bind_eq, checkOverride_no_table by (apply concept_of_plain; exact Hp).
  reflexivity.
Qed.

Lemma write_plain_value (st : State) (v new : value) :
  commit_writes st = None -> plain v = true ->
  write call v VNone new st = (Ok new, st).
Proof.
  intros Hw Hp.
  unfold write. rewrite bind_eq. unfold get at 1. cbv beta iota.
  rewrite Hw. rewrite try_except_eq, bind_eq.
  cbn [is_none negb]. unfold ret at 1. cbv beta iota.
  rewrite bind_eq, checkOverride_no_table by (apply concept_of_plain; exact Hp).
  reflexivity.
Qed.

(** The same on an instance whose class overrides the operation. *)
Lemma read_instance (st st' : State) (l : loc) (t : table) (o : ovr)
  (r : value) :
  commit_reads st = None -> commit_writes st = None ->
  concept_of (heap st) (VObj l) = Some t ->
  table_lookup OpRead t = Some (Some o) ->
  call o [VObj l] st = (Ok r, st') -> is_none r = false ->
  read call (VObj l) VNone st = (Ok r, st').
Proof.
  intros Hr Hw Hc Ht Ho Hn.
  unfold read. rewrite bind_eq. unfold get at 1. cbv beta iota.
  rewrite Hw. unfold try_journal at 1.
  rewrite bind_eq. unfold get at 1. cbv beta iota.
  rewrite Hr. unfold try_journal at 1.
  unfold read_storage. rewrite try_except_eq, bind_eq.
  cbn [is_none negb]. unfold ret at 1. cbv beta iota.
  rewrite bind_eq, (checkOverride_entry call _ _ _ _ _ _ Hc Ht), Ho, Hn.
  cbn [negb]. cbv iota. rewrite bind_eq. unfold get at 1. cbv beta iota.
  rewrite bind_eq. destruct (commit_reads st'); reflexivity.
Qed.

Lemma write_instance (st st' : State) (l : loc) (t : table) (o : ovr)
  (new r : value) :
  commit_writes st = None ->
  concept_of (heap st) (VObj l) = Some t ->
  table_lookup OpWrite t = Some (Some o) ->
  call o [VObj l; new] st = (Ok r, st') -> is_none r = false ->
  write call (VObj l) VNone new st = (Ok r, st').
Proof.
  intros Hw Hc Ht Ho Hn.
  unfold write. rewrite bind_eq. unfold get at 1. cbv beta iota.
  rewrite Hw. rewrite try_except_eq, bind_eq.
  cbn [is_none negb]. unfold ret at 1. cbv beta iota.
  rewrite bind_eq, (checkOverride_entry call _ _ _ _ _ _ Hc Ht), Ho, Hn.
  reflexivity.
Qed.

(** [read(dict, key)] and [write(dict, key, new)] outside a journal, on
    a field that holds such an instance. *)
Lemma read_field_instance (st st' : State) (s l : loc) (d : dictobj)
  (k : value) (t : table) (o : ovr) (r : value) :
  commit_reads st = None -> commit_writes st = None ->
  heap st !! s = Some (ODict d) ->
  hashable k = true -> is_none k = false ->
  d_lookup k (items d) = Some (VObj l) ->
  concept_of (heap st) (VObj l) = Some t ->
  table_lookup OpRead t = Some (Some o) ->
  call o [VObj l] st = (Ok r, st') -> is_none r = false ->
  commit_reads st' = None ->
  read call (VDict s) k st = (Ok r, st').
Proof.
  intros Hr Hw Hd Hh Hk Hx Hc Ht Ho Hn Hr'.
  unfold read. rewrite bind_eq. unfold get at 1. cbv beta iota.
  rewrite Hw. unfold try_journal at 1.
  rewrite bind_eq. unfold get at 1. cbv beta iota.
  rewrite Hr. unfold try_journal at 1.
  unfold read_storage. rewrite try_except_eq, bind_eq, Hk.
  cbn [negb]. cbv iota.
  rewrite (getitem_dict _ _ _ Hd), Hh, Hx.
  rewrite bind_eq, (checkOverride_entry call _ _ _ _ _ _ Hc Ht), Ho, Hn.
  cbn [negb]. cbv iota. rewrite bind_eq. unfold get at 1. cbv beta iota.
  rewrite Hr'. reflexivity.
Qed.

Lemma write_field_instance (st st' : State) (s l : loc) (d d' : dictobj)
  (k : value) (t : table) (o : ovr) (new r : value) :
  commit_writes st = None ->
  heap st !! s = Some (ODict d) ->
  hashable k = true -> is_none k = false ->
  d_lookup k (items d) = Some (VObj l) ->
  concept_of (heap st) (VObj l) = Some t ->
  table_lookup OpWrite t = Some (Some o) ->
  call o [VObj l; new] st = (Ok r, st') -> is_none r = false ->
  heap st' !! s = Some (ODict d') ->
  write call (VDict s) k new st
  = (Ok r,
     set_heap (<[s := ODict (mkDict (dkeys d') (d_store k r (items d')))]>
                 (heap st')) st').
Proof.
  intros Hw Hd Hh Hk Hx Hc Ht Ho Hn Hd'.
  unfold write. rewrite bind_eq. unfold get at 1. cbv beta iota.
  rewrite Hw. rewrite try_except_eq, bind_eq, Hk.
  cbn [negb]. cbv iota.
  rewrite (getitem_dict _ _ _ Hd), Hh, Hx.
  rewrite bind_eq, (checkOverride_entry call _ _ _ _ _ _ Hc Ht), Ho, Hn.
  cbn [negb]. cbv iota.
  rewrite bind_eq, (setitem_dict _ _ _ Hd') by exact Hh.
  reflexivity.
Qed.

End OverriddenAccess.

Section CapabilityBodies.

Variable draw : Z -> Z -> nat -> Z.

Lemma getattr_eq (st : State) (l : loc) (c : option table)
  (attrs : list (string * value)) (name : string) (v : value) :
  heap st !! l = Some (OInst c attrs) ->
  attr_lookup name attrs = Some v ->
  getattr (VObj l) name st = (Ok v, st).
Proof.
  intros H Ha. unfold getattr. rewrite bind_eq. unfold get at 1.
  cbv beta iota. rewrite H, Ha. reflexivity.
Qed.

Lemma setattr_eq (st : State) (l : loc) (c : option table)
  (attrs : list (string * value)) (name : string) (v : value) :
  heap st !! l = Some (OInst c attrs) ->
  setattr (VObj l) name v st
  = (Ok tt,
     set_heap (<[l := OInst c (attr_store name v attrs)]> (heap st)) st).
Proof.
  intros H. unfold setattr. rewrite bind_eq. unfold get at 1.
  cbv beta iota. rewrite H. reflexivity.
Qed.

Lemma clamp_within (a b v : Z) : a <= b -> a <= clamp a b v <= b.
Proof.
  intros H. unfold clamp.
  destruct (v <? a) eqn:E1; [lia|]. destruct (b <? v) eqn:E2; lia.
Qed.

Lemma clamp_inside (a b v : Z) : a <= v <= b -> clamp a b v = v.
Proof.
  intros H. unfold clamp.
  destruct (v <? a) eqn:E1; [lia|]. destruct (b <? v) eqn:E2; [lia|].
  reflexivity.
Qed.

(** [Bounded(a, b, v)] on integer bounds. *)
Lemma Bounded_new (st : State) (a b : Z) (v : value) :
  Bounded (VInt a) (VInt b) v st
  = if b <? a
    then (Raise BoundsError,
          set_heap (heap st ++ [OInst (Some Bounded_concept) []]) st)
    else (Ok (VObj (length (heap st))),
          set_heap (heap st ++ [OInst (Some Bounded_concept)
                                  [("a"%string, VInt a); ("b"%string, VInt b);
                                   ("v"%string, v)]]) st).
Proof.
  unfold Bounded. rewrite bind_eq. unfold alloc at 1. cbv beta iota.
  rewrite bind_eq. unfold py_lt at 1. cbn [as_num]. unfold ret at 1.
  cbv beta iota. destruct (b <? a); [reflexivity|].
  set (st1 := set_heap _ st).
  assert (H1 : heap st1 !! length (heap st)
               = Some (OInst (Some Bounded_concept) [])).
  { apply lookup_fresh. }
  rewrite bind_eq, (setattr_eq _ _ _ _ _ _ H1).
  set (st2 := set_heap _ st1).
  assert (H2 : heap st2 !! length (heap st)
               = Some (OInst (Some Bounded_concept)
                         (attr_store "a" (VInt a) []))).
  { apply list_lookup_insert_eq. eapply lookup_lt_Some. exact H1. }
  rewrite bind_eq, (setattr_eq _ _ _ _ _ _ H2).
  set (st3 := set_heap _ st2).
  assert (H3 : heap st3 !! length (heap st)
               = Some (OInst (Some Bounded_concept)
                         (attr_store "b" (VInt b)
                            (attr_store "a" (VInt a) [])))).
  { apply list_lookup_insert_eq. eapply lookup_lt_Some. exact H2. }
  rewrite bind_eq, (setattr_eq _ _ _ _ _ _ H3).
  unfold ret. subst st3 st2 st1. simpl.
  rewrite !set_heap_set_heap, !list_insert_insert_eq.
  rewrite insert_app_r_alt by lia. rewrite Nat.sub_diag. reflexivity.
Qed.

End CapabilityBodies.

Section CapabilityMethods.

Variable draw : Z -> Z -> nat -> Z.

Lemma Bounded_read_value (st st' : State) (n : nat) (l : loc)
  (c : option table) (attrs : list (string * value)) (a b x : Z)
  (vv : value) :
  heap st !! l = Some (OInst c attrs) ->
  attr_lookup "a" attrs = Some (VInt a) ->
  attr_lookup "b" attrs = Some (VInt b) ->
  attr_lookup "v" attrs = Some vv -> is_none vv = false ->
  read (cap_call draw n) vv VNone st = (Ok (VInt x), st') ->
  heap st' !! l = Some (OInst c attrs) ->
  cap_call draw (S n) Bounded_boundedRead [VObj l] st
  = (Ok (VInt (clamp a b x)), st').
Proof.
  intros H Ha Hb Hv Hn Hr H'.
  change (cap_call draw (S n) Bounded_boundedRead [VObj l])
    with (Bounded__boundedRead draw (read (cap_call draw n)) (VObj l)).
  unfold Bounded__boundedRead.
  rewrite bind_eq, (getattr_eq _ _ _ _ _ _ H Hv), Hn.
  rewrite bind_eq, (getattr_eq _ _ _ _ _ _ H Hv).
  rewrite bind_eq, Hr.
  rewrite bind_eq, (getattr_eq _ _ _ _ _ _ H' Ha).
  rewrite bind_eq. unfold py_lt at 1. cbn [as_num]. unfold ret at 1.
  cbv beta iota. unfold clamp. destruct (x <? a).
  - apply (getattr_eq _ _ _ _ _ _ H' Ha).
  - rewrite bind_eq, (getattr_eq _ _ _ _ _ _ H' Hb).
    rewrite bind_eq. unfold py_lt at 1. cbn [as_num]. unfold ret at 1.
    cbv beta iota. destruct (b <? x).
    + apply (getattr_eq _ _ _ _ _ _ H' Hb).
    + reflexivity.
Qed.

Lemma Bounded_write_value (st st' : State) (n : nat) (l : loc)
  (c : option table) (attrs attrs' : list (string * value))
  (vv x r : value) :
  heap st !! l = Some (OInst c attrs) ->
  attr_lookup "v" attrs = Some vv -> is_none vv = false ->
  write (cap_call draw n) vv VNone x st = (Ok r, st') ->
  heap st' !! l = Some (OInst c attrs') ->
  cap_call draw (S n) Bounded_boundedWrite [VObj l; x] st
  = (Ok (VObj l),
     set_heap (<[l := OInst c (attr_store "v" r attrs')]> (heap st')) st').
Proof.
  intros H Hv Hn Hw H'.
  change (cap_call draw (S n) Bounded_boundedWrite [VObj l; x])
    with (Bounded__boundedWrite (write (cap_call draw n)) (VObj l) x).
  unfold Bounded__boundedWrite.
  rewrite bind_eq, (getattr_eq _ _ _ _ _ _ H Hv), Hn.
  cbn [negb]. cbv iota.
  rewrite bind_eq, bind_eq, (getattr_eq _ _ _ _ _ _ H Hv).
  rewrite bind_eq, Hw.
  rewrite (setattr_eq _ _ _ _ _ _ H'). reflexivity.
Qed.

Lemma Walk_read_value (st st1 st2 : State) (n : nat) (l : loc)
  (c : option table) (attrs : list (string * value)) (vv dd : value)
  (x y : Z) :
  heap st !! l = Some (OInst c attrs) ->
  attr_lookup "v" attrs = Some vv ->
  attr_lookup "d" attrs = Some dd ->
  read (cap_call draw n) vv VNone st = (Ok (VInt x), st1) ->
  heap st1 !! l = Some (OInst c attrs) ->
  read (cap_call draw n) dd VNone st1 = (Ok (VInt y), st2) ->
  cap_call draw (S n) Walk_boundedRead [VObj l] st
  = (Ok (VInt (x + y)), st2).
Proof.
  intros H Hv Hd Hx H1 Hy.
  change (cap_call draw (S n) Walk_boundedRead [VObj l])
    with (Walk__boundedRead (read (cap_call draw n)) (VObj l)).
  unfold Walk__boundedRead.
  rewrite bind_eq, (getattr_eq _ _ _ _ _ _ H Hv).
  rewrite bind_eq, Hx.
  rewrite bind_eq, (getattr_eq _ _ _ _ _ _ H1 Hd).
  rewrite bind_eq, Hy. reflexivity.
Qed.

Lemma Walk_write_value (st st' : State) (n : nat) (l : loc)
  (c : option table) (attrs attrs' : list (string * value))
  (vv x r : value) :
  heap st !! l = Some (OInst c attrs) ->
  attr_lookup "v" attrs = Some vv ->
  write (cap_call draw n) vv VNone x st = (Ok r, st') ->
  heap st' !! l = Some (OInst c attrs') ->
  cap_call draw (S n) Walk_boundedWrite [VObj l; x] st
  = (Ok (VObj l),
     set_heap (<[l := OInst c (attr_store "v" r attrs')]> (heap st')) st').
Proof.
  intros H Hv Hw H'.
  change (cap_call draw (S n) Walk_boundedWrite [VObj l; x])
    with (Walk__boundedWrite (write (cap_call draw n)) (VObj l) x).
  unfold Walk__boundedWrite.
  rewrite bind_eq, (getattr_eq _ _ _ _ _ _ H Hv).
  rewrite bind_eq, Hw.
  rewrite bind_eq, (setattr_eq _ _ _ _ _ _ H'). reflexivity.
Qed.

End CapabilityMethods.

Section BoundedNumber.

Variable draw : Z -> Z -> nat -> Z.

(** X16. A [Bounded] number reads within its bounds: outside any journal,
    [read(Bounded(a, b, v))] on integers fails in the constructor when
    [b < a], and otherwise returns a number between [a] and [b], which
    is [v] itself when [v] lies between them. *)
Theorem Bounded_reads_within_bounds (st : State) (a b v : Z) (depth : nat) :
  commit_reads st = None -> commit_writes st = None ->
  let prog := (self <- Bounded (VInt a) (VInt b) (VInt v) ;;
               read (cap_call draw (S depth)) self VNone) in
  (b < a -> fst (prog st) = Raise BoundsError)
  /\ (a <= b ->
      exists r st', prog st = (Ok (VInt r), st')
                    /\ a <= r <= b /\ (a <= v <= b -> r = v)).
Proof.
  intros Hr Hw prog. subst prog. cbv beta.
  rewrite bind_eq, Bounded_new. split.
  - intros Hlt. apply Z.ltb_lt in Hlt. rewrite Hlt. reflexivity.
  - intros Hle. assert (E : (b <? a) = false) by (apply Z.ltb_ge; lia).
    rewrite E. set (o := OInst _ _). set (st1 := set_heap _ st).
    assert (H1 : heap st1 !! length (heap st) = Some o)
      by apply lookup_fresh.
    exists (clamp a b v), st1. split; [|split].
    + eapply (read_instance _ st1 st1 _ Bounded_concept Bounded_boundedRead);
        [exact Hr|exact Hw| |reflexivity| |reflexivity].
      * unfold concept_of. rewrite H1. reflexivity.
      * eapply (Bounded_read_value draw st1 st1 depth _ _ _ a b v (VInt v));
          [exact H1|reflexivity|reflexivity|reflexivity|reflexivity|
           |exact H1].
        apply read_plain_value; [exact Hr|exact Hw|reflexivity].
    + apply clamp_within. exact Hle.
    + apply clamp_inside.
Qed.

End BoundedNumber.

Lemma Bounded_reads_within_bounds_witness :
  let draw := fun (_ _ : Z) (_ : nat) => 0 in
  let prog := (self <- Bounded (VInt 0) (VInt 10) (VInt 15) ;;
               read (cap_call draw 1) self VNone) in
  exists r st', prog (initial []) = (Ok (VInt r), st')
                /\ 0 <= r <= 10 /\ (0 <= 15 <= 10 -> r = 15).
Proof.
  intros draw.
  apply (proj2 (Bounded_reads_within_bounds draw (initial []) 0 10 15 0
                  eq_refl eq_refl)).
  lia.
Defined.

Section WalkField.

Variable draw : Z -> Z -> nat -> Z.
Variable class_attr : string -> option value.

Lemma attr_lookup_store_same (name : string) (v : value)
  (attrs : list (string * value)) :
  attr_lookup name (attr_store name v attrs) = Some v.
Proof.
  induction attrs as [|[n x] attrs IH]; simpl.
  - rewrite String.eqb_refl. reflexivity.
  - destruct (String.eqb n name) eqn:E; simpl; rewrite E;
      [reflexivity|exact IH].
Qed.

Lemma attr_lookup_store_other (name name' : string) (v : value)
  (attrs : list (string * value)) :
  name <> name' ->
  attr_lookup name' (attr_store name v attrs) = attr_lookup name' attrs.
Proof.
  intros Hne. induction attrs as [|[n x] attrs IH]; simpl.
  - destruct (String.eqb name name') eqn:E; [|reflexivity].
    apply String.eqb_eq in E. contradiction.
  - destruct (String.eqb n name) eqn:E; simpl.
    + apply String.eqb_eq in E. subst n.
      destruct (String.eqb name name') eqn:E'; [|reflexivity].
      apply String.eqb_eq in E'. contradiction.
    + rewrite IH. reflexivity.
Qed.

Lemma attr_store_store (name : string) (v v' : value)
  (attrs : list (string * value)) :
  attr_store name v' (attr_store name v attrs) = attr_store name v' attrs.
Proof.
  induction attrs as [|[n x] attrs IH]; simpl.
  - rewrite String.eqb_refl. reflexivity.
  - destruct (String.eqb n name) eqn:E; simpl; rewrite E;
      [reflexivity|rewrite IH; reflexivity].
Qed.

Lemma attr_store_same_value (name : string) (v : value)
  (attrs : list (string * value)) :
  attr_lookup name attrs = Some v -> attr_store name v attrs = attrs.
Proof.
  induction attrs as [|[n x] attrs IH]; simpl; [discriminate|].
  destruct (String.eqb n name).
  - intros [= ->]. reflexivity.
  - intros H. rewrite IH by assumption. reflexivity.
Qed.

(** Storing in a field the value it holds changes nothing. *)
Lemma restore_field (st : State) (s : loc) (d : dictobj) (k v : value) :
  heap st !! s = Some (ODict d) -> d_lookup k (items d) = Some v ->
  set_heap (<[s := ODict (mkDict (dkeys d) (d_store k v (items d)))]>
              (heap st)) st = st.
Proof.
  intros H Hk. rewrite (d_store_same_value _ _ _ Hk).
  replace (mkDict (dkeys d) (items d)) with d by (destruct d; reflexivity).
  rewrite list_insert_id by exact H. apply set_heap_same.
Qed.

(** One attribute read of a storage field that holds a [Walk] on
    integers. *)
Lemma walk_step (st : State) (s w : loc) (dct : dictobj) (name : string)
  (attrs : list (string * value)) (v0 dv : Z) (depth : nat) :
  commit_reads st = None -> commit_writes st = None ->
  heap st !! s = Some (ODict dct) ->
  d_lookup (VStr name) (items dct) = Some (VObj w) ->
  heap st !! w = Some (OInst (Some Walk_concept) attrs) ->
  attr_lookup "v" attrs = Some (VInt v0) ->
  attr_lookup "d" attrs = Some (VInt dv) ->
  name <> "dict"%string -> class_attr name = None ->
  swd_getattr (cap_call draw (S depth)) class_attr s name st
  = (Ok (VInt (v0 + dv)),
     set_heap (<[w := OInst (Some Walk_concept)
                        (attr_store "v" (VInt (v0 + dv)) attrs)]> (heap st))
              st).
Proof.
  intros Hr Hw Hs Hk Hwk Hv Hd Hne Hcls.
  assert (Hsw : s <> w) by (intros ->; congruence).
  assert (Hc : concept_of (heap st) (VObj w) = Some Walk_concept).
  { unfold concept_of. rewrite Hwk. reflexivity. }
  unfold swd_getattr.
  destruct (String.eqb name "dict") eqn:E;
    [apply String.eqb_eq in E; contradiction|].
  rewrite Hcls. unfold __getattr__. rewrite bind_eq.
  rewrite (read_field_instance _ st st s w dct (VStr name) Walk_concept
             Walk_boundedRead (VInt (v0 + dv)));
    [|exact Hr|exact Hw|exact Hs|reflexivity|reflexivity|exact Hk|exact Hc
     |reflexivity| |reflexivity|exact Hr].
  2:{ eapply (Walk_read_value draw st st st depth);
        [exact Hwk|exact Hv|exact Hd| |exact Hwk|];
        apply read_plain_value; auto. }
  set (st1 := set_heap (<[w := OInst (Some Walk_concept)
                             (attr_store "v" (VInt (v0 + dv)) attrs)]>
                          (heap st)) st).
  assert (Hs1 : heap st1 !! s = Some (ODict dct)).
  { simpl. rewrite list_lookup_insert_ne by auto. exact Hs. }
  rewrite bind_eq.
  rewrite (write_field_instance _ st st1 s w dct dct (VStr name) Walk_concept
             Walk_boundedWrite (VInt (v0 + dv)) (VObj w));
    [|exact Hw|exact Hs|reflexivity|reflexivity|exact Hk|exact Hc
     |reflexivity| |reflexivity|exact Hs1].
  2:{ eapply (Walk_write_value draw st st depth);
        [exact Hwk|exact Hv| |exact Hwk].
      apply write_plain_value; auto. }
  rewrite (restore_field _ _ _ _ _ Hs1 Hk). reflexivity.
Qed.

End WalkField.

Section WalkAdvances.

Variable draw : Z -> Z -> nat -> Z.
Variable class_attr : string -> option value.

(** X17. A [Walk] walks: outside any journal, when a storage field,
    under a name ordinary attribute lookup does not find, holds
    [Walk(v, d)] on integers, the [n]-th attribute read of the field
    returns [v + n * d], and its write-back has moved the walk there;
    nothing else in the heap changes. *)
Theorem Walk_field_advances (n : nat) (st : State) (s w : loc)
  (dct : dictobj) (name : string) (attrs : list (string * value))
  (v0 dv : Z) (depth : nat) (last : value) :
  commit_reads st = None -> commit_writes st = None ->
  heap st !! s = Some (ODict dct) ->
  d_lookup (VStr name) (items dct) = Some (VObj w) ->
  heap st !! w = Some (OInst (Some Walk_concept) attrs) ->
  attr_lookup "v" attrs = Some (VInt v0) ->
  attr_lookup "d" attrs = Some (VInt dv) ->
  name <> "dict"%string -> class_attr name = None ->
  access_times (cap_call draw (S depth)) class_attr (S n) s name last st
  = (Ok (VInt (v0 + Z.of_nat (S n) * dv)),
     set_heap (<[w := OInst (Some Walk_concept)
                        (attr_store "v" (VInt (v0 + Z.of_nat (S n) * dv))
                           attrs)]> (heap st)) st).
Proof.
  revert st attrs v0 last.
  induction n as [|n IH];
    intros st attrs v0 last Hr Hw Hs Hk Hwk Hv Hd Hne Hcls.
  - cbn [access_times]. rewrite bind_eq.
    rewrite (walk_step draw class_attr st s w dct name attrs v0 dv depth)
      by assumption.
    replace (v0 + Z.of_nat 1 * dv) with (v0 + dv) by lia. reflexivity.
  - change (access_times (cap_call draw (S depth)) class_attr (S (S n)) s
              name last)
      with (x <- swd_getattr (cap_call draw (S depth)) class_attr s name ;;
            access_times (cap_call draw (S depth)) class_attr (S n) s name x).
    rewrite bind_eq.
    rewrite (walk_step draw class_attr st s w dct name attrs v0 dv depth)
      by assumption.
    assert (Hsw : s <> w) by (intros ->; congruence).
    set (attrs1 := attr_store "v" (VInt (v0 + dv)) attrs).
    set (st1 := set_heap _ st).
    rewrite (IH st1 attrs1 (v0 + dv)).
    + subst st1 attrs1. simpl heap.
      rewrite set_heap_set_heap, list_insert_insert_eq, attr_store_store.
      replace (v0 + dv + Z.of_nat (S n) * dv)
        with (v0 + Z.of_nat (S (S n)) * dv) by lia.
      reflexivity.
    + exact Hr.
    + exact Hw.
    + simpl. rewrite list_lookup_insert_ne by auto. exact Hs.
    + exact Hk.
    + simpl. apply list_lookup_insert_eq. eapply lookup_lt_Some. exact Hwk.
    + apply attr_lookup_store_same.
    + unfold attrs1. rewrite attr_lookup_store_other by discriminate.
      exact Hd.
    + exact Hne.
    + exact Hcls.
Qed.

End WalkAdvances.

Lemma Walk_field_advances_witness :
  let draw := fun (_ _ : Z) (_ : nat) => 0 in
  let attrs := [("v"%string, VInt 5); ("d"%string, VInt 2)] in
  let st := initial [ODict (mkDict None [(VStr "a", VObj 1)]);
                     OInst (Some Walk_concept) attrs] in
  access_times (cap_call draw 1) slots_attr 3 0 "a" VNone st
  = (Ok (VInt (5 + Z.of_nat 3 * 2)),
     set_heap (<[1%nat := OInst (Some Walk_concept)
                        (attr_store "v" (VInt (5 + Z.of_nat 3 * 2)) attrs)]>
                 (heap st)) st).
Proof.
  intros draw attrs st.
  apply (Walk_field_advances draw slots_attr 2 st 0%nat 1%nat
           (mkDict None [(VStr "a", VObj 1)]) "a" attrs 5 2 0%nat VNone);
    try reflexivity.
  discriminate.
Defined.

Section Choice.

Variable draw : Z -> Z -> nat -> Z.

Lemma truthy_kept (h : list obj) (l : loc) (c c' : option table)
  (attrs attrs' : list (string * value)) (v : value) :
  h !! l = Some (OInst c attrs) ->
  truthy (<[l := OInst c' attrs']> h) v = truthy h v.
Proof.
  intros H. destruct v; try reflexivity. simpl.
  destruct (decide (l0 = l)) as [->|Hne].
  - rewrite list_lookup_insert_eq by (eapply lookup_lt_Some; exact H).
    rewrite H. reflexivity.
  - rewrite list_lookup_insert_ne by auto. reflexivity.
Qed.

Lemma If_read_value (st : State) (n : nat) (l : loc) (c : option table)
  (attrs : list (string * value)) (cv av bv : value) :
  commit_reads st = None -> commit_writes st = None ->
  heap st !! l = Some (OInst c attrs) ->
  attr_lookup "c" attrs = Some cv -> plain cv = true ->
  attr_lookup "a" attrs = Some av -> plain av = true ->
  attr_lookup "b" attrs = Some bv -> plain bv = true ->
  cap_call draw (S n) If_boundedRead [VObj l] st
  = (Ok (if truthy (heap st) cv then av else bv), st).
Proof.
  intros Hr Hw H Hc Hpc Ha Hpa Hb Hpb.
  change (cap_call draw (S n) If_boundedRead [VObj l])
    with (If__boundedRead (read (cap_call draw n)) (VObj l)).
  unfold If__boundedRead.
  rewrite bind_eq, (getattr_eq _ _ _ _ _ _ H Hc).
  rewrite bind_eq, read_plain_value by assumption.
  rewrite bind_eq. unfold truth at 1. rewrite bind_eq. unfold get at 1.
  cbv beta iota. unfold ret at 1. cbv beta iota.
  destruct (truthy (heap st) cv).
  - rewrite bind_eq, (getattr_eq _ _ _ _ _ _ H Ha).
    apply read_plain_value; assumption.
  - rewrite bind_eq, (getattr_eq _ _ _ _ _ _ H Hb).
    apply read_plain_value; assumption.
Qed.

Lemma If_write_value (st : State) (n : nat) (l : loc) (c : option table)
  (attrs : list (string * value)) (cv av bv x : value) :
  commit_reads st = None -> commit_writes st = None ->
  heap st !! l = Some (OInst c attrs) ->
  attr_lookup "c" attrs = Some cv -> plain cv = true ->
  attr_lookup "a" attrs = Some av -> plain av = true ->
  attr_lookup "b" attrs = Some bv -> plain bv = true ->
  cap_call draw (S n) If_boundedWrite [VObj l; x] st
  = (Ok (VObj l),
     set_heap (<[l := OInst c (attr_store
                                 (if truthy (heap st) cv then "a" else "b")
                                 x attrs)]> (heap st)) st).
Proof.
  intros Hr Hw H Hc Hpc Ha Hpa Hb Hpb.
  change (cap_call draw (S n) If_boundedWrite [VObj l; x])
    with (If__boundedWrite (read (cap_call draw n))
            (write (cap_call draw n)) (VObj l) x).
  unfold If__boundedWrite.
  rewrite bind_eq, (getattr_eq _ _ _ _ _ _ H Hc).
  rewrite bind_eq, read_plain_value by assumption.
  rewrite bind_eq. unfold truth at 1. rewrite bind_eq. unfold get at 1.
  cbv beta iota. unfold ret at 1. cbv beta iota.
  destruct (truthy (heap st) cv).
  - rewrite bind_eq, bind_eq, (getattr_eq _ _ _ _ _ _ H Ha).
    rewrite bind_eq, write_plain_value by assumption.
    rewrite (setattr_eq _ _ _ _ _ _ H). reflexivity.
  - rewrite bind_eq, bind_eq, (getattr_eq _ _ _ _ _ _ H Hb).
    rewrite bind_eq, write_plain_value by assumption.
    rewrite (setattr_eq _ _ _ _ _ _ H). reflexivity.
Qed.

(** X19. A write to an [If] lands in the branch its condition selects and
    reads back: outside any journal, for an [If] whose condition and
    branches are no instances, [write(x, new=v)] followed by [read(x)]
    returns [v] (a value that is neither [None] nor an instance); [v] is
    stored in [a] when the condition holds and in [b] otherwise, and
    nothing else changes. *)
Theorem If_write_then_read (st : State) (depth : nat) (l : loc)
  (attrs : list (string * value)) (cv av bv v : value) :
  commit_reads st = None -> commit_writes st = None ->
  heap st !! l = Some (OInst (Some If_concept) attrs) ->
  attr_lookup "c" attrs = Some cv -> plain cv = true ->
  attr_lookup "a" attrs = Some av -> plain av = true ->
  attr_lookup "b" attrs = Some bv -> plain bv = true ->
  plain v = true -> is_none v = false ->
  (write (cap_call draw (S depth)) (VObj l) VNone v ;;;
   read (cap_call draw (S depth)) (VObj l) VNone) st
  = (Ok v,
     set_heap (<[l := OInst (Some If_concept)
                        (attr_store
                           (if truthy (heap st) cv then "a" else "b")
                           v attrs)]> (heap st)) st).
Proof.
  intros Hr Hw H Hc Hpc Ha Hpa Hb Hpb Hpv Hnv.
  assert (Hco : concept_of (heap st) (VObj l) = Some If_concept).
  { unfold concept_of. rewrite H. reflexivity. }
  set (name := if truthy (heap st) cv then "a"%string else "b"%string).
  set (st1 := set_heap (<[l := OInst (Some If_concept)
                             (attr_store name v attrs)]> (heap st)) st).
  rewrite bind_eq.
  rewrite (write_instance _ st st1 l If_concept If_boundedWrite v (VObj l)
             Hw Hco eq_refl
             (If_write_value st depth l _ attrs cv av bv v
                Hr Hw H Hc Hpc Ha Hpa Hb Hpb) eq_refl).
  assert (H1 : heap st1 !! l
               = Some (OInst (Some If_concept) (attr_store name v attrs))).
  { simpl. apply list_lookup_insert_eq. eapply lookup_lt_Some. exact H. }
  assert (Hco1 : concept_of (heap st1) (VObj l) = Some If_concept).
  { unfold concept_of. rewrite H1. reflexivity. }
  assert (Ht : truthy (heap st1) cv = truthy (heap st) cv).
  { simpl. eapply truthy_kept. exact H. }
  assert (Hc1 : attr_lookup "c" (attr_store name v attrs) = Some cv).
  { rewrite attr_lookup_store_other; [exact Hc|].
    unfold name. destruct (truthy (heap st) cv); discriminate. }
  destruct (truthy (heap st) cv) eqn:T; subst name.
  - eapply (read_instance _ st1 st1 l If_concept If_boundedRead v Hr Hw Hco1
              eq_refl); [|exact Hnv].
    rewrite (If_read_value st1 depth l _ _ cv v bv Hr Hw H1 Hc1 Hpc
               (attr_lookup_store_same _ _ _) Hpv).
    + rewrite Ht. reflexivity.
    + rewrite attr_lookup_store_other by discriminate. exact Hb.
    + exact Hpb.
  - eapply (read_instance _ st1 st1 l If_concept If_boundedRead v Hr Hw Hco1
              eq_refl); [|exact Hnv].
    rewrite (If_read_value st1 depth l _ _ cv av v Hr Hw H1 Hc1 Hpc).
    + rewrite Ht. reflexivity.
    + rewrite attr_lookup_store_other by discriminate. exact Ha.
    + exact Hpa.
    + apply attr_lookup_store_same.
    + exact Hpv.
Qed.

End Choice.

Lemma If_write_then_read_witness :
  let draw := fun (_ _ : Z) (_ : nat) => 0 in
  let attrs := [("c"%string, VInt 0); ("a"%string, VInt 1);
                ("b"%string, VInt 2)] in
  let st := initial [OInst (Some If_concept) attrs] in
  (write (cap_call draw 1) (VObj 0) VNone (VInt 7) ;;;
   read (cap_call draw 1) (VObj 0) VNone) st
  = (Ok (VInt 7),
     set_heap (<[0%nat := OInst (Some If_concept)
                        (attr_store
                           (if truthy (heap st) (VInt 0) then "a" else "b")
                           (VInt 7) attrs)]> (heap st)) st).
Proof.
  intros draw attrs st.
  apply (If_write_then_read draw st 0%nat 0%nat attrs (VInt 0) (VInt 1)
           (VInt 2) (VInt 7)); reflexivity.
Defined.

Section Probability.

Variable draw : Z -> Z -> nat -> Z.

Lemma Prob_write_value (st : State) (n : nat) (l : loc) (c : option table)
  (attrs : list (string * value)) (pv x : value) :
  commit_writes st = None ->
  heap st !! l = Some (OInst c attrs) ->
  attr_lookup "p" attrs = Some pv -> plain pv = true -> is_none pv = false ->
  cap_call draw (S n) Prob_boundedWrite [VObj l; x] st
  = (Ok (VObj l),
     set_heap (<[l := OInst c (attr_store "p"
                                 (VInt (if truthy (heap st) x then 1 else 0))
                                 attrs)]> (heap st)) st).
Proof.
  intros Hw H Hp Hpp Hn.
  change (cap_call draw (S n) Prob_boundedWrite [VObj l; x])
    with (Prob__boundedWrite (write (cap_call draw n)) (VObj l) x).
  unfold Prob__boundedWrite.
  rewrite bind_eq, (getattr_eq _ _ _ _ _ _ H Hp), Hn.
  cbn [negb]. cbv iota.
  rewrite bind_eq, bind_eq, (getattr_eq _ _ _ _ _ _ H Hp).
  rewrite bind_eq. unfold truth at 1. rewrite bind_eq. unfold get at 1.
  cbv beta iota. unfold ret at 1. cbv beta iota.
  rewrite bind_eq, write_plain_value by assumption.
  rewrite (setattr_eq _ _ _ _ _ _ H). reflexivity.
Qed.

Lemma Prob_read_value (st : State) (n : nat) (l : loc) (c : option table)
  (attrs : list (string * value)) (p : Z) :
  commit_reads st = None -> commit_writes st = None ->
  heap st !! l = Some (OInst c attrs) ->
  attr_lookup "p" attrs = Some (VInt p) ->
  cap_call draw (S n) Prob_boundedRead [VObj l] st
  = (Ok (VBool (draw 0 1 (rng st) <? p)), set_rng (S (rng st)) st).
Proof.
  intros Hr Hw H Hp.
  change (cap_call draw (S n) Prob_boundedRead [VObj l])
    with (Prob__boundedRead draw (read (cap_call draw n)) (VObj l)).
  unfold Prob__boundedRead.
  rewrite bind_eq. unfold random_uniform at 1. cbn [as_num]. cbv beta iota.
  assert (E : float_range (1 - 0) && float_range 0 = true)
    by (vm_compute; reflexivity).
  rewrite E. cbv zeta iota.
  set (st1 := set_rng (S (rng st)) st).
  rewrite bind_eq, (getattr_eq st1 _ _ _ _ _ H Hp).
  rewrite bind_eq, read_plain_value by (try reflexivity; assumption).
  reflexivity.
Qed.

(** X20. What a [Prob] reads after a write: outside any journal,
    [write(x, new=v)] on a [Prob] whose [p] is a plain value sets [p] to
    1 when [v] is true and to 0 otherwise, and the [read(x)] that follows
    draws one deviate from [random.uniform(0, 1)] and returns whether it
    lies below the new [p]. *)
Theorem Prob_write_then_read (st : State) (depth : nat) (l : loc)
  (attrs : list (string * value)) (pv v : value) :
  commit_reads st = None -> commit_writes st = None ->
  heap st !! l = Some (OInst (Some Prob_concept) attrs) ->
  attr_lookup "p" attrs = Some pv -> plain pv = true -> is_none pv = false ->
  let p := if truthy (heap st) v then 1 else 0 in
  (write (cap_call draw (S depth)) (VObj l) VNone v ;;;
   read (cap_call draw (S depth)) (VObj l) VNone) st
  = (Ok (VBool (draw 0 1 (rng st) <? p)),
     set_heap (<[l := OInst (Some Prob_concept)
                        (attr_store "p" (VInt p) attrs)]> (heap st))
              (set_rng (S (rng st)) st)).
Proof.
  intros Hr Hw H Hp Hpp Hn p.
  assert (Hco : concept_of (heap st) (VObj l) = Some Prob_concept).
  { unfold concept_of. rewrite H. reflexivity. }
  set (st1 := set_heap (<[l := OInst (Some Prob_concept)
                             (attr_store "p" (VInt p) attrs)]> (heap st)) st).
  rewrite bind_eq.
  rewrite (write_instance _ st st1 l Prob_concept Prob_boundedWrite v (VObj l)
             Hw Hco eq_refl
             (Prob_write_value st depth l _ attrs pv v Hw H Hp Hpp Hn)
             eq_refl).
  assert (H1 : heap st1 !! l
               = Some (OInst (Some Prob_concept)
                         (attr_store "p" (VInt p) attrs))).
  { simpl. apply list_lookup_insert_eq. eapply lookup_lt_Some. exact H. }
  assert (Hco1 : concept_of (heap st1) (VObj l) = Some Prob_concept).
  { unfold concept_of. rewrite H1. reflexivity. }
  eapply (read_instance _ st1 _ l Prob_concept Prob_boundedRead _ Hr Hw Hco1
            eq_refl); [|reflexivity].
  apply (Prob_read_value st1 depth l _ _ p Hr Hw H1).
  apply attr_lookup_store_same.
Qed.

End Probability.

Lemma Prob_write_then_read_witness :
  let draw := fun (_ _ : Z) (_ : nat) => 0 in
  let attrs := [("p"%string, VInt 0)] in
  let st := initial [OInst (Some Prob_concept) attrs] in
  let p := if truthy (heap st) (VStr "yes") then 1 else 0 in
  (write (cap_call draw 1) (VObj 0) VNone (VStr "yes") ;;;
   read (cap_call draw 1) (VObj 0) VNone) st
  = (Ok (VBool (draw 0 1 (rng st) <? p)),
     set_heap (<[0%nat := OInst (Some Prob_concept)
                        (attr_store "p" (VInt p) attrs)]> (heap st))
              (set_rng (S (rng st)) st)).
Proof.
  intros draw attrs st.
  apply (Prob_write_then_read draw st 0%nat 0%nat attrs (VInt 0)
           (VStr "yes")); reflexivity.
Defined.

(** * Attribute reads inside a journal *)

(** ** Items and sub-buffers *)

Section CleanItems.













End CleanItems.

(** ** Stores into the two journals *)

Section TidyStores.
Local Open Scope nat_scope.

Variable h0 : list obj.







Lemma sub_ok_grow (h : list obj) (o : obj) (x : value) :
  sub_ok h0 h x -> sub_ok h0 (h ++ [o]) x.
Proof.
  intros (l' & d & -> & Hl & Hh & Hc).
  exists l', d. split; [reflexivity|]. split; [exact Hl|].
  split; [|exact Hc]. apply lookup_app_l_Some. exact Hh.
Qed.

Lemma sub_ok_alive (h : list obj) (x : value) :
  sub_ok h0 h x -> exists l, x = VDict l /\ l < length h /\ S (length h0) < l.
Proof.
  intros (l' & d & -> & Hl & Hh & Hc). exists l'.
  split; [reflexivity|]. split; [eapply lookup_lt_Some; eauto|exact Hl].
Qed.




End TidyStores.

(** ** The primitives in a tidy journal *)

Section TidyRun.
Local Open Scope nat_scope.

Variable call_override : ovr -> list value -> M value.
Variable class_attr : string -> option value.
Variable deviate : nat -> Z.
Hypothesis override_only_rng : only_rng call_override.

Variable h0 : list obj.


Lemma keeps_trans (a b c : State) :
  keeps h0 a b -> keeps h0 b c -> keeps h0 a c.
Proof. intros [_ E1] [T2 E2]. split; auto. Qed.















End TidyRun.

(** ** Committing a tidy write-buffer *)

Section TidyCommit.
Local Open Scope nat_scope.





End TidyCommit.

(** ** The read overrides of the capability classes only draw *)

Section ReadOverridesDraw.
Local Open Scope nat_scope.













End ReadOverridesDraw.

(** ** Attribute reads of a static storage write back *)

Section WriteBack.
Local Open Scope nat_scope.

Variable call_override : ovr -> list value -> M value.
Variable class_attr : string -> option value.
Variable deviate : nat -> Z.
Hypothesis override_only_rng : only_rng call_override.


End WriteBack.


